(** * tcphydra: the framed connection, the filter list and the session registry

    A shallow embedding of [core/proxy.py]: the line-buffering socket
    container (outbound flush, inbound read with its telnet stripper),
    filter attachment, the asynchronous connector's entry point and the
    session registry driven by the run loop, followed by the properties
    established about them. *)

From Stdlib Require Import ZArith Lia.
From stdpp Require Import gmap strings list fin_maps.

Local Open Scope Z_scope.

(** ** Python exceptions *)

(** The exception classes the embedded code raises or catches, with the
    part of Python's class hierarchy they live in. *)
Inductive exn : Type :=
  | BaseException
  | KeyboardInterrupt
  | PyException
  | AssertionError
  | ValueError
  | KeyError
  | FilterSpecificationError
  | OSError
  | BlockingIOError
  | ConnectionError
  | ConnectionResetError
  | ConnectionRefusedError
  | SSLError
  | SSLWantReadError
  | SSLWantWriteError.

#[global] Instance exn_eq_dec : EqDecision exn.
Proof. solve_decision. Defined.

(** Direct base class. *)
Definition base (c : exn) : option exn :=
  match c with
  | BaseException => None
  | KeyboardInterrupt => Some BaseException
  | PyException => Some BaseException
  | AssertionError | ValueError | KeyError | FilterSpecificationError
  | OSError => Some PyException
  | BlockingIOError | ConnectionError | SSLError => Some OSError
  | ConnectionResetError | ConnectionRefusedError => Some ConnectionError
  | SSLWantReadError | SSLWantWriteError => Some SSLError
  end.

Fixpoint issubclass_upto (depth : nat) (c cls : exn) : bool :=
  if bool_decide (c = cls) then true
  else match depth with
       | O => false
       | S d => match base c with
                | Some b => issubclass_upto d b cls
                | None => false
                end
       end.

(** The hierarchy above is four levels deep. *)
Definition issubclass (c cls : exn) : bool := issubclass_upto 4 c cls.

(** An [except (A, B, ...)] clause catches an exception of class [e] when
    [e] is a subclass of one of the listed classes. *)
Definition catches (classes : list exn) (e : exn) : bool :=
  existsb (issubclass e) classes.

(** A [try] statement's handlers are tried in the order they are written;
    the first clause that catches the exception runs. *)
Fixpoint first_handler {A : Type} (clauses : list (list exn * A)) (e : exn)
  : option A :=
  match clauses with
  | [] => None
  | (classes, h) :: rest =>
      if catches classes e then Some h else first_handler rest e
  end.

(** What a call does: it returns a value or raises.  Mutations made before
    a raise persist, so stateful operations return the state next to the
    outcome. *)
Inductive outcome (A : Type) : Type :=
  | Returns (a : A)
  | Raises (e : exn).
Arguments Returns {A} a.
Arguments Raises {A} e.

(** ** Bytes and module constants *)

(** An element of a Python [bytes] object is an integer in [0, 256). *)
Definition bytes := list Z.

Definition is_byte (b : Z) : Prop := 0 <= b < 256.

Definition LINE_SEPARATOR : Z := 10.
Definition RECV_MAX : Z := 4096.

Definition IAC : Z := 255.
Definition DONT : Z := 254.
Definition DO : Z := 253.
Definition WONT : Z := 252.
Definition WILL : Z := 251.

(** [linesep in buf] *)
Definition contains (linesep : Z) (buf : bytes) : bool :=
  existsb (Z.eqb linesep) buf.

(** [buf.index(linesep)], when [linesep in buf]. *)
Fixpoint index (linesep : Z) (buf : bytes) : option nat :=
  match buf with
  | [] => None
  | b :: rest =>
      if b =? linesep then Some O
      else match index linesep rest with
           | Some t => Some (S t)
           | None => None
           end
  end.

(** ** LineBufferingSocketContainer *)

Definition socket_id := nat.

Record LineBufferingSocketContainer : Type := mkContainer {
  b_send_buffer : bytes;
  b_recv_buffer : bytes;
  connected : bool;
  socket : option socket_id;
  linesep : Z
}.

(** [__init__] with no socket. *)
Definition new_container : LineBufferingSocketContainer :=
  {| b_send_buffer := []; b_recv_buffer := []; connected := false;
     socket := None; linesep := LINE_SEPARATOR |}.

Definition set_send_buffer (c : LineBufferingSocketContainer) (b : bytes) :=
  {| b_send_buffer := b; b_recv_buffer := b_recv_buffer c;
     connected := connected c; socket := socket c; linesep := linesep c |}.

Definition set_recv_buffer (c : LineBufferingSocketContainer) (b : bytes) :=
  {| b_send_buffer := b_send_buffer c; b_recv_buffer := b;
     connected := connected c; socket := socket c; linesep := linesep c |}.

Definition attach_socket (c : LineBufferingSocketContainer) (s : socket_id) :=
  {| b_send_buffer := b_send_buffer c; b_recv_buffer := b_recv_buffer c;
     connected := true; socket := Some s; linesep := linesep c |}.

Definition handle_disconnect (c : LineBufferingSocketContainer) :=
  {| b_send_buffer := b_send_buffer c; b_recv_buffer := b_recv_buffer c;
     connected := false; socket := None; linesep := linesep c |}.

(** *** The transport *)

(** One [socket.send(data)] call: the transport takes the first
    [min room (len data)] bytes and returns that count, or raises. *)
Inductive send_outcome : Type :=
  | SendAccepts (room : nat)
  | SendRaises (e : exn).

(** One [socket.recv(RECV_MAX)] call: it returns some bytes (none at all
    when the remote side closed) or raises. *)
Inductive recv_outcome : Type :=
  | RecvReturns (data : bytes)
  | RecvRaises (e : exn).

(** *** flush *)

Definition flush_handlers : list (list exn * unit) :=
  [ ([BlockingIOError; SSLWantReadError; SSLWantWriteError], tt);
    ([OSError], tt) ].

(** The [while] loop of [flush].  [sends] lists what the successive
    [send] calls of this flush do; a transport that has nothing more to
    say refuses with [BlockingIOError].  Returns the buffer left, the
    bytes put on the wire, and an exception no clause caught. *)
Fixpoint flush_loop (linesep : Z) (sends : list send_outcome)
    (buf wire : bytes) : bytes * bytes * outcome unit :=
  if negb (0 <? Z.of_nat (length buf)) || negb (contains linesep buf)
  then (buf, wire, Returns tt)
  else
    match index linesep buf with
    | None => (buf, wire, Returns tt)
    | Some t =>
        match sends with
        | [] => (buf, wire, Returns tt)
        | SendAccepts room :: sends' =>
            let offered := take (t + 1)%nat buf in
            let n_bytes := Nat.min room (length offered) in
            flush_loop linesep sends' (drop n_bytes buf)
                       (wire ++ take n_bytes offered)
        | SendRaises e :: _ =>
            match first_handler flush_handlers e with
            | Some _ => (buf, wire, Returns tt)
            | None => (buf, wire, Raises e)
            end
        end
    end.

(** [flush]: the two assertions, then the loop. *)
Definition flush (c : LineBufferingSocketContainer) (sends : list send_outcome)
  : LineBufferingSocketContainer * bytes * outcome unit :=
  if negb (bool_decide (socket c ≠ None)) then (c, [], Raises AssertionError)
  else if negb (connected c) then (c, [], Raises AssertionError)
  else
    let '(buf, wire, r) := flush_loop (linesep c) sends (b_send_buffer c) [] in
    (set_send_buffer c buf, wire, r).

(** [write]: append to the outbound buffer, then flush. *)
Definition write (c : LineBufferingSocketContainer) (data : bytes)
    (sends : list send_outcome) :=
  flush (set_send_buffer c (b_send_buffer c ++ data)) sends.

(** Python text is held as its UTF-8 bytes, so [str.encode] under the
    default encoding lists them. *)
Definition encode_str (data : string) : bytes :=
  map (λ a, Z.of_N (Ascii.N_of_ascii a)) (String.list_ascii_of_string data).

Definition write_str (c : LineBufferingSocketContainer) (data : string)
    (sends : list send_outcome) :=
  write c (encode_str data) sends.

(** A [TextLine] holds the raw bytes of one line. *)
Definition TextLine := bytes.

Definition write_line (c : LineBufferingSocketContainer) (line : TextLine)
    (sends : list send_outcome) :=
  write c line sends.

(** *** read *)

(** The receive loop of [read]: it appends what each [recv] returns and
    stops at the first short read; a zero-length read sets [has_eof].  A
    transport with nothing more to say raises [BlockingIOError].  Returns
    the inbound buffer and either [has_eof] or the exception raised. *)
Fixpoint recv_loop (recvs : list recv_outcome) (buf : bytes)
  : bytes * outcome bool :=
  match recvs with
  | [] => (buf, Raises BlockingIOError)
  | RecvRaises e :: _ => (buf, Raises e)
  | RecvReturns data :: recvs' =>
      let buf := buf ++ data in
      if Z.of_nat (length data) <? RECV_MAX then
        if Z.of_nat (length data) =? 0 then (buf, Returns true)
        else (buf, Returns false)
      else recv_loop recvs' buf
  end.

(** The [except] clauses of [read], in source order; each says what
    becomes of [has_eof]. *)
Definition read_handlers : list (list exn * (bool → bool)) :=
  [ ([BlockingIOError; SSLWantReadError; SSLWantWriteError], λ has_eof, has_eof);
    ([OSError], λ has_eof, has_eof);
    ([ConnectionResetError], λ _, true) ].

(** The telnet stripper: the scan from position [x] on, with the mode bit
    and the output so far. *)
Fixpoint strip_loop (buf : bytes) (in_command : bool) (stripped : bytes)
  : bytes * bool :=
  match buf with
  | [] => (stripped, in_command)
  | b :: rest =>
      if in_command then
        if b =? IAC then strip_loop rest false (stripped ++ [IAC])
        else if (b <=? DONT) && (b >=? WILL) then strip_loop rest true stripped
        else strip_loop rest false stripped
      else
        if b =? IAC then strip_loop rest true stripped
        else strip_loop rest false (stripped ++ [b])
  end.

Definition telnet_strip (buf : bytes) : bytes * bool :=
  strip_loop buf false [].

(** The line-splitting [while] loop; it removes at least one byte a turn,
    so [length stripped] turns are enough. *)
Fixpoint split_loop (turns : nat) (linesep : Z) (stripped : bytes)
    (q : list TextLine) : list TextLine * bytes :=
  match turns with
  | O => (q, stripped)
  | S turns' =>
      if contains linesep stripped then
        match index linesep stripped with
        | Some t =>
            split_loop turns' linesep (drop (t + 1)%nat stripped)
                       (q ++ [take (t + 1)%nat stripped])
        | None => (q, stripped)
        end
      else (q, stripped)
  end.

Definition split_lines (linesep : Z) (stripped : bytes)
  : list TextLine * bytes :=
  split_loop (length stripped) linesep stripped [].

(** [read]: returns the lines and [has_eof]. *)
Definition read (c : LineBufferingSocketContainer) (recvs : list recv_outcome)
  : LineBufferingSocketContainer * outcome (list TextLine * bool) :=
  if negb (connected c) then (c, Raises AssertionError)
  else if negb (bool_decide (socket c ≠ None)) then (c, Raises AssertionError)
  else
    let '(buf, r) := recv_loop recvs (b_recv_buffer c) in
    let c := set_recv_buffer c buf in
    let caught :=
      match r with
      | Returns has_eof => Returns has_eof
      | Raises e =>
          match first_handler read_handlers e with
          | Some h => Returns (h false)
          | None => Raises e
          end
      end in
    match caught with
    | Raises e => (c, Raises e)
    | Returns has_eof =>
        let '(stripped, in_command) := telnet_strip (b_recv_buffer c) in
        let '(q, stripped) := split_lines (linesep c) stripped in
        let c := set_recv_buffer c stripped in
        let c := if in_command
                 then set_send_buffer c (b_send_buffer c ++ [IAC])
                 else c in
        (c, Returns (q, has_eof))
    end.

(** ** FilteredSocket, RemoteServer, LocalClient *)

Definition MESSAGE_PREFIX_OK : string := "%% ".
Definition MESSAGE_PREFIX_ERR : string := "!! ".
Definition COMMAND_PREFIX : string := ",".

Definition CRLF : string := String (Ascii.ascii_of_nat 13) (String (Ascii.ascii_of_nat 10) "").

(** [LocalClient.tell_ok] and [tell_err]. *)
Definition tell_ok (c : LineBufferingSocketContainer) (msg : string)
    (sends : list send_outcome) :=
  write_str c (MESSAGE_PREFIX_OK +:+ msg +:+ CRLF) sends.

Definition tell_err (c : LineBufferingSocketContainer) (msg : string)
    (sends : list send_outcome) :=
  write_str c (MESSAGE_PREFIX_ERR +:+ msg +:+ CRLF) sends.

(** [TextLine.as_str] for a line of well-formed text: the text of the raw
    bytes (text is held as its UTF-8 bytes, see [encode_str]).  The
    [except UnicodeDecodeError] branch, which writes each byte that does
    not decode as [?(N)], is left out: on a line that is not well-formed
    in its encoding the code's [as_str] differs from this. *)
Definition as_str (line : TextLine) : string :=
  String.string_of_list_ascii (map (λ b, Ascii.ascii_of_N (Z.to_N b)) line).

(** A filter object: its two line transforms.  A transform returns a line,
    returns [None], or raises. *)
Record LineFilter : Type := mkLineFilter {
  from_server : TextLine → outcome (option TextLine);
  from_client : TextLine → outcome (option TextLine)
}.

(** Values read from the JSON configuration. *)
#[warnings="-register-all"]
Inductive json : Type :=
  | JNull
  | JBool (b : bool)
  | JNumber (n : Z)
  | JString (s : string)
  | JList (items : list json)
  | JDict (entries : list (string * json)).

(** A filter prototype: [filter_class(self, filter_opts)] builds a filter
    or raises. *)
Definition filter_class := list (string * json) → outcome LineFilter.

(** The check on one entry of the specification:
    [type(f) != list or len(f) != 2 or type(f[0]) != str or type(f[1]) != dict]
    fails exactly on a two-element list of a string and a dict. *)
Definition filter_entry (f : json) : option (string * list (string * json)) :=
  match f with
  | JList [JString filter_name; JDict filter_opts] =>
      Some (filter_name, filter_opts)
  | _ => None
  end.

(** The [for f in filters] loop of [add_filters]; [self_filters] is
    [self.filters], appended to in place. *)
Fixpoint add_filters_loop (self_filters : list LineFilter) (filters : list json)
    (prototypes : gmap string filter_class) : list LineFilter * outcome unit :=
  match filters with
  | [] => (self_filters, Returns tt)
  | f :: rest =>
      match filter_entry f with
      | None => (self_filters, Raises FilterSpecificationError)
      | Some (filter_name, filter_opts) =>
          match prototypes !! filter_name with
          | None => (self_filters, Raises FilterSpecificationError)
          | Some cls =>
              match cls filter_opts with
              | Raises e => (self_filters, Raises e)
              | Returns flt =>
                  add_filters_loop (self_filters ++ [flt]) rest prototypes
              end
          end
      end
  end.

Definition add_filters (self_filters : list LineFilter) (filters : json)
    (prototypes : gmap string filter_class) : list LineFilter * outcome unit :=
  match filters with
  | JList items => add_filters_loop self_filters items prototypes
  | _ => (self_filters, Raises FilterSpecificationError)
  end.

(** *** RemoteServer and the connector's entry point *)

Record RemoteServer : Type := mkRemoteServer {
  server_container : LineBufferingSocketContainer;
  server_filters : list LineFilter;
  host : string;
  port : Z;
  name : string;
  subscribers : list socket_id;
  connecting_in_thread : bool;
  use_SSL : bool
}.

Definition new_server (h : string) (p : Z) (n : string) : RemoteServer :=
  {| server_container := new_container; server_filters := [];
     host := h; port := p; name := n; subscribers := [];
     connecting_in_thread := false; use_SSL := false |}.

Definition set_connecting_in_thread (server : RemoteServer) (b : bool) :=
  {| server_container := server_container server;
     server_filters := server_filters server;
     host := host server; port := port server; name := name server;
     subscribers := subscribers server;
     connecting_in_thread := b; use_SSL := use_SSL server |}.

(** A started background thread: [do_start_connection] on the server of
    that name. *)
Inductive thread : Type :=
  | DoStartConnection (server_name : string).

(** [Proxy.start_connection]; [threads] are the threads started so far. *)
Definition start_connection (server : RemoteServer) (threads : list thread)
  : RemoteServer * list thread * bool :=
  if negb (connecting_in_thread server)
     && negb (connected (server_container server))
  then (set_connecting_in_thread server true,
        threads ++ [DoStartConnection (name server)], true)
  else (server, threads, false).

(** ** Client lines *)

(** [str.replace(old, new)] for a non-empty [old]; [skip] counts the
    characters of a match still to be passed over. *)
Fixpoint replace_from (old new : string) (skip : nat) (s : string) : string :=
  match s with
  | EmptyString => EmptyString
  | String a s' =>
      match skip with
      | S k => replace_from old new k s'
      | O =>
          if String.prefix old s
          then new +:+ replace_from old new (String.length old - 1)%nat s'
          else String a (replace_from old new O s')
      end
  end.

Definition replace (old new s : string) : string := replace_from old new O s.

Definition LF : string := String (Ascii.ascii_of_nat 10) "".

(** [line.as_str().replace('\r\n', '').replace('\n', '')] *)
Definition trimmed (line : TextLine) : string :=
  replace LF "" (replace CRLF "" (as_str line)).

(** [s[a:]] *)
Definition slice_from (a : nat) (s : string) : string :=
  String.substring a (String.length s - a)%nat s.

(** [s[a:b]] *)
Definition slice (a b : nat) (s : string) : string :=
  String.substring a (b - a)%nat s.

(** The built-in command handlers. *)
Inductive command : Type :=
  | do_client_debug
  | do_client_connect
  | do_client_join
  | do_client_drop
  | do_client_help
  | do_client_stop_everything.

(** [register_command]: the first registration of a name wins. *)
Definition register_command (cmdname : string) (cmd : command)
    (client_commands : gmap string command) : gmap string command :=
  match client_commands !! cmdname with
  | None => <[cmdname := cmd]> client_commands
  | Some _ => client_commands
  end.

(** The registrations of [Proxy.__init__]. *)
Definition initial_commands (debug : bool) : gmap string command :=
  let cc := ∅ in
  let cc := if debug
            then register_command "debug" do_client_debug
                   (register_command "eval" do_client_debug
                      (register_command "e" do_client_debug cc))
            else cc in
  let cc := register_command "J" do_client_connect cc in
  let cc := register_command "connect" do_client_connect cc in
  let cc := register_command "j" do_client_join cc in
  let cc := register_command "join" do_client_join cc in
  let cc := register_command "drop" do_client_drop cc in
  let cc := register_command "d" do_client_drop cc in
  let cc := register_command "hush" do_client_drop cc in
  let cc := register_command "h" do_client_help cc in
  let cc := register_command "help" do_client_help cc in
  let cc := register_command "die" do_client_stop_everything cc in
  register_command "D" do_client_stop_everything cc.

(** The filter loop of [handle_line_client]: [ln] is folded through
    [from_client]; an exception caught by [except Exception] leaves [ln]
    as it was; [None] ends the handler. *)
Fixpoint client_filter_loop (filters : list LineFilter) (ln : TextLine)
  : outcome (option TextLine) :=
  match filters with
  | [] => Returns (Some ln)
  | f :: rest =>
      match from_client f ln with
      | Returns None => Returns None
      | Returns (Some ln') => client_filter_loop rest ln'
      | Raises e =>
          if catches [PyException] e then client_filter_loop rest ln
          else Raises e
      end
  end.

(** The same loop in [handle_line_server], over [from_server]. *)
Fixpoint server_filter_loop (filters : list LineFilter) (ln : TextLine)
  : outcome (option TextLine) :=
  match filters with
  | [] => Returns (Some ln)
  | f :: rest =>
      match from_server f ln with
      | Returns None => Returns None
      | Returns (Some ln') => server_filter_loop rest ln'
      | Raises e =>
          if catches [PyException] e then server_filter_loop rest ln
          else Raises e
      end
  end.

(** What a line handler ends up doing with a line. *)
Inductive dispatched : Type :=
  | Suppressed
  | CallCommand (cmd : command) (args : string)
  | CommandNotFound (cmd : string)
  | HandleData (line : TextLine).

(** [handle_line_server]: the filtered line [ln] goes to [handle_data]. *)
Definition server_dispatch (filters : list LineFilter) (line : TextLine)
  : outcome dispatched :=
  match server_filter_loop filters line with
  | Raises e => Raises e
  | Returns None => Returns Suppressed
  | Returns (Some ln) => Returns (HandleData ln)
  end.

(** [handle_line_client]: after the filter loop, [s] is computed from
    [line], and [line] goes to [handle_data]. *)
Definition client_dispatch (filters : list LineFilter)
    (client_commands : gmap string command) (line : TextLine)
  : outcome dispatched :=
  match client_filter_loop filters line with
  | Raises e => Raises e
  | Returns None => Returns Suppressed
  | Returns (Some ln) =>
      let s := trimmed line in
      if String.eqb (slice 0 (String.length COMMAND_PREFIX) s) COMMAND_PREFIX
      then
        let '(cmd, args) :=
          match String.index 0 " " s with
          | Some t => (slice (String.length COMMAND_PREFIX) t s,
                       slice_from (t + 1) s)
          | None => (slice_from (String.length COMMAND_PREFIX) s, ""%string)
          end in
        match client_commands !! cmd with
        | Some c => Returns (CallCommand c args)
        | None => Returns (CommandNotFound cmd)
        end
      else Returns (HandleData line)
  end.

(** ** The session registry *)

Record LocalClient : Type := mkLocalClient {
  client_container : LineBufferingSocketContainer;
  client_filters : list LineFilter;
  subscribedTo : option string
}.

(** [LocalClient(socket)] *)
Definition new_client (s : socket_id) : LocalClient :=
  {| client_container := attach_socket new_container s;
     client_filters := []; subscribedTo := None |}.

(** The values of [socket_wrappers]. *)
Inductive wrapper : Type :=
  | ServerWrapper (server : RemoteServer)
  | ClientWrapper (client : LocalClient).

Definition container_of (w : wrapper) : LineBufferingSocketContainer :=
  match w with
  | ServerWrapper server => server_container server
  | ClientWrapper client => client_container client
  end.

Definition with_container (w : wrapper) (c : LineBufferingSocketContainer)
  : wrapper :=
  match w with
  | ServerWrapper server =>
      ServerWrapper
        {| server_container := c; server_filters := server_filters server;
           host := host server; port := port server; name := name server;
           subscribers := subscribers server;
           connecting_in_thread := connecting_in_thread server;
           use_SSL := use_SSL server |}
  | ClientWrapper client =>
      ClientWrapper
        {| client_container := c; client_filters := client_filters client;
           subscribedTo := subscribedTo client |}
  end.

(** [ss.filters], whichever kind of endpoint [ss] is. *)
Definition filters_of (w : wrapper) : list LineFilter :=
  match w with
  | ServerWrapper server => server_filters server
  | ClientWrapper client => client_filters client
  end.

(** The part of [Proxy] the run loop reads and updates.  Writes to the
    endpoints' outbound buffers and changes of subscription, made by
    [wall], [tell_err], [handle_data] and the commands, stay inside the
    endpoint objects and are left out. *)
Record Proxy : Type := mkProxy {
  socket_wrappers : gmap socket_id wrapper;
  server_sockets : list socket_id;
  unauthenticated_sockets : list socket_id;
  client_sockets : list socket_id;
  client_commands : gmap string command;
  password_verify : string → bool;
  filter_prototypes : gmap string filter_class;
  filter_clients : json
}.

(** [Proxy.__init__] *)
Definition new_proxy (debug : bool) (verify : string → bool)
    (prototypes : gmap string filter_class) (client_filters : json) : Proxy :=
  {| socket_wrappers := ∅; server_sockets := [];
     unauthenticated_sockets := []; client_sockets := [];
     client_commands := initial_commands debug;
     password_verify := verify;
     filter_prototypes := prototypes; filter_clients := client_filters |}.

Definition set_registry (p : Proxy) (wrappers : gmap socket_id wrapper)
    (servers unauthenticated clients : list socket_id) : Proxy :=
  {| socket_wrappers := wrappers; server_sockets := servers;
     unauthenticated_sockets := unauthenticated; client_sockets := clients;
     client_commands := client_commands p;
     password_verify := password_verify p;
     filter_prototypes := filter_prototypes p;
     filter_clients := filter_clients p |}.

(** [l.remove(s)] and [del l[l.index(s)]]: the first occurrence goes. *)
Fixpoint remove_first (s : socket_id) (l : list socket_id) : list socket_id :=
  match l with
  | [] => []
  | x :: rest => if bool_decide (x = s) then rest else x :: remove_first s rest
  end.

(** [while s in l: l.remove(s)]; every turn shortens [l]. *)
Fixpoint remove_while (turns : nat) (s : socket_id) (l : list socket_id)
  : list socket_id :=
  match turns with
  | O => l
  | S turns' =>
      if bool_decide (s ∈ l) then remove_while turns' s (remove_first s l)
      else l
  end.

(** The three session states, in the order of [self.states]. *)
Inductive session_state : Type :=
  | StateServer
  | StateUnauthenticated
  | StateClient.

Definition states : list session_state :=
  [StateServer; StateUnauthenticated; StateClient].

Definition members (st : session_state) (p : Proxy) : list socket_id :=
  match st with
  | StateServer => server_sockets p
  | StateUnauthenticated => unauthenticated_sockets p
  | StateClient => client_sockets p
  end.

(** [eval(args)] in [do_client_debug] hands the text a client typed to the
    Python interpreter, with [self], [args] and [client] in scope.  The
    interpreter is no part of the program: what evaluating an expression
    does to the proxy, and whether it returns or raises, is a parameter.
    [client] is the endpoint of the stream [s]. *)
Class PythonEval := {
  python_eval : string → socket_id → Proxy → Proxy * outcome unit
}.

(** An interpreter under which no expression has a side effect. *)
Definition no_side_effects : PythonEval :=
  {| python_eval := λ _ _ p, (p, Returns tt) |}.

(** An interpreter that gives the expression
    [self.unauthenticated_sockets.append(client.socket)] its meaning, for a
    [client] attached to the stream it is read from; no other expression
    is evaluated under it. *)
Definition appends_to_unauthenticated : PythonEval :=
  {| python_eval := λ args s p,
       if String.eqb args "self.unauthenticated_sockets.append(client.socket)"
       then (set_registry p (socket_wrappers p) (server_sockets p)
               (unauthenticated_sockets p ++ [s]) (client_sockets p),
             Returns tt)
       else (p, Returns tt) |}.

(** The line handlers return the registry and the handler's result as a
    truth value ([None] counts as false).  [password.verify] is taken to
    return, and the replies the handlers write ([wall], [tell_err],
    [handle_data], a command's output) go to endpoints that are attached. *)
Definition handle_line_server (p : Proxy) (s : socket_id) (line : TextLine)
  : Proxy * outcome bool :=
  if negb (bool_decide (s ∈ server_sockets p)) then (p, Raises AssertionError)
  else
    match socket_wrappers p !! s with
    | None => (p, Raises KeyError)
    | Some svr =>
        match server_dispatch (filters_of svr) line with
        | Raises e => (p, Raises e)
        | Returns _ => (p, Returns false)
        end
    end.

Definition handle_line_auth (p : Proxy) (s : socket_id) (line : TextLine)
  : Proxy * outcome bool :=
  if negb (bool_decide (s ∈ unauthenticated_sockets p))
  then (p, Raises AssertionError)
  else
    if password_verify p (trimmed line) then
      let unauthenticated :=
        remove_while (length (unauthenticated_sockets p)) s
                     (unauthenticated_sockets p) in
      (set_registry p (socket_wrappers p) (server_sockets p)
                    unauthenticated (client_sockets p ++ [s]),
       Returns true)
    else
      match socket_wrappers p !! s with
      | None => (p, Raises KeyError)
      | Some _ => (p, Returns true)
      end.

(** [do_client_debug]: what [eval] raises is reported to the client when
    it is an [Exception]; anything else goes up. *)
Definition call_do_client_debug `{PythonEval} (p : Proxy) (s : socket_id)
    (args : string) : Proxy * outcome unit :=
  match python_eval args s p with
  | (p', Returns _) => (p', Returns tt)
  | (p', Raises e) =>
      if catches [PyException] e then (p', Returns tt) else (p', Raises e)
  end.

Definition handle_line_client `{PythonEval} (p : Proxy) (s : socket_id)
    (line : TextLine) : Proxy * outcome bool :=
  if negb (bool_decide (s ∈ client_sockets p)) then (p, Raises AssertionError)
  else
    match socket_wrappers p !! s with
    | None => (p, Raises KeyError)
    | Some c =>
        match client_dispatch (filters_of c) (client_commands p) line with
        | Raises e => (p, Raises e)
        | Returns (CallCommand do_client_stop_everything _) =>
            (p, Raises KeyboardInterrupt)
        | Returns (CallCommand do_client_debug args) =>
            match call_do_client_debug p s args with
            | (p', Raises e) => (p', Raises e)
            | (p', Returns _) => (p', Returns false)
            end
        | Returns _ => (p, Returns false)
        end
    end.

Definition handler `{PythonEval} (st : session_state)
  : Proxy → socket_id → TextLine → Proxy * outcome bool :=
  match st with
  | StateServer => handle_line_server
  | StateUnauthenticated => handle_line_auth
  | StateClient => handle_line_client
  end.

(** [for state in self.states: if s in state[0]: ...; if result: break] *)
Fixpoint dispatch_line `{PythonEval} (sts : list session_state) (p : Proxy)
    (s : socket_id) (line : TextLine) : Proxy * outcome unit :=
  match sts with
  | [] => (p, Returns tt)
  | st :: rest =>
      if bool_decide (s ∈ members st p) then
        match handler st p s line with
        | (p', Raises e) => (p', Raises e)
        | (p', Returns true) => (p', Returns tt)
        | (p', Returns false) => dispatch_line rest p' s line
        end
      else dispatch_line rest p s line
  end.

(** [for line in lines: ...] *)
Fixpoint dispatch_lines `{PythonEval} (p : Proxy) (s : socket_id)
    (lines : list TextLine) : Proxy * outcome unit :=
  match lines with
  | [] => (p, Returns tt)
  | line :: rest =>
      match dispatch_line states p s line with
      | (p', Raises e) => (p', Raises e)
      | (p', Returns _) => dispatch_lines p' s rest
      end
  end.

(** The [if eof:] block: the stream leaves every state list, then the
    map. *)
Definition remove_stream (p : Proxy) (s : socket_id) : Proxy :=
  set_registry p (delete s (socket_wrappers p))
    (if bool_decide (s ∈ server_sockets p)
     then remove_first s (server_sockets p) else server_sockets p)
    (if bool_decide (s ∈ unauthenticated_sockets p)
     then remove_first s (unauthenticated_sockets p)
     else unauthenticated_sockets p)
    (if bool_decide (s ∈ client_sockets p)
     then remove_first s (client_sockets p) else client_sockets p).

(** [do_accept] once [accept()] has returned [connection]. *)
Definition do_accept (p : Proxy) (connection : socket_id)
  : Proxy * outcome unit :=
  let '(filters, r) := add_filters [] (filter_clients p) (filter_prototypes p) in
  let client :=
    {| client_container := client_container (new_client connection);
       client_filters := filters; subscribedTo := None |} in
  let p' :=
    set_registry p (<[connection := ClientWrapper client]> (socket_wrappers p))
      (server_sockets p) (unauthenticated_sockets p ++ [connection])
      (client_sockets p) in
  match r with
  | Returns _ => (p', Returns tt)
  | Raises e =>
      if catches [FilterSpecificationError] e then (p', Returns tt)
      else (p', Raises e)
  end.

(** One key of a readiness batch: the listening socket, whose [accept()]
    returns a connection or fails, or a stream with what its [recv] calls
    will do. *)
Inductive ready : Type :=
  | AcceptReady (connection : option socket_id)
  | StreamReady (s : socket_id) (recvs : list recv_outcome).

(** The body of [for key, mask in events]. *)
Definition process_ready `{PythonEval} (p : Proxy) (ev : ready)
  : Proxy * outcome unit :=
  match ev with
  | AcceptReady None => (p, Returns tt)
  | AcceptReady (Some connection) => do_accept p connection
  | StreamReady s recvs =>
      match socket_wrappers p !! s with
      | None => (p, Raises PyException)
      | Some ss =>
          match read (container_of ss) recvs with
          | (c, Raises e) =>
              (set_registry p (<[s := with_container ss c]> (socket_wrappers p))
                 (server_sockets p) (unauthenticated_sockets p)
                 (client_sockets p),
               Raises e)
          | (c, Returns (lines, eof)) =>
              let p :=
                set_registry p
                  (<[s := with_container ss c]> (socket_wrappers p))
                  (server_sockets p) (unauthenticated_sockets p)
                  (client_sockets p) in
              let p := if eof then remove_stream p s else p in
              dispatch_lines p s lines
          end
      end
  end.

(** One readiness batch, processed under the lock. *)
Fixpoint process_batch `{PythonEval} (p : Proxy) (events : list ready)
  : Proxy * outcome unit :=
  match events with
  | [] => (p, Returns tt)
  | ev :: rest =>
      match process_ready p ev with
      | (p', Raises e) => (p', Raises e)
      | (p', Returns _) => process_batch p' rest
      end
  end.

(** The locked section of [do_start_connection]: the new stream [C] is
    attached to [server] and entered in the registry. *)
Definition connector_attach (p : Proxy) (server : RemoteServer) (C : socket_id)
  : Proxy :=
  let server :=
    {| server_container := attach_socket (server_container server) C;
       server_filters := server_filters server;
       host := host server; port := port server; name := name server;
       subscribers := subscribers server;
       connecting_in_thread := connecting_in_thread server;
       use_SSL := use_SSL server |} in
  set_registry p (<[C := ServerWrapper server]> (socket_wrappers p))
    (server_sockets p ++ [C]) (unauthenticated_sockets p) (client_sockets p).

(** A stream object handed to the registry is new: [accept()] and
    [create_connection] return objects the registry does not hold. *)
Definition untracked (p : Proxy) (s : socket_id) : Prop :=
  s ∉ dom (socket_wrappers p).

Fixpoint accepts_new `{PythonEval} (p : Proxy) (events : list ready)
  : Prop :=
  match events with
  | [] => True
  | ev :: rest =>
      match ev with
      | AcceptReady (Some connection) => untracked p connection
      | _ => True
      end ∧ accepts_new (process_ready p ev).1 rest
  end.

(** What the registry goes through: a readiness batch in the run loop, or
    a connector thread attaching its stream. *)
Inductive event : Type :=
  | Batch (events : list ready)
  | Attach (server : RemoteServer) (C : socket_id).

Definition apply_event `{PythonEval} (p : Proxy) (ev : event) : Proxy :=
  match ev with
  | Batch events => (process_batch p events).1
  | Attach server C => connector_attach p server C
  end.

Definition admissible `{PythonEval} (p : Proxy) (ev : event) : Prop :=
  match ev with
  | Batch events => accepts_new p events
  | Attach _ C => untracked p C
  end.

Inductive steps `{PythonEval} : Proxy → list event → Proxy → Prop :=
  | steps_nil p : steps p [] p
  | steps_cons p ev evs p' :
      admissible p ev → steps (apply_event p ev) evs p' →
      steps p (ev :: evs) p'.

(** The streams listed in the three state lists. *)
Definition tracked_streams (p : Proxy) : list socket_id :=
  server_sockets p ++ unauthenticated_sockets p ++ client_sockets p.

(** The registry's invariant: the keys of [socket_wrappers] are the
    streams of the three lists, and no stream is listed twice. *)
Definition tracked_once (p : Proxy) : Prop :=
  (∀ s, s ∈ dom (socket_wrappers p) ↔ s ∈ tracked_streams p)
  ∧ NoDup (tracked_streams p).

(** Membership in exactly one of the three lists. *)
Definition in_exactly_one (p : Proxy) (s : socket_id) : Prop :=
  ((s ∈ server_sockets p) ∧ (s ∉ unauthenticated_sockets p)
   ∧ (s ∉ client_sockets p))
  ∨ ((s ∉ server_sockets p) ∧ (s ∈ unauthenticated_sockets p)
     ∧ (s ∉ client_sockets p))
  ∨ ((s ∉ server_sockets p) ∧ (s ∉ unauthenticated_sockets p)
     ∧ (s ∈ client_sockets p)).

(** A stream closes in a batch when its [read] there reports end of
    stream. *)
Definition closes_in (s : socket_id) (p : Proxy) (ev : ready) : Prop :=
  match ev with
  | StreamReady s' recvs =>
      s' = s ∧
      ∃ ss c lines, socket_wrappers p !! s = Some ss ∧
                    read (container_of ss) recvs = (c, Returns (lines, true))
  | AcceptReady _ => False
  end.

(** The batch reaches a key that closes [s]; keys after an exception are
    not reached. *)
Fixpoint batch_closes `{PythonEval} (s : socket_id) (p : Proxy)
    (events : list ready) : Prop :=
  match events with
  | [] => False
  | ev :: rest =>
      closes_in s p ev ∨
      match process_ready p ev with
      | (p', Returns _) => batch_closes s p' rest
      | (_, Raises _) => False
      end
  end.

Fixpoint closed_along `{PythonEval} (s : socket_id) (p : Proxy)
    (evs : list event) : Prop :=
  match evs with
  | [] => False
  | ev :: rest =>
      match ev with
      | Batch events => batch_closes s p events
      | Attach _ _ => False
      end ∨ closed_along s (apply_event p ev) rest
  end.

(** ** Outbound calls *)

(** [wire] stops at a line boundary: nothing was sent, or the last byte
    sent is the separator. *)
Definition ends_at_separator (linesep : Z) (wire : bytes) : bool :=
  match last wire with
  | None => true
  | Some b => b =? linesep
  end.

(** The bytes after the last separator of [buf]. *)
Fixpoint unterminated_tail (linesep : Z) (buf : bytes) : bytes :=
  match buf with
  | [] => []
  | b :: rest =>
      if contains linesep rest then unterminated_tail linesep rest
      else if b =? linesep then rest
      else b :: rest
  end.

(** A call on the outbound side of a connection, with what the transport
    does during it. *)
Inductive outbound_call : Type :=
  | WriteCall (data : bytes) (sends : list send_outcome)
  | FlushCall (sends : list send_outcome).

Definition written (call : outbound_call) : bytes :=
  match call with
  | WriteCall data _ => data
  | FlushCall _ => []
  end.

Definition sends_of (call : outbound_call) : list send_outcome :=
  match call with
  | WriteCall _ sends => sends
  | FlushCall sends => sends
  end.

Definition run_call (c : LineBufferingSocketContainer) (call : outbound_call)
  : LineBufferingSocketContainer * bytes * outcome unit :=
  match call with
  | WriteCall data sends => write c data sends
  | FlushCall sends => flush c sends
  end.

(** A sequence of calls: the connection after them and all the bytes put
    on the wire. *)
Fixpoint run_calls (c : LineBufferingSocketContainer)
    (calls : list outbound_call) (wire : bytes)
  : LineBufferingSocketContainer * bytes :=
  match calls with
  | [] => (c, wire)
  | call :: rest =>
      let '(c', sent, _) := run_call c call in
      run_calls c' rest (wire ++ sent)
  end.

(** The transport never takes part of what it is offered: every [send]
    that accepts has room for [bound] bytes. *)
Definition takes_whole (bound : nat) (sends : list send_outcome) : Prop :=
  Forall (λ o, match o with
               | SendAccepts room => (bound ≤ room)%nat
               | SendRaises _ => True
               end) sends.

(** One entry of a filter specification, as the loop of [add_filters]
    treats it. *)
Definition build_entry (prototypes : gmap string filter_class) (f : json)
  : outcome LineFilter :=
  match filter_entry f with
  | None => Raises FilterSpecificationError
  | Some (filter_name, filter_opts) =>
      match prototypes !! filter_name with
      | None => Raises FilterSpecificationError
      | Some cls => cls filter_opts
      end
  end.

(** ** Further definitions for the properties below *)

(** Successive [read] calls, each of which receives one chunk: the
    connection after them and all the lines they returned. *)
Fixpoint read_chunks (c : LineBufferingSocketContainer) (chunks : list bytes)
  : LineBufferingSocketContainer * list TextLine :=
  match chunks with
  | [] => (c, [])
  | data :: rest =>
      match read c [RecvReturns data] with
      | (c', Returns (lines, _)) =>
          let '(c'', more) := read_chunks c' rest in (c'', lines ++ more)
      | (c', Raises _) => (c', [])
      end
  end.

(** The number of separators in [buf]. *)
Fixpoint separators (linesep : Z) (buf : bytes) : nat :=
  match buf with
  | [] => O
  | b :: rest =>
      if b =? linesep then S (separators linesep rest)
      else separators linesep rest
  end.

(** Every [send] of the transport accepts. *)
Definition always_accepts (sends : list send_outcome) : Prop :=
  Forall (λ o, match o with
               | SendAccepts _ => True
               | SendRaises _ => False
               end) sends.

(** The exceptions the transport raises are all [OSError]s. *)
Definition send_raises_oserror (sends : list send_outcome) : Prop :=
  Forall (λ o, match o with
               | SendAccepts _ => True
               | SendRaises e => issubclass e OSError = true
               end) sends.

Definition recv_raises_oserror (recvs : list recv_outcome) : Prop :=
  Forall (λ o, match o with
               | RecvReturns _ => True
               | RecvRaises e => issubclass e OSError = true
               end) recvs.

#[global] Instance command_eq_dec : EqDecision command.
Proof. solve_decision. Defined.

(** [Proxy.register_filter]: like [register_command], the first
    registration of a name wins. *)
Definition register_filter (filter_name : string) (impl : filter_class)
    (filter_prototypes : gmap string filter_class)
  : gmap string filter_class :=
  match filter_prototypes !! filter_name with
  | None => <[filter_name := impl]> filter_prototypes
  | Some _ => filter_prototypes
  end.

(** [a in s], for a character [a]. *)
Fixpoint has_char (a : Ascii.ascii) (s : string) : bool :=
  match s with
  | EmptyString => false
  | String b s' => Ascii.eqb a b || has_char a s'
  end.

Definition CR_char : Ascii.ascii := Ascii.ascii_of_nat 13.
Definition LF_char : Ascii.ascii := Ascii.ascii_of_nat 10.
Definition SPACE_char : Ascii.ascii := Ascii.ascii_of_nat 32.

(** No command name is bound to [do_client_debug]; [__init__] registers
    it under three names when the [debug] setting is on. *)
Definition debug_disabled (p : Proxy) : Prop :=
  ∀ cmdname, client_commands p !! cmdname ≠ Some do_client_debug.

(** Every tracked stream is wrapped by an endpoint attached to that very
    stream, a server endpoint for the streams of the server list and a
    client endpoint for those of the two client lists. *)
Definition well_wrapped (p : Proxy) : Prop :=
  ∀ s w, socket_wrappers p !! s = Some w →
    connected (container_of w) = true
    ∧ socket (container_of w) = Some s
    ∧ match w with
      | ServerWrapper _ => s ∈ server_sockets p
      | ClientWrapper _ =>
          s ∈ unauthenticated_sockets p ∨ s ∈ client_sockets p
      end.

(** ** Subscriptions *)

Definition set_subscribers (server : RemoteServer) (subs : list socket_id)
  : RemoteServer :=
  {| server_container := server_container server;
     server_filters := server_filters server;
     host := host server; port := port server; name := name server;
     subscribers := subs;
     connecting_in_thread := connecting_in_thread server;
     use_SSL := use_SSL server |}.

Definition set_server_container (server : RemoteServer)
    (c : LineBufferingSocketContainer) : RemoteServer :=
  {| server_container := c;
     server_filters := server_filters server;
     host := host server; port := port server; name := name server;
     subscribers := subscribers server;
     connecting_in_thread := connecting_in_thread server;
     use_SSL := use_SSL server |}.

Definition set_subscribedTo (client : LocalClient) (target : option string)
  : LocalClient :=
  {| client_container := client_container client;
     client_filters := client_filters client;
     subscribedTo := target |}.

Definition set_client_container (client : LocalClient)
    (c : LineBufferingSocketContainer) : LocalClient :=
  {| client_container := c;
     client_filters := client_filters client;
     subscribedTo := subscribedTo client |}.

(** [RemoteServer.subscribe]: a client is referred to by the stream it was
    made for. *)
Definition RemoteServer_subscribe (server : RemoteServer)
    (supplicant : socket_id) : RemoteServer :=
  if bool_decide (supplicant ∈ subscribers server) then server
  else set_subscribers server (subscribers server ++ [supplicant]).

(** [RemoteServer.unsubscribe] *)
Definition RemoteServer_unsubscribe (server : RemoteServer)
    (supplicant : socket_id) : RemoteServer :=
  set_subscribers server
    (remove_while (length (subscribers server)) supplicant
                  (subscribers server)).

(** The endpoint objects: the servers by display name ([Proxy.servers]) and
    the client objects by the stream each was made for.  A reference held
    by an object ([subscribedTo], an entry of [subscribers]) always names
    an object; a lookup that finds none stands for a reference the code
    cannot hold, and is answered with [KeyError]. *)
Record World : Type := mkWorld {
  servers : gmap string RemoteServer;
  client_objects : gmap socket_id LocalClient
}.

Definition put_server (w : World) (n : string) (server : RemoteServer)
  : World :=
  {| servers := <[n := server]> (servers w);
     client_objects := client_objects w |}.

Definition put_client (w : World) (cid : socket_id) (client : LocalClient)
  : World :=
  {| servers := servers w;
     client_objects := <[cid := client]> (client_objects w) |}.

(** A reply written to the client [cid]: [tell_ok] or [tell_err] on its
    container.  Returns the bytes put on the wire as well. *)
Definition client_tell (tell : LineBufferingSocketContainer → string →
                               list send_outcome →
                               LineBufferingSocketContainer * bytes
                               * outcome unit)
    (w : World) (cid : socket_id) (msg : string) (sends : list send_outcome)
  : World * bytes * outcome unit :=
  match client_objects w !! cid with
  | None => (w, [], Raises KeyError)
  | Some client =>
      let '(c, sent, r) := tell (client_container client) msg sends in
      (put_client w cid (set_client_container client c), sent, r)
  end.

(** [LocalClient.unsubscribe] *)
Definition LocalClient_unsubscribe (w : World) (cid : socket_id)
  : World * outcome unit :=
  match client_objects w !! cid with
  | None => (w, Raises KeyError)
  | Some client =>
      match subscribedTo client with
      | None => (w, Raises ValueError)
      | Some target =>
          match servers w !! target with
          | None => (w, Raises KeyError)
          | Some server =>
              let w := put_server w target
                         (RemoteServer_unsubscribe server cid) in
              (put_client w cid (set_subscribedTo client None), Returns tt)
          end
      end
  end.

(** [LocalClient.subscribe] *)
Definition LocalClient_subscribe (w : World) (cid : socket_id)
    (other : string) : World :=
  match client_objects w !! cid with
  | None => w
  | Some client => put_client w cid (set_subscribedTo client (Some other))
  end.

(** [Proxy.do_client_join] *)
Definition do_client_join_world (w : World) (args : string) (cid : socket_id)
    (sends : list send_outcome) : World * bytes * outcome bool :=
  match servers w !! args with
  | Some _ =>
      let unsubscribed :=
        match client_objects w !! cid with
        | None => (w, Raises KeyError)
        | Some client =>
            match subscribedTo client with
            | Some _ => LocalClient_unsubscribe w cid
            | None => (w, Returns tt)
            end
        end in
      match unsubscribed with
      | (w, Raises e) => (w, [], Raises e)
      | (w, Returns _) =>
          match servers w !! args with
          | None => (w, [], Raises KeyError)
          | Some server =>
              let w := put_server w args (RemoteServer_subscribe server cid) in
              let w := LocalClient_subscribe w cid args in
              match client_tell tell_ok w cid
                      ("Subscribed to server `" +:+ args +:+ "'.") sends with
              | (w, sent, Raises e) => (w, sent, Raises e)
              | (w, sent, Returns _) => (w, sent, Returns true)
              end
          end
      end
  | None =>
      match client_tell tell_err w cid
              ("No such server `" +:+ args +:+ "'.") sends with
      | (w, sent, Raises e) => (w, sent, Raises e)
      | (w, sent, Returns _) => (w, sent, Returns false)
      end
  end.

(** [Proxy.do_client_drop]: [unsubscribe] and [tell_ok] are both inside the
    [try]; [sends] is what the transport does during [tell_ok] and
    [sends_handler] what it does during the handler's [tell_err]. *)
Definition do_client_drop_world (w : World) (cid : socket_id)
    (sends sends_handler : list send_outcome) : World * bytes * outcome unit :=
  let tried :=
    match LocalClient_unsubscribe w cid with
    | (w, Returns _) => client_tell tell_ok w cid "Stopped listening." sends
    | (w, Raises e) => (w, [], Raises e)
    end in
  match tried with
  | (w, sent, Returns _) => (w, sent, Returns tt)
  | (w, sent, Raises e) =>
      if catches [ValueError] e
      then
        let '(w, sent_handler, r) :=
          client_tell tell_err w cid
            "Couldn't stop listening to this; it may be silent already."
            sends_handler in
        (w, sent ++ sent_handler, r)
      else (w, sent, Raises e)
  end.

(** [LocalClient.handle_disconnect]; [hooks] is what the loop over the
    filters' [client_connect] hooks does at the end. *)
Definition LocalClient_handle_disconnect (w : World) (cid : socket_id)
    (hooks : outcome unit) : World * outcome unit :=
  match client_objects w !! cid with
  | None => (w, Raises KeyError)
  | Some client =>
      let client :=
        set_client_container client
          (handle_disconnect (client_container client)) in
      let w := put_client w cid client in
      match subscribedTo client with
      | None => (w, hooks)
      | Some target =>
          match servers w !! target with
          | None => (w, Raises KeyError)
          | Some server =>
              (put_server w target (RemoteServer_unsubscribe server cid),
               hooks)
          end
      end
  end.

(** The loop of [RemoteServer.handle_data]: [write_line] on every
    subscriber in turn; [sends_for] says what each subscriber's transport
    does.  Returns what went on each subscriber's wire. *)
Fixpoint write_to_subscribers (w : World) (subs : list socket_id)
    (data : TextLine) (sends_for : socket_id → list send_outcome)
  : World * list (socket_id * bytes) * outcome unit :=
  match subs with
  | [] => (w, [], Returns tt)
  | sub :: rest =>
      match client_objects w !! sub with
      | None => (w, [], Raises KeyError)
      | Some client =>
          let '(c, sent, r) :=
            write_line (client_container client) data (sends_for sub) in
          let w := put_client w sub (set_client_container client c) in
          match r with
          | Raises e => (w, [(sub, sent)], Raises e)
          | Returns _ =>
              let '(w, wires, r) :=
                write_to_subscribers w rest data sends_for in
              (w, (sub, sent) :: wires, r)
          end
      end
  end.

(** [RemoteServer.handle_data] on the server named [n]. *)
Definition RemoteServer_handle_data (w : World) (n : string) (data : TextLine)
    (sends_for : socket_id → list send_outcome)
  : World * list (socket_id * bytes) * outcome unit :=
  match servers w !! n with
  | None => (w, [], Raises KeyError)
  | Some server => write_to_subscribers w (subscribers server) data sends_for
  end.

(** [LocalClient.handle_data] *)
Definition LocalClient_handle_data (w : World) (cid : socket_id)
    (data : TextLine) (sends : list send_outcome)
  : World * bytes * outcome unit :=
  match client_objects w !! cid with
  | None => (w, [], Raises KeyError)
  | Some client =>
      match subscribedTo client with
      | None => client_tell tell_err w cid "Not subscribedTo anything." sends
      | Some target =>
          match servers w !! target with
          | None => (w, [], Raises KeyError)
          | Some server =>
              if connected (server_container server) then
                let '(c, sent, r) :=
                  write_line (server_container server) data sends in
                (put_server w target (set_server_container server c), sent, r)
              else
                client_tell tell_err w cid "Remote server not connected." sends
          end
      end
  end.

(** The subscriptions are consistent: the subscribers of a server are
    attached clients, each listed once, that are subscribed to it, and an
    attached client subscribed to a server is among its subscribers. *)
Definition subscriptions_consistent (w : World) : Prop :=
  (∀ n server, servers w !! n = Some server →
     NoDup (subscribers server)
     ∧ ∀ cid, cid ∈ subscribers server →
         ∃ client, client_objects w !! cid = Some client
                   ∧ subscribedTo client = Some n
                   ∧ connected (client_container client) = true
                   ∧ socket (client_container client) ≠ None)
  ∧ (∀ cid client n, client_objects w !! cid = Some client →
       subscribedTo client = Some n →
       connected (client_container client) = true →
       ∃ server, servers w !! n = Some server ∧ cid ∈ subscribers server).

(** * Properties *)

(** ** The telnet stripper *)

Lemma strip_loop_acc buf in_command stripped :
  strip_loop buf in_command stripped =
  (stripped ++ (strip_loop buf in_command []).1,
   (strip_loop buf in_command []).2).
Proof.
  revert in_command stripped.
  induction buf as [|b rest IH]; intros in_command stripped; simpl.
  - by rewrite app_nil_r.
  - destruct in_command.
    + destruct (b =? IAC).
      * rewrite (IH false (stripped ++ [IAC])), (IH false [IAC]).
        simpl. by rewrite <- app_assoc.
      * destruct ((b <=? DONT) && (b >=? WILL)); apply IH.
    + destruct (b =? IAC); [apply IH|].
      rewrite (IH false (stripped ++ [b])), (IH false [b]).
      simpl. by rewrite <- app_assoc.
Qed.

Lemma strip_loop_app pre post in_command stripped :
  strip_loop (pre ++ post) in_command stripped =
  strip_loop post (strip_loop pre in_command stripped).2
             (strip_loop pre in_command stripped).1.
Proof.
  revert in_command stripped.
  induction pre as [|b rest IH]; intros in_command stripped; simpl; [done|].
  destruct in_command.
  - destruct (b =? IAC); [apply IH|].
    destruct ((b <=? DONT) && (b >=? WILL)); apply IH.
  - destruct (b =? IAC); apply IH.
Qed.

(** A byte sequence with no [IAC] passes through unchanged. *)
Lemma strip_loop_plain buf stripped :
  Forall (λ b, b ≠ IAC) buf →
  strip_loop buf false stripped = (stripped ++ buf, false).
Proof.
  revert stripped. induction buf as [|b rest IH]; intros stripped Hbuf; simpl.
  - by rewrite app_nil_r.
  - inversion Hbuf as [|? ? Hb Hrest]; subst.
    destruct (Z.eqb_spec b IAC) as [->|_]; [done|].
    rewrite IH by done. by rewrite <- app_assoc.
Qed.

(** The option byte of a negotiation, read in command mode right after
    WILL, WONT, DO or DONT. *)
Lemma strip_option_byte W O rest stripped :
  WILL <= W <= DONT → ¬ (WILL <= O <= IAC) →
  strip_loop (IAC :: W :: O :: rest) false stripped =
  strip_loop rest false stripped.
Proof.
  unfold WILL, DONT, IAC. intros HW HO. simpl.
  unfold IAC, DONT, WILL.
  destruct (Z.eqb_spec W 255) as [?|_]; [lia|].
  replace ((W <=? 254) && (W >=? 251)) with true
    by (symmetry; apply andb_true_iff; lia).
  destruct (Z.eqb_spec O 255) as [?|_]; [lia|].
  replace ((O <=? 254) && (O >=? 251)) with false; [done|].
  symmetry. apply andb_false_iff. lia.
Qed.

(** C1, as the code has it.  For a negotiation [IAC, W, O] with [W] in
    251..254 that starts outside command mode: when [O] is not 255 the
    three bytes add nothing to the stripped output, and when [O] is below
    251 the bytes before and after are stripped as if the sequence were
    not there. *)
Theorem negotiation_stripped (pre post : bytes) (W O : Z) :
  (telnet_strip pre).2 = false →
  WILL <= W <= DONT →
  (O ≠ IAC →
   (telnet_strip (pre ++ [IAC; W; O])).1 = (telnet_strip pre).1)
  ∧ (¬ (WILL <= O <= IAC) →
     telnet_strip (pre ++ [IAC; W; O] ++ post) =
     ((telnet_strip pre).1 ++ (telnet_strip post).1, (telnet_strip post).2)).
Proof.
  unfold telnet_strip. intros Hpre HW. split.
  - intros HO. rewrite strip_loop_app, Hpre.
    unfold WILL, DONT, IAC in *. simpl. unfold IAC, DONT, WILL.
    destruct (Z.eqb_spec W 255) as [?|_]; [lia|].
    replace ((W <=? 254) && (W >=? 251)) with true
      by (symmetry; apply andb_true_iff; lia).
    destruct (Z.eqb_spec O 255) as [?|_]; [done|].
    by destruct ((O <=? 254) && (O >=? 251)).
  - intros HO. rewrite strip_loop_app, Hpre.
    change ([IAC; W; O] ++ post) with (IAC :: W :: O :: post).
    rewrite strip_option_byte by done.
    apply strip_loop_acc.
Qed.

Lemma negotiation_stripped_witness :
  (telnet_strip [104; 105]).2 = false ∧ WILL <= DO <= DONT ∧ 1 ≠ IAC
  ∧ ¬ (WILL <= 1 <= IAC)
  ∧ (telnet_strip ([104; 105] ++ [IAC; DO; 1])).1 = (telnet_strip [104; 105]).1
  ∧ telnet_strip ([104; 105] ++ [IAC; DO; 1] ++ [10]) =
    ((telnet_strip [104; 105]).1 ++ (telnet_strip [10]).1,
     (telnet_strip [10]).2).
Proof.
  assert (H1 : (telnet_strip [104; 105]).2 = false) by reflexivity.
  assert (H2 : WILL <= DO <= DONT) by (unfold WILL, DO, DONT; lia).
  assert (H3 : 1 ≠ IAC) by (unfold IAC; lia).
  assert (H4 : ¬ (WILL <= 1 <= IAC)) by (unfold WILL, IAC; lia).
  destruct (negotiation_stripped [104; 105] [10] DO 1 H1 H2) as [Ha Hb].
  exact (conj H1 (conj H2 (conj H3 (conj H4 (conj (Ha H3) (Hb H4)))))).
Defined.

(** C1 as stated fails: with option byte 255 the stripper emits a literal
    255, and with an option byte in 251..254 it stays in command mode and
    swallows the byte after the sequence. *)
Lemma negotiation_option_byte_not_any :
  is_byte 255 ∧ is_byte DO ∧ WILL <= WILL <= DONT
  ∧ (telnet_strip ([] ++ [IAC; WILL; 255] ++ [])).1 ≠
    (telnet_strip []).1 ++ (telnet_strip []).1
  ∧ (telnet_strip ([] ++ [IAC; WILL; DO] ++ [65])).1 ≠
    (telnet_strip []).1 ++ (telnet_strip [65]).1.
Proof.
  unfold is_byte, WILL, DO, DONT. repeat split; try lia; by vm_compute.
Qed.

(** ** Outbound flush *)

Lemma flush_loop_unfold sep sends buf wire :
  flush_loop sep sends buf wire =
  if negb (0 <? Z.of_nat (length buf)) || negb (contains sep buf)
  then (buf, wire, Returns tt)
  else
    match index sep buf with
    | None => (buf, wire, Returns tt)
    | Some t =>
        match sends with
        | [] => (buf, wire, Returns tt)
        | SendAccepts room :: sends' =>
            let offered := take (t + 1)%nat buf in
            let n_bytes := Nat.min room (length offered) in
            flush_loop sep sends' (drop n_bytes buf)
                       (wire ++ take n_bytes offered)
        | SendRaises e :: _ =>
            match first_handler flush_handlers e with
            | Some _ => (buf, wire, Returns tt)
            | None => (buf, wire, Raises e)
            end
        end
    end.
Proof. by destruct sends. Qed.

Lemma index_Some sep buf t :
  index sep buf = Some t → buf !! t = Some sep ∧ (t < length buf)%nat.
Proof.
  revert t. induction buf as [|b rest IH]; intros t; simpl; [done|].
  destruct (Z.eqb_spec b sep) as [->|Hne].
  - intros [= <-]. split; [done|lia].
  - destruct (index sep rest) as [t'|]; [|done].
    intros [= <-]. destruct (IH t' eq_refl). split; [done|lia].
Qed.

Lemma index_contains sep buf t : index sep buf = Some t → contains sep buf = true.
Proof.
  revert t. induction buf as [|b rest IH]; intros t; simpl; [done|].
  destruct (Z.eqb_spec b sep) as [->|Hne].
  - intros _. by rewrite Z.eqb_refl.
  - destruct (index sep rest) as [t'|]; [|done].
    intros _. rewrite (IH t' eq_refl). apply orb_true_r.
Qed.

Lemma flush_loop_conserves sep sends buf wire :
  (flush_loop sep sends buf wire).1.2 ++ (flush_loop sep sends buf wire).1.1
  = wire ++ buf.
Proof.
  revert buf wire. induction sends as [|o sends IH]; intros buf wire;
    rewrite flush_loop_unfold.
  - destruct (_ || _); [done|]. by destruct (index sep buf).
  - destruct (_ || _); [done|]. destruct (index sep buf) as [t|]; [|done].
    destruct o as [room|e].
    + cbv zeta. rewrite IH, <- app_assoc. f_equal.
      set (n := (room `min` length (take (t + 1) buf))%nat).
      rewrite take_take.
      replace (n `min` (t + 1))%nat with n
        by (subst n; rewrite length_take; lia).
      apply take_drop.
    + by destruct (first_handler flush_handlers e).
Qed.

Lemma last_take_index sep buf t :
  index sep buf = Some t → last (take (t + 1) buf) = Some sep.
Proof.
  intros Hi. destruct (index_Some _ _ _ Hi) as [Hl Hlt].
  replace (t + 1)%nat with (S t) by lia.
  rewrite (take_S_r _ _ _ Hl). apply last_snoc.
Qed.

Lemma ends_at_separator_app sep wire sent :
  last sent = Some sep → ends_at_separator sep (wire ++ sent) = true.
Proof.
  unfold ends_at_separator. intros Hs.
  destruct sent as [|x sent] using rev_ind; [done|].
  rewrite app_assoc, last_snoc. rewrite last_snoc in Hs.
  injection Hs as ->. apply Z.eqb_refl.
Qed.

Lemma takes_whole_cons bound o sends :
  takes_whole bound (o :: sends) →
  match o with SendAccepts room => (bound ≤ room)%nat | SendRaises _ => True end
  ∧ takes_whole bound sends.
Proof. unfold takes_whole. intros H. by inversion H. Qed.

Lemma flush_loop_whole sep sends buf wire bound :
  ends_at_separator sep wire = true →
  (length buf ≤ bound)%nat → takes_whole bound sends →
  ends_at_separator sep (flush_loop sep sends buf wire).1.2 = true.
Proof.
  revert buf wire. induction sends as [|o sends IH]; intros buf wire Hw Hb Hs;
    rewrite flush_loop_unfold.
  - destruct (_ || _); [done|]. by destruct (index sep buf).
  - destruct (_ || _); [done|].
    destruct (index sep buf) as [t|] eqn:Hi; [|done].
    apply takes_whole_cons in Hs as [Ho Hs].
    destruct o as [room|e].
    + cbv zeta. destruct (index_Some _ _ _ Hi) as [_ Hlt].
      apply IH; [|rewrite length_drop; lia|done].
      replace (room `min` length (take (t + 1) buf))%nat with (t + 1)%nat
        by (rewrite length_take; lia).
      rewrite take_take, Nat.min_id.
      apply ends_at_separator_app. by apply last_take_index.
    + by destruct (first_handler flush_handlers e).
Qed.

Lemma tail_no_separator sep buf :
  contains sep buf = false → unterminated_tail sep buf = buf.
Proof.
  induction buf as [|b rest IH]; simpl; [done|].
  intros H. apply orb_false_iff in H as [Hb Hrest].
  rewrite Hrest. rewrite Z.eqb_sym in Hb. by rewrite Hb.
Qed.

Lemma tail_drop sep buf t n :
  index sep buf = Some t → (n ≤ t + 1)%nat →
  unterminated_tail sep (drop n buf) = unterminated_tail sep buf.
Proof.
  revert t n. induction buf as [|b rest IH]; intros t n; simpl; [done|].
  destruct n as [|n]; [done|]. simpl.
  destruct (Z.eqb_spec b sep) as [->|Hne].
  - intros [= <-] Hn. replace n with O by lia. rewrite drop_0.
    destruct (contains sep rest) eqn:Hc; [done|]. by apply tail_no_separator.
  - destruct (index sep rest) as [t'|] eqn:Hi; [|done].
    intros [= <-] Hn. rewrite (index_contains _ _ _ Hi).
    apply (IH t'); [done|lia].
Qed.

Lemma flush_loop_tail sep sends buf wire :
  unterminated_tail sep (flush_loop sep sends buf wire).1.1
  = unterminated_tail sep buf.
Proof.
  revert buf wire. induction sends as [|o sends IH]; intros buf wire;
    rewrite flush_loop_unfold.
  - destruct (_ || _); [done|]. by destruct (index sep buf).
  - destruct (_ || _); [done|].
    destruct (index sep buf) as [t|] eqn:Hi; [|done].
    destruct o as [room|e].
    + cbv zeta. rewrite IH. apply (tail_drop _ _ t); [done|].
      rewrite length_take. lia.
    + by destruct (first_handler flush_handlers e).
Qed.

Lemma tail_suffix sep buf : unterminated_tail sep buf `suffix_of` buf.
Proof.
  induction buf as [|b rest IH]; simpl; [done|].
  destruct (contains sep rest).
  - by apply suffix_cons_r.
  - destruct (b =? sep); [apply suffix_cons_r; reflexivity|reflexivity].
Qed.

Lemma contains_app sep x y :
  contains sep (x ++ y) = contains sep x || contains sep y.
Proof. apply existsb_app. Qed.

Lemma tail_app sep x y :
  unterminated_tail sep (x ++ y) =
  if contains sep y then unterminated_tail sep y
  else unterminated_tail sep x ++ y.
Proof.
  induction x as [|b rest IH]; simpl.
  - destruct (contains sep y) eqn:Hc; [done|]. by apply tail_no_separator.
  - rewrite contains_app. destruct (contains sep y) eqn:Hy.
    + by rewrite orb_true_r.
    + rewrite orb_false_r. destruct (contains sep rest); [done|].
      by destruct (b =? sep).
Qed.

Lemma ends_at_separator_both sep wire sent :
  ends_at_separator sep wire = true → ends_at_separator sep sent = true →
  ends_at_separator sep (wire ++ sent) = true.
Proof.
  unfold ends_at_separator. intros Hw Hs.
  destruct sent as [|x sent _] using rev_ind.
  - by rewrite app_nil_r.
  - rewrite app_assoc, last_snoc. by rewrite last_snoc in Hs.
Qed.

(** What one call leaves behind, whatever the transport does and whether
    or not the assertions of [flush] hold. *)
Lemma run_call_spec c call :
  linesep (run_call c call).1.1 = linesep c
  ∧ (run_call c call).1.2 ++ b_send_buffer (run_call c call).1.1
    = b_send_buffer c ++ written call
  ∧ unterminated_tail (linesep c) (b_send_buffer (run_call c call).1.1)
    = unterminated_tail (linesep c) (b_send_buffer c ++ written call)
  ∧ ∀ bound, (length (b_send_buffer c ++ written call) ≤ bound)%nat →
             takes_whole bound (sends_of call) →
             ends_at_separator (linesep c) (run_call c call).1.2 = true.
Proof.
  assert (Hflush : ∀ c0 sends,
    linesep (flush c0 sends).1.1 = linesep c0
    ∧ (flush c0 sends).1.2 ++ b_send_buffer (flush c0 sends).1.1
      = b_send_buffer c0
    ∧ unterminated_tail (linesep c0) (b_send_buffer (flush c0 sends).1.1)
      = unterminated_tail (linesep c0) (b_send_buffer c0)
    ∧ ∀ bound, (length (b_send_buffer c0) ≤ bound)%nat →
               takes_whole bound sends →
               ends_at_separator (linesep c0) (flush c0 sends).1.2 = true).
  { intros c0 sends. unfold flush.
    destruct (negb (bool_decide (socket c0 ≠ None))); [done|].
    destruct (negb (connected c0)); [done|].
    pose proof (flush_loop_conserves (linesep c0) sends (b_send_buffer c0) [])
      as Hc.
    pose proof (flush_loop_tail (linesep c0) sends (b_send_buffer c0) [])
      as Ht.
    pose proof (λ bound, flush_loop_whole (linesep c0) sends (b_send_buffer c0)
                           [] bound eq_refl) as Hw.
    destruct (flush_loop (linesep c0) sends (b_send_buffer c0) [])
      as [[buf wire] r].
    simpl in *. done. }
  destruct call as [data sends|sends]; simpl.
  - unfold write. specialize (Hflush (set_send_buffer c (b_send_buffer c ++ data)) sends).
    simpl in Hflush. done.
  - rewrite app_nil_r. apply Hflush.
Qed.

Lemma run_calls_spec c calls wire :
  linesep (run_calls c calls wire).1 = linesep c
  ∧ (run_calls c calls wire).2 ++ b_send_buffer (run_calls c calls wire).1
    = wire ++ b_send_buffer c ++ concat (map written calls)
  ∧ unterminated_tail (linesep c) (b_send_buffer (run_calls c calls wire).1)
    = unterminated_tail (linesep c)
        (b_send_buffer c ++ concat (map written calls))
  ∧ ∀ bound, ends_at_separator (linesep c) wire = true →
      (length (b_send_buffer c ++ concat (map written calls)) ≤ bound)%nat →
      Forall (λ call, takes_whole bound (sends_of call)) calls →
      ends_at_separator (linesep c) (run_calls c calls wire).2 = true.
Proof.
  revert c wire. induction calls as [|call calls IH]; intros c wire; simpl.
  - rewrite app_nil_r. done.
  - destruct (run_call_spec c call) as (Hsep & Hcons & Htail & Hwhole).
    destruct (run_call c call) as [[c' sent] r]. simpl in *.
    destruct (IH c' (wire ++ sent)) as (Hsep' & Hcons' & Htail' & Hwhole').
    rewrite Hsep in *. split; [done|]. split; [|split].
    + rewrite Hcons', <- !app_assoc. f_equal.
      by rewrite (app_assoc sent), Hcons, <- app_assoc.
    + rewrite Htail', (app_assoc (b_send_buffer c)).
      rewrite !(tail_app _ _ (concat _)). by rewrite Htail.
    + intros bound Hw Hlen Hall. inversion Hall as [|? ? Hcall Hcalls]; subst.
      pose proof (f_equal length Hcons) as Hlen'.
      rewrite !length_app in Hlen, Hlen'.
      apply (Hwhole' bound); [|rewrite length_app; lia|done].
      apply ends_at_separator_both; [done|].
      apply (Hwhole bound); [|done]. rewrite length_app. lia.
Qed.

(** C2, as the code has it.  Over any sequence of writes and flushes and
    any transport: the bytes on the wire followed by the bytes still
    buffered are the bytes queued, in order, and the bytes after the last
    separator queued are never sent.  When every [send] that accepts takes
    all it is offered, the wire ends at a separator after every call. *)
Theorem flush_sends_whole_lines (c : LineBufferingSocketContainer)
    (calls : list outbound_call) (bound : nat) :
  let queued := b_send_buffer c ++ concat (map written calls) in
  let after := run_calls c calls [] in
  after.2 ++ b_send_buffer after.1 = queued
  ∧ unterminated_tail (linesep c) queued `suffix_of` b_send_buffer after.1
  ∧ ((length queued ≤ bound)%nat →
     Forall (λ call, takes_whole bound (sends_of call)) calls →
     ends_at_separator (linesep c) after.2 = true).
Proof.
  cbv zeta.
  destruct (run_calls_spec c calls []) as (_ & Hcons & Htail & Hwhole).
  split; [done|]. split.
  - rewrite <- Htail. apply tail_suffix.
  - intros Hlen Hall. by apply (Hwhole bound).
Qed.

Lemma flush_sends_whole_lines_witness :
  let c := attach_socket new_container 1%nat in
  let calls := [WriteCall [104; 105; 10; 106] [SendAccepts 8];
                FlushCall [SendRaises BlockingIOError];
                WriteCall [10; 107] [SendAccepts 9; SendAccepts 8]] in
  le (length (b_send_buffer c ++ concat (map written calls))) 8%nat
  ∧ Forall (λ call, takes_whole 8 (sends_of call)) calls
  ∧ (run_calls c calls []).2 = [104; 105; 10; 106; 10]
  ∧ ends_at_separator (linesep c) (run_calls c calls []).2 = true.
Proof.
  cbv zeta.
  assert (H1 : le (length (b_send_buffer (attach_socket new_container 1%nat) ++
                 concat (map written
                   [WriteCall [104; 105; 10; 106] [SendAccepts 8];
                    FlushCall [SendRaises BlockingIOError];
                    WriteCall [10; 107] [SendAccepts 9; SendAccepts 8]])))
                8%nat) by (simpl; lia).
  assert (H2 : Forall (λ call, takes_whole 8 (sends_of call))
                 [WriteCall [104; 105; 10; 106] [SendAccepts 8];
                  FlushCall [SendRaises BlockingIOError];
                  WriteCall [10; 107] [SendAccepts 9; SendAccepts 8]]).
  { repeat constructor; simpl; lia. }
  refine (conj H1 (conj H2 (conj eq_refl _))).
  exact (proj2 (proj2 (flush_sends_whole_lines _ _ 8%nat)) H1 H2).
Defined.

(** C2 as stated fails: a transport that takes one byte of a line and then
    refuses leaves the wire in the middle of that line when [flush]
    returns. *)
Lemma partial_send_splits_line :
  let c := attach_socket new_container 1%nat in
  let calls := [WriteCall [104; 105; 10]
                          [SendAccepts 1; SendRaises BlockingIOError]] in
  (run_calls c calls []).2 = [104]
  ∧ b_send_buffer (run_calls c calls []).1 = [105; 10]
  ∧ ends_at_separator (linesep c) (run_calls c calls []).2 = false.
Proof. by vm_compute. Qed.

(** ** Inbound read *)

Lemma contains_index sep buf :
  contains sep buf = true → ∃ t, index sep buf = Some t.
Proof.
  induction buf as [|b rest IH]; simpl; [done|].
  destruct (Z.eqb_spec b sep) as [->|Hne]; [by eexists|].
  intros [Hb|Hrest]%orb_true_iff.
  - apply Z.eqb_eq in Hb. congruence.
  - destruct (IH Hrest) as [t ->]. by eexists.
Qed.

(** The splitting loop is given enough turns: it stops because no
    separator is left, and the lines followed by the remainder are the
    bytes it was given. *)
Lemma split_loop_enough turns sep stripped q :
  (length stripped ≤ turns)%nat →
  contains sep (split_loop turns sep stripped q).2 = false
  ∧ concat (split_loop turns sep stripped q).1
    ++ (split_loop turns sep stripped q).2
    = concat q ++ stripped.
Proof.
  revert stripped q.
  induction turns as [|turns IH]; intros stripped q Hlen; simpl.
  - destruct stripped; [done|simpl in Hlen; lia].
  - destruct (contains sep stripped) eqn:Hc; [|done].
    destruct (contains_index _ _ Hc) as [t Ht]. rewrite Ht.
    destruct (index_Some _ _ _ Ht) as [_ Hlt].
    destruct (IH (drop (t + 1) stripped) (q ++ [take (t + 1) stripped]))
      as [Hnone Hcat]; [rewrite length_drop; lia|].
    split; [done|]. rewrite Hcat, concat_app, <- app_assoc. simpl.
    by rewrite app_nil_r, take_drop.
Qed.

Lemma split_lines_complete sep stripped :
  contains sep (split_lines sep stripped).2 = false
  ∧ concat (split_lines sep stripped).1 ++ (split_lines sep stripped).2
    = stripped.
Proof. by apply (split_loop_enough (length stripped) sep stripped []). Qed.

(** A zero-length read is reported as end of stream. *)
Lemma read_zero_length_is_eof c s recvs :
  connected c = true → socket c = Some s →
  ∃ c' lines, read c (RecvReturns [] :: recvs) = (c', Returns (lines, true)).
Proof.
  intros Hc Hs. unfold read. rewrite Hc, Hs. simpl.
  destruct (telnet_strip _) as [stripped in_command].
  destruct (split_lines _ _) as [q rest]. eauto.
Qed.

(** A reset raised by the first [recv] is caught by the [except OSError]
    clause, which comes before the [except ConnectionResetError] clause:
    [has_eof] stays false. *)
Lemma read_reset_is_not_eof c s recvs :
  connected c = true → socket c = Some s →
  ∃ c' lines,
    read c (RecvRaises ConnectionResetError :: recvs)
    = (c', Returns (lines, false)).
Proof.
  intros Hc Hs. unfold read. rewrite Hc, Hs. simpl.
  destruct (telnet_strip _) as [stripped in_command].
  destruct (split_lines _ _) as [q rest]. eauto.
Qed.

(** C8 at its failing input.  On an attached connection a zero-length
    read gives [has_eof = True], but a connection reset gives
    [has_eof = False]: [ConnectionResetError] is a subclass of [OSError],
    whose clause is tried first, so the clause that sets [has_eof] never
    runs. *)
Theorem reset_not_reported_as_eof :
  let c := attach_socket new_container 1%nat in
  (read c [RecvReturns []]).2 = Returns ([], true)
  ∧ catches [OSError] ConnectionResetError = true
  ∧ (read c [RecvRaises ConnectionResetError]).2 = Returns ([], false)
  ∧ (read c [RecvReturns [104; 10]; RecvRaises ConnectionResetError]).2
    = Returns ([[104; 10]], false).
Proof. by vm_compute. Qed.

(** C3 at its failing input.  The stream [IAC WILL 1 h LF], read whole,
    gives the line [h LF].  Read as [IAC] and then the rest, the pending
    [IAC] goes to the outbound buffer, nothing is carried over on the
    inbound side, and the second read gives the line [WILL 1 h LF]. *)
Theorem read_split_inside_command :
  let c := attach_socket new_container 1%nat in
  let whole := read c [RecvReturns [IAC; WILL; 1; 104; 10]] in
  let first := read c [RecvReturns [IAC]] in
  let second := read first.1 [RecvReturns [WILL; 1; 104; 10]] in
  whole.2 = Returns ([[104; 10]], false)
  ∧ first.2 = Returns ([], false)
  ∧ b_recv_buffer first.1 = []
  ∧ b_send_buffer first.1 = [IAC]
  ∧ second.2 = Returns ([[WILL; 1; 104; 10]], false).
Proof. by vm_compute. Qed.

(** The remainder kept between reads is already stripped and is stripped
    again by the next read: an escaped [IAC IAC] left in it becomes a
    command introducer and swallows the byte that follows. *)
Lemma read_strips_remainder_again :
  let c := attach_socket new_container 1%nat in
  let whole := read c [RecvReturns [IAC; IAC; 104; 10]] in
  let first := read c [RecvReturns [IAC; IAC]] in
  let second := read first.1 [RecvReturns [104; 10]] in
  whole.2 = Returns ([[IAC; 104; 10]], false)
  ∧ b_recv_buffer first.1 = [IAC]
  ∧ second.2 = Returns ([[10]], false).
Proof. by vm_compute. Qed.

(** ** Writes on a detached connection *)

Lemma write_detached c data sends :
  socket c = None ∨ connected c = false →
  write c data sends
  = (set_send_buffer c (b_send_buffer c ++ data), [], Raises AssertionError).
Proof.
  intros H. unfold write, flush. simpl.
  destruct H as [-> | ->]; [done|].
  by destruct (negb (bool_decide (socket c ≠ None))).
Qed.

(** C10, as the code has it.  On a connection with no socket or with
    [connected] false, every write appends its bytes to the outbound
    buffer and then fails the assertion of [flush]: the call raises,
    nothing is sent, and the bytes stay queued. *)
Theorem write_on_detached_raises_after_queueing
    (c : LineBufferingSocketContainer) (data : bytes) (text msg : string)
    (sends : list send_outcome) :
  socket c = None ∨ connected c = false →
  let queued (b : bytes) :=
    (set_send_buffer c (b_send_buffer c ++ b), @nil Z,
     @Raises unit AssertionError) in
  write c data sends = queued data
  ∧ write_line c data sends = queued data
  ∧ write_str c text sends = queued (encode_str text)
  ∧ tell_ok c msg sends
    = queued (encode_str (MESSAGE_PREFIX_OK +:+ msg +:+ CRLF))
  ∧ tell_err c msg sends
    = queued (encode_str (MESSAGE_PREFIX_ERR +:+ msg +:+ CRLF)).
Proof.
  intros H. cbv zeta.
  unfold tell_ok, tell_err, write_str, write_line.
  repeat split; by apply write_detached.
Qed.

Lemma write_on_detached_raises_after_queueing_witness :
  (socket new_container = None ∨ connected new_container = false)
  ∧ tell_err new_container "Incorrect." [SendAccepts 100]
    = (set_send_buffer new_container
         (encode_str (MESSAGE_PREFIX_ERR +:+ "Incorrect." +:+ CRLF)),
       [], Raises AssertionError).
Proof.
  assert (H : socket new_container = None ∨ connected new_container = false)
    by (left; reflexivity).
  split; [exact H|].
  exact (proj2 (proj2 (proj2 (proj2
    (write_on_detached_raises_after_queueing new_container [] "" "Incorrect."
       [SendAccepts 100] H))))).
Defined.

(** C10 as stated fails: the reply written to a detached client is in its
    outbound buffer when the assertion fails. *)
Lemma detached_write_is_buffered :
  let r := tell_err new_container "Incorrect." [SendAccepts 100] in
  socket new_container = None
  ∧ connected new_container = false
  ∧ r.2 = Raises AssertionError
  ∧ b_send_buffer r.1.1 = [33; 33; 32; 73; 110; 99; 111; 114; 114; 101; 99;
                           116; 46; 13; 10]
  ∧ b_send_buffer r.1.1 ≠ b_send_buffer new_container.
Proof. by vm_compute. Qed.

(** ** The connector's entry point *)

(** C9.  On a server that is connecting or connected [start_connection]
    returns false and starts no thread.  On an idle server it sets
    [connecting_in_thread], starts one thread and returns true; a second
    call right after it returns false, so the two calls start exactly one
    thread. *)
Theorem start_connection_once (server : RemoteServer) (threads : list thread) :
  (connecting_in_thread server = true
   ∨ connected (server_container server) = true →
   start_connection server threads = (server, threads, false))
  ∧ (connecting_in_thread server = false →
     connected (server_container server) = false →
     let first := start_connection server threads in
     let second := start_connection first.1.1 first.1.2 in
     first = (set_connecting_in_thread server true,
              threads ++ [DoStartConnection (name server)], true)
     ∧ second = (first.1.1, first.1.2, false)
     ∧ second.1.2 = threads ++ [DoStartConnection (name server)]).
Proof.
  unfold start_connection. split.
  - intros [-> | ->]; [done|]. by rewrite andb_false_r.
  - intros -> ->. simpl. done.
Qed.

Lemma start_connection_once_witness :
  let idle := new_server "mud.example.org" 4000 "mud" in
  let busy := set_connecting_in_thread idle true in
  (connecting_in_thread busy = true ∨ connected (server_container busy) = true)
  ∧ start_connection busy [] = (busy, [], false)
  ∧ connecting_in_thread idle = false
  ∧ connected (server_container idle) = false
  ∧ (start_connection idle []).1.2 = [DoStartConnection "mud"]
  ∧ (start_connection (start_connection idle []).1.1
                      (start_connection idle []).1.2).1.2
    = [DoStartConnection "mud"].
Proof.
  cbv zeta.
  set (idle := new_server "mud.example.org" 4000 "mud").
  set (busy := set_connecting_in_thread idle true).
  assert (H1 : connecting_in_thread busy = true
               ∨ connected (server_container busy) = true)
    by (left; reflexivity).
  assert (H2 : connecting_in_thread idle = false) by reflexivity.
  assert (H3 : connected (server_container idle) = false) by reflexivity.
  destruct (start_connection_once busy []) as [Hbusy _].
  destruct (start_connection_once idle []) as [_ Hidle].
  destruct (Hidle H2 H3) as (Hfirst & _ & Hsecond).
  refine (conj H1 (conj (Hbusy H1) (conj H2 (conj H3 (conj _ Hsecond))))).
  by rewrite Hfirst.
Defined.

(** ** Filter attachment *)

Lemma add_filters_loop_cons self_filters f items prototypes :
  add_filters_loop self_filters (f :: items) prototypes =
  match build_entry prototypes f with
  | Raises e => (self_filters, Raises e)
  | Returns flt => add_filters_loop (self_filters ++ [flt]) items prototypes
  end.
Proof.
  simpl. unfold build_entry.
  destruct (filter_entry f) as [[filter_name filter_opts]|]; [|done].
  by destruct (prototypes !! filter_name).
Qed.

(** The loop of [add_filters] builds the entries in order and stops at the
    first one that cannot be built; what was built before it has been
    appended. *)
Lemma add_filters_loop_raises self_filters items prototypes fs e :
  add_filters_loop self_filters items prototypes = (fs, Raises e) →
  ∃ good bad rest built,
    items = good ++ bad :: rest
    ∧ fs = self_filters ++ built
    ∧ Forall2 (λ f flt, build_entry prototypes f = Returns flt) good built
    ∧ build_entry prototypes bad = Raises e.
Proof.
  revert self_filters.
  induction items as [|f items IH]; intros self_filters; [done|].
  rewrite add_filters_loop_cons.
  destruct (build_entry prototypes f) as [flt|e'] eqn:Hf.
  - intros Hloop. destruct (IH _ Hloop) as (good & bad & rest & built & H).
    destruct H as (-> & -> & Hgood & Hbad).
    exists (f :: good), bad, rest, (flt :: built).
    rewrite <- app_assoc. repeat split; [|done]. by constructor.
  - intros [= <- <-]. exists [], f, items, [].
    rewrite app_nil_r. repeat split; [constructor|done].
Qed.

Lemma add_filters_loop_returns self_filters items prototypes fs u :
  add_filters_loop self_filters items prototypes = (fs, Returns u) →
  ∃ built,
    fs = self_filters ++ built
    ∧ Forall2 (λ f flt, build_entry prototypes f = Returns flt) items built.
Proof.
  revert self_filters.
  induction items as [|f items IH]; intros self_filters.
  - intros [= <- _]. exists []. by rewrite app_nil_r.
  - rewrite add_filters_loop_cons.
    destruct (build_entry prototypes f) as [flt|e'] eqn:Hf; [|done].
    intros Hloop. destruct (IH _ Hloop) as (built & -> & Hall).
    exists (flt :: built). rewrite <- app_assoc. split; [done|].
    by constructor.
Qed.

(** C7, as the code has it.  When [add_filters] raises, either the
    specification is not a list and no filter was added, or it is a list
    with a first entry that cannot be built: the filters built from the
    entries before it have been appended, in order, and stay attached;
    nothing is built from the bad entry or from those after it. *)
Theorem add_filters_keeps_built_prefix (self_filters : list LineFilter)
    (filters : json) (prototypes : gmap string filter_class)
    (fs : list LineFilter) (e : exn) :
  add_filters self_filters filters prototypes = (fs, Raises e) →
  ((∀ items, filters ≠ JList items)
   ∧ fs = self_filters ∧ e = FilterSpecificationError)
  ∨ ∃ good bad rest built,
      filters = JList (good ++ bad :: rest)
      ∧ fs = self_filters ++ built
      ∧ length built = length good
      ∧ Forall2 (λ f flt, build_entry prototypes f = Returns flt) good built
      ∧ build_entry prototypes bad = Raises e.
Proof.
  destruct filters as [| | | |items|]; simpl;
    try (intros [= <- <-]; left; by repeat split).
  intros Hloop. right.
  destruct (add_filters_loop_raises _ _ _ _ _ Hloop)
    as (good & bad & rest & built & -> & -> & Hgood & Hbad).
  exists good, bad, rest, built. repeat split; try done.
  symmetry. by eapply Forall2_length.
Qed.

Lemma add_filters_keeps_built_prefix_witness :
  let plain := mkLineFilter (λ l, Returns (Some l)) (λ l, Returns (Some l)) in
  let prototypes : gmap string filter_class :=
    {[ "plain"%string := λ _, Returns plain ]} in
  let filters := JList [JList [JString "plain"; JDict []];
                        JList [JString "missing"; JDict []];
                        JList [JString "plain"; JDict []]] in
  add_filters [] filters prototypes = ([plain], Raises FilterSpecificationError)
  ∧ (((∀ items, filters ≠ JList items)
      ∧ [plain] = [] ∧ FilterSpecificationError = FilterSpecificationError)
     ∨ ∃ good bad rest built,
         filters = JList (good ++ bad :: rest)
         ∧ [plain] = [] ++ built
         ∧ length built = length good
         ∧ Forall2 (λ f flt, build_entry prototypes f = Returns flt) good built
         ∧ build_entry prototypes bad = Raises FilterSpecificationError).
Proof.
  cbv zeta.
  set (plain := mkLineFilter (λ l, Returns (Some l)) (λ l, Returns (Some l))).
  set (prototypes := ({[ "plain"%string := λ _, Returns plain ]}
                      : gmap string filter_class)).
  set (filters := JList [JList [JString "plain"; JDict []];
                         JList [JString "missing"; JDict []];
                         JList [JString "plain"; JDict []]]).
  assert (H : add_filters [] filters prototypes
              = ([plain], Raises FilterSpecificationError))
    by (vm_compute; reflexivity).
  split; [exact H|].
  exact (add_filters_keeps_built_prefix [] filters prototypes [plain]
           FilterSpecificationError H).
Defined.

(** C7 as stated fails: with a known first entry and an unknown second
    one, [add_filters] raises and the connection is left with the first
    filter attached. *)
Lemma add_filters_partial_chain :
  let plain := mkLineFilter (λ l, Returns (Some l)) (λ l, Returns (Some l)) in
  let prototypes : gmap string filter_class :=
    {[ "plain"%string := λ _, Returns plain ]} in
  let filters := JList [JList [JString "plain"; JDict []];
                        JList [JString "missing"; JDict []]] in
  (add_filters [] filters prototypes).2 = Raises FilterSpecificationError
  ∧ length (add_filters [] filters prototypes).1 = 1%nat
  ∧ length (add_filters [] filters prototypes).1 ≠ length (@nil LineFilter).
Proof. by vm_compute. Qed.

(** ** Client lines *)

(** Once the filter loop has let a line through, what [handle_line_client]
    does with it is what it does with no filter at all: the line the
    filters produced is not looked at. *)
Lemma client_dispatch_ignores_filter_output filters client_commands line ln :
  client_filter_loop filters line = Returns (Some ln) →
  client_dispatch filters client_commands line
  = client_dispatch [] client_commands line.
Proof. intros H. unfold client_dispatch. by rewrite H. Qed.

(** The server handler passes on the line its filters produced. *)
Lemma server_dispatch_uses_filter_output filters line ln :
  server_filter_loop filters line = Returns (Some ln) →
  server_dispatch filters line = Returns (HandleData ln).
Proof. intros H. unfold server_dispatch. by rewrite H. Qed.

(** C6 at its failing input.  A client filter rewrites every line to
    [,help]; the client sends [hello].  The filter chain's output is the
    command line, yet the handler looks for the prefix in the original
    line and passes the original line to [handle_data].  The same filter
    on the server side has its output passed on. *)
Theorem client_line_dispatched_unfiltered :
  let help_line := encode_str ("," +:+ "help" +:+ CRLF) in
  let hello := encode_str ("hello" +:+ CRLF) in
  let rewrite_all :=
    mkLineFilter (λ _, Returns (Some help_line)) (λ _, Returns (Some help_line)) in
  let client_commands := initial_commands false in
  client_filter_loop [rewrite_all] hello = Returns (Some help_line)
  ∧ client_dispatch [] client_commands help_line
    = Returns (CallCommand do_client_help "")
  ∧ client_dispatch [rewrite_all] client_commands hello
    = Returns (HandleData hello)
  ∧ server_dispatch [rewrite_all] hello = Returns (HandleData help_line).
Proof. by vm_compute. Qed.

(** ** The session registry *)

Lemma remove_first_perm s l : s ∈ l → l ≡ₚ s :: remove_first s l.
Proof.
  induction l as [|x l IH]; simpl; [by intros ?%elem_of_nil|].
  case_bool_decide as Hx; [by subst|].
  intros [?|Hin]%elem_of_cons; [by subst|].
  rewrite (IH Hin) at 1. apply Permutation_swap.
Qed.

Lemma remove_first_other s x l : x ≠ s → x ∈ l → x ∈ remove_first s l.
Proof.
  intros Hne. induction l as [|y l IH]; simpl; [done|].
  case_bool_decide as Hy.
  - intros [?|?]%elem_of_cons; [congruence|done].
  - intros [?|?]%elem_of_cons; [subst; left|right; auto].
Qed.

Lemma remove_while_other turns s x l :
  x ≠ s → x ∈ l → x ∈ remove_while turns s l.
Proof.
  intros Hne. revert l. induction turns as [|turns IH]; intros l; simpl; [done|].
  case_bool_decide; [|done]. intros Hin. by apply IH, remove_first_other.
Qed.

(** On a list without duplicates the loop runs once. *)
Lemma remove_while_NoDup s l :
  NoDup l → s ∈ l → remove_while (length l) s l = remove_first s l.
Proof.
  intros Hnd Hin. destruct l as [|x l]; [by apply elem_of_nil in Hin|].
  cbn [length remove_while]. rewrite bool_decide_eq_true_2 by done.
  assert (Hout : s ∉ remove_first s (x :: l)).
  { rewrite (remove_first_perm s (x :: l) Hin) in Hnd.
    by apply NoDup_cons in Hnd as [? _]. }
  destruct (length l); simpl; [done|].
  by rewrite bool_decide_eq_false_2.
Qed.

(** The removal loop is given enough turns: no occurrence is left. *)
Lemma remove_while_enough turns s l :
  (length l ≤ turns)%nat → s ∉ remove_while turns s l.
Proof.
  revert l. induction turns as [|turns IH]; intros l Hlen; simpl.
  - destruct l; [apply not_elem_of_nil|simpl in Hlen; lia].
  - case_bool_decide as Hin; [|done].
    apply IH. pose proof (Permutation_length (remove_first_perm s l Hin)) as Hl.
    simpl in Hl. lia.
Qed.

Lemma tracked_streams_set_registry p w a b c :
  tracked_streams (set_registry p w a b c) = a ++ b ++ c.
Proof. done. Qed.

(** A change that permutes the listed streams and keeps the keys keeps the
    invariant. *)
Lemma tracked_once_perm p p' :
  tracked_once p →
  dom (socket_wrappers p') = dom (socket_wrappers p) →
  tracked_streams p' ≡ₚ tracked_streams p →
  tracked_once p'.
Proof.
  intros [Hdom Hnd] Hd Hp. split.
  - intros s. rewrite Hd, Hp. apply Hdom.
  - by rewrite Hp.
Qed.

(** A new stream entered in the map and in one list. *)
Lemma tracked_once_add p p' s :
  tracked_once p → untracked p s →
  dom (socket_wrappers p') = {[s]} ∪ dom (socket_wrappers p) →
  tracked_streams p' ≡ₚ s :: tracked_streams p →
  tracked_once p'.
Proof.
  intros [Hdom Hnd] Hnew Hd Hp. split.
  - intros x. rewrite Hd, Hp, elem_of_union, elem_of_singleton, elem_of_cons.
    by rewrite Hdom.
  - rewrite Hp. apply NoDup_cons. split; [|done].
    unfold untracked in Hnew. by rewrite Hdom in Hnew.
Qed.

(** A stream taken out of the map and out of its list. *)
Lemma tracked_once_remove p p' s :
  tracked_once p →
  dom (socket_wrappers p') = dom (socket_wrappers p) ∖ {[s]} →
  tracked_streams p ≡ₚ s :: tracked_streams p' →
  tracked_once p'.
Proof.
  intros [Hdom Hnd] Hd Hp. rewrite Hp in Hnd.
  apply NoDup_cons in Hnd as [Hs Hnd]. split; [|done].
  intros x. rewrite Hd, elem_of_difference, elem_of_singleton, Hdom, Hp.
  rewrite elem_of_cons. split; [intros [[?|?] ?]; [done|done]|].
  intros Hx. split; [by right|]. by intros ->.
Qed.

Lemma handle_line_server_registry p s line :
  (handle_line_server p s line).1 = p.
Proof.
  unfold handle_line_server.
  destruct (negb _); [done|].
  destruct (socket_wrappers p !! s) as [svr|]; [|done].
  by destruct (server_dispatch _ _).
Qed.

Lemma dispatch_lines_cons `{PythonEval} p s line lines :
  dispatch_lines p s (line :: lines) =
  match dispatch_line states p s line with
  | (p', Raises e) => (p', Raises e)
  | (p', Returns _) => dispatch_lines p' s lines
  end.
Proof. done. Qed.

(** *** A proxy whose interpreter does nothing *)

Section WithoutDebug.
#[local] Existing Instance no_side_effects.

Lemma handle_line_client_registry p s line :
  (handle_line_client p s line).1 = p.
Proof.
  unfold handle_line_client.
  destruct (negb _); [done|].
  destruct (socket_wrappers p !! s) as [c|]; [|done].
  destruct (client_dispatch _ _ _) as [[| [] | |]|]; done.
Qed.

(** What [handle_line_auth] does to the registry: nothing, or it moves
    [s] from the unauthenticated list to the end of the client list. *)
Lemma handle_line_auth_registry p s line :
  (handle_line_auth p s line).1 = p
  ∨ (s ∈ unauthenticated_sockets p
     ∧ (handle_line_auth p s line).1
       = set_registry p (socket_wrappers p) (server_sockets p)
           (remove_while (length (unauthenticated_sockets p)) s
                         (unauthenticated_sockets p))
           (client_sockets p ++ [s])).
Proof.
  unfold handle_line_auth.
  case_bool_decide as Hin; simpl; [|by left].
  destruct (password_verify p (trimmed line)); [by right|].
  left. by destruct (socket_wrappers p !! s).
Qed.

Lemma handle_line_auth_tracked p s line :
  tracked_once p → tracked_once (handle_line_auth p s line).1.
Proof.
  intros Hinv. destruct (handle_line_auth_registry p s line) as [->|[Hin ->]];
    [done|].
  apply (tracked_once_perm p); [done|done|].
  rewrite tracked_streams_set_registry. unfold tracked_streams.
  assert (Hnd : NoDup (unauthenticated_sockets p)).
  { destruct Hinv as [_ Hnd]. unfold tracked_streams in Hnd.
    apply NoDup_app in Hnd as (_ & _ & Hnd).
    by apply NoDup_app in Hnd as (Hnd & _ & _). }
  rewrite remove_while_NoDup by done.
  rewrite (remove_first_perm s (unauthenticated_sockets p) Hin) at 2.
  apply Permutation_app_head.
  rewrite (Permutation_app_comm (client_sockets p) [s]). simpl.
  by rewrite Permutation_middle.
Qed.

Lemma handler_tracked st p s line :
  tracked_once p → tracked_once (handler st p s line).1.
Proof.
  destruct st; simpl.
  - by rewrite handle_line_server_registry.
  - apply handle_line_auth_tracked.
  - by rewrite handle_line_client_registry.
Qed.

Lemma dispatch_line_tracked sts p s line :
  tracked_once p → tracked_once (dispatch_line sts p s line).1.
Proof.
  revert p. induction sts as [|st sts IH]; intros p Hinv; simpl; [done|].
  case_bool_decide; [|by apply IH].
  pose proof (handler_tracked st p s line Hinv) as Hh.
  destruct (handler st p s line) as [p' [[]|e]]; simpl in *;
    [done|by apply IH|done].
Qed.

Lemma dispatch_lines_tracked p s lines :
  tracked_once p → tracked_once (dispatch_lines p s lines).1.
Proof.
  revert p. induction lines as [|line lines IH]; intros p Hinv; [done|].
  rewrite dispatch_lines_cons.
  pose proof (dispatch_line_tracked states p s line Hinv) as Hd.
  destruct (dispatch_line states p s line) as [p' [u|e]];
    [by apply IH|done].
Qed.

Lemma dom_insert_tracked (m : gmap socket_id wrapper) s w :
  is_Some (m !! s) → dom (<[s := w]> m) = dom m.
Proof.
  intros Hs%elem_of_dom. rewrite dom_insert_L.
  by apply subseteq_union_1_L, singleton_subseteq_l.
Qed.

(** At most one of the three lists holds [s]. *)
Lemma tracked_once_disjoint p s :
  tracked_once p →
  (s ∈ server_sockets p →
   (s ∉ unauthenticated_sockets p) ∧ (s ∉ client_sockets p))
  ∧ (s ∈ unauthenticated_sockets p → s ∉ client_sockets p).
Proof.
  intros [_ Hnd]. unfold tracked_streams in Hnd.
  apply NoDup_app in Hnd as (_ & H1 & Hnd).
  apply NoDup_app in Hnd as (_ & H2 & _).
  split.
  - intros Hs. specialize (H1 s Hs). rewrite elem_of_app in H1. tauto.
  - intros Hs. by apply H2.
Qed.

Lemma remove_stream_tracked p s :
  tracked_once p → tracked_once (remove_stream p s).
Proof.
  intros Hinv. destruct (tracked_once_disjoint p s Hinv) as [Hsrv Hun].
  destruct (decide (s ∈ tracked_streams p)) as [Hin|Hout].
  - apply (tracked_once_remove p _ s); [done|apply dom_delete_L|].
    unfold remove_stream. rewrite tracked_streams_set_registry.
    unfold tracked_streams in *.
    rewrite !elem_of_app in Hin.
    destruct (decide (s ∈ server_sockets p)) as [H1|H1].
    + destruct (Hsrv H1) as [H2 H3].
      rewrite (bool_decide_eq_true_2 _ H1), (bool_decide_eq_false_2 _ H2),
        (bool_decide_eq_false_2 _ H3).
      by rewrite (remove_first_perm s (server_sockets p) H1) at 1.
    + rewrite (bool_decide_eq_false_2 _ H1).
      destruct (decide (s ∈ unauthenticated_sockets p)) as [H2|H2].
      * rewrite (bool_decide_eq_true_2 _ H2),
          (bool_decide_eq_false_2 _ (Hun H2)).
        rewrite (remove_first_perm s (unauthenticated_sockets p) H2) at 1.
        simpl. by rewrite <- Permutation_middle.
      * assert (H3 : s ∈ client_sockets p) by tauto.
        rewrite (bool_decide_eq_false_2 _ H2), (bool_decide_eq_true_2 _ H3).
        rewrite (remove_first_perm s (client_sockets p) H3) at 1.
        by rewrite <- !Permutation_middle.
  - apply (tracked_once_perm p); [done| |].
    + simpl. rewrite dom_delete_L. destruct Hinv as [Hdom _].
      rewrite <- Hdom in Hout.
      by apply difference_disjoint_L, disjoint_singleton_r.
    + unfold remove_stream. rewrite tracked_streams_set_registry.
      unfold tracked_streams in *. rewrite !elem_of_app in Hout.
      rewrite !bool_decide_eq_false_2 by tauto. done.
Qed.

Lemma do_accept_tracked p connection :
  tracked_once p → untracked p connection →
  tracked_once (do_accept p connection).1.
Proof.
  intros Hinv Hnew. unfold do_accept.
  destruct (add_filters [] (filter_clients p) (filter_prototypes p))
    as [filters r].
  match goal with
  | |- tracked_once (match r with _ => _ end).1 =>
      assert (Hgoal : ∀ P : Proxy, tracked_once P →
        tracked_once (match r with
                      | Returns _ => (P, Returns tt)
                      | Raises e =>
                          if catches [FilterSpecificationError] e
                          then (P, Returns tt) else (P, @Raises unit e)
                      end).1)
  end.
  { intros P HP. destruct r as [u|e]; [done|]. by destruct (catches _ e). }
  apply Hgoal.
  apply (tracked_once_add p _ connection); [done|done|apply dom_insert_L|].
  rewrite tracked_streams_set_registry. unfold tracked_streams.
  rewrite <- app_assoc. simpl. by rewrite <- !Permutation_middle.
Qed.

Lemma connector_attach_tracked p server C :
  tracked_once p → untracked p C →
  tracked_once (connector_attach p server C).
Proof.
  intros Hinv Hnew.
  apply (tracked_once_add p _ C); [done|done|apply dom_insert_L|].
  unfold connector_attach. rewrite tracked_streams_set_registry.
  unfold tracked_streams. rewrite <- app_assoc. simpl.
  by rewrite <- Permutation_middle.
Qed.

Lemma process_ready_tracked p ev :
  tracked_once p →
  match ev with
  | AcceptReady (Some connection) => untracked p connection
  | _ => True
  end →
  tracked_once (process_ready p ev).1.
Proof.
  intros Hinv Hnew. destruct ev as [[connection|]|s recvs];
    unfold process_ready.
  - by apply do_accept_tracked.
  - done.
  - destruct (socket_wrappers p !! s) as [ss|] eqn:Hss; [|done].
    assert (Hread : ∀ c,
      tracked_once (set_registry p (<[s := with_container ss c]>
                                      (socket_wrappers p))
                      (server_sockets p) (unauthenticated_sockets p)
                      (client_sockets p))).
    { intros c. apply (tracked_once_perm p); [done| |done].
      simpl. by apply dom_insert_tracked. }
    destruct (read (container_of ss) recvs) as [c [[lines eof]|e]];
      [|apply Hread].
    apply dispatch_lines_tracked.
    destruct eof; [apply remove_stream_tracked|]; apply Hread.
Qed.

Lemma process_batch_tracked p events :
  tracked_once p → accepts_new p events →
  tracked_once (process_batch p events).1.
Proof.
  revert p. induction events as [|ev events IH]; intros p Hinv Hnew; [done|].
  simpl in *. destruct Hnew as [Hev Hrest].
  pose proof (process_ready_tracked p ev Hinv Hev) as Hp.
  destruct (process_ready p ev) as [p' [u|e]]; simpl in *; [by apply IH|done].
Qed.

Lemma apply_event_tracked p ev :
  tracked_once p → admissible p ev → tracked_once (apply_event p ev).
Proof.
  destruct ev as [events|server C]; simpl.
  - apply process_batch_tracked.
  - apply connector_attach_tracked.
Qed.

Lemma steps_tracked p evs p' :
  tracked_once p → steps p evs p' → tracked_once p'.
Proof.
  intros Hinv Hsteps. induction Hsteps as [|p ev evs p' Hadm _ IH]; [done|].
  by apply IH, apply_event_tracked.
Qed.

Lemma new_proxy_tracked debug verify prototypes client_filters :
  tracked_once (new_proxy debug verify prototypes client_filters).
Proof.
  split; [|constructor].
  intros s. simpl. rewrite dom_empty_L. set_solver.
Qed.

Lemma tracked_once_exactly_one p s :
  tracked_once p → s ∈ dom (socket_wrappers p) → in_exactly_one p s.
Proof.
  intros Hinv Hs. destruct (tracked_once_disjoint p s Hinv) as [Hsrv Hun].
  destruct Hinv as [Hdom _]. apply Hdom in Hs.
  unfold tracked_streams in Hs. rewrite !elem_of_app in Hs.
  unfold in_exactly_one.
  destruct (decide (s ∈ server_sockets p)) as [H1|H1].
  - left. destruct (Hsrv H1). done.
  - destruct (decide (s ∈ unauthenticated_sockets p)) as [H2|H2].
    + right; left. auto.
    + right; right. repeat split; [done|done|tauto].
Qed.

(** *** Authenticated clients stay authenticated *)

Lemma handler_keeps_clients st p s' line s :
  s ∈ client_sockets p → s ∈ client_sockets (handler st p s' line).1.
Proof.
  intros Hs. destruct st; simpl.
  - by rewrite handle_line_server_registry.
  - destruct (handle_line_auth_registry p s' line) as [->|[_ ->]]; [done|].
    simpl. apply elem_of_app. by left.
  - by rewrite handle_line_client_registry.
Qed.

Lemma dispatch_line_keeps_clients sts p s' line s :
  s ∈ client_sockets p → s ∈ client_sockets (dispatch_line sts p s' line).1.
Proof.
  revert p. induction sts as [|st sts IH]; intros p Hs; simpl; [done|].
  case_bool_decide; [|by apply IH].
  pose proof (handler_keeps_clients st p s' line s Hs) as Hh.
  destruct (handler st p s' line) as [p' [[]|e]]; simpl in *;
    [done|by apply IH|done].
Qed.

Lemma dispatch_lines_keeps_clients p s' lines s :
  s ∈ client_sockets p → s ∈ client_sockets (dispatch_lines p s' lines).1.
Proof.
  revert p. induction lines as [|line lines IH]; intros p Hs; [done|].
  rewrite dispatch_lines_cons.
  pose proof (dispatch_line_keeps_clients states p s' line s Hs) as Hd.
  destruct (dispatch_line states p s' line) as [p' [u|e]];
    [by apply IH|done].
Qed.

Lemma remove_stream_keeps_clients p s' s :
  s ≠ s' → s ∈ client_sockets p → s ∈ client_sockets (remove_stream p s').
Proof.
  intros Hne Hs. unfold remove_stream. simpl.
  case_bool_decide; [by apply remove_first_other|done].
Qed.

Lemma process_ready_keeps_clients p ev s :
  s ∈ client_sockets p →
  s ∈ client_sockets (process_ready p ev).1 ∨ closes_in s p ev.
Proof.
  intros Hs. destruct ev as [[connection|]|s' recvs]; unfold process_ready.
  - left. unfold do_accept.
    destruct (add_filters _ _ _) as [filters [u|e]]; [done|].
    by destruct (catches _ e).
  - by left.
  - destruct (socket_wrappers p !! s') as [ss|] eqn:Hss; [|by left].
    destruct (read (container_of ss) recvs) as [c [[lines eof]|e]] eqn:Hread;
      [|by left].
    destruct eof; [|left; by apply dispatch_lines_keeps_clients].
    destruct (decide (s = s')) as [->|Hne].
    + right. simpl. split; [done|]. by exists ss, c, lines.
    + left. by apply dispatch_lines_keeps_clients, remove_stream_keeps_clients.
Qed.

Lemma process_batch_keeps_clients p events s :
  s ∈ client_sockets p →
  s ∈ client_sockets (process_batch p events).1 ∨ batch_closes s p events.
Proof.
  revert p. induction events as [|ev events IH]; intros p Hs; [by left|].
  cbn [process_batch batch_closes].
  destruct (process_ready_keeps_clients p ev s Hs) as [Hkeep|Hclose];
    [|right; by left].
  destruct (process_ready p ev) as [p1 [u|e]]; simpl in Hkeep; [|by left].
  destruct (IH p1 Hkeep) as [?|?]; [by left|right; by right].
Qed.

Lemma apply_event_keeps_clients p ev s :
  s ∈ client_sockets p →
  s ∈ client_sockets (apply_event p ev)
  ∨ match ev with
    | Batch events => batch_closes s p events
    | Attach _ _ => False
    end.
Proof.
  intros Hs. destruct ev as [events|server C]; simpl.
  - by apply process_batch_keeps_clients.
  - by left.
Qed.

(** Nothing but the interpreter rebinds a command name. *)
Lemma handler_commands st p s line :
  client_commands (handler st p s line).1 = client_commands p.
Proof.
  destruct st; simpl.
  - by rewrite handle_line_server_registry.
  - by destruct (handle_line_auth_registry p s line) as [->|[_ ->]].
  - by rewrite handle_line_client_registry.
Qed.

Lemma dispatch_line_commands sts p s line :
  client_commands (dispatch_line sts p s line).1 = client_commands p.
Proof.
  revert p. induction sts as [|st sts IH]; intros p; simpl; [done|].
  case_bool_decide; [|by apply IH].
  pose proof (handler_commands st p s line) as Hh.
  destruct (handler st p s line) as [p' [[]|e]]; simpl in *;
    [done|by rewrite IH|done].
Qed.

Lemma dispatch_lines_commands p s lines :
  client_commands (dispatch_lines p s lines).1 = client_commands p.
Proof.
  revert p. induction lines as [|line lines IH]; intros p; [done|].
  rewrite dispatch_lines_cons.
  pose proof (dispatch_line_commands states p s line) as Hd.
  destruct (dispatch_line states p s line) as [p' [u|e]];
    [by rewrite IH|done].
Qed.

Lemma process_ready_commands p ev :
  client_commands (process_ready p ev).1 = client_commands p.
Proof.
  destruct ev as [[connection|]|s recvs]; unfold process_ready; [|done|].
  - unfold do_accept.
    destruct (add_filters _ _ _) as [filters [u|e]]; [done|].
    by destruct (catches _ e).
  - destruct (socket_wrappers p !! s) as [ss|]; [|done].
    destruct (read (container_of ss) recvs) as [c [[lines eof]|e]]; [|done].
    rewrite dispatch_lines_commands. by destruct eof.
Qed.

Lemma process_batch_commands p events :
  client_commands (process_batch p events).1 = client_commands p.
Proof.
  revert p. induction events as [|ev events IH]; intros p; [done|].
  cbn [process_batch].
  pose proof (process_ready_commands p ev) as Hr.
  destruct (process_ready p ev) as [p1 [u|e]]; [by rewrite IH|done].
Qed.

Lemma apply_event_commands p ev :
  client_commands (apply_event p ev) = client_commands p.
Proof.
  destruct ev as [events|server C]; simpl; [|done].
  apply process_batch_commands.
Qed.

(** A stream of the client list stays there until a batch closes it. *)
Lemma clients_stay p evs p' s :
  tracked_once p → s ∈ client_sockets p → steps p evs p' →
  ((s ∈ client_sockets p') ∧ (s ∉ unauthenticated_sockets p')
   ∧ (s ∉ server_sockets p'))
  ∨ closed_along s p evs.
Proof.
  intros Hinv Hs Hsteps.
  induction Hsteps as [p|p ev evs p' Hadm Hsteps IH].
  - left. destruct (tracked_once_disjoint p s Hinv) as [Hsrv Hun].
    repeat split; [done| |]; intros Hin.
    + by apply (Hun Hin).
    + by apply (proj2 (Hsrv Hin)).
  - cbn [closed_along].
    destruct (apply_event_keeps_clients p ev s Hs) as [Hkeep|Hclose];
      [|right; by left].
    destruct (IH (apply_event_tracked p ev Hinv Hadm) Hkeep) as [?|?];
      [by left|right; by right].
Qed.

End WithoutDebug.

(** A handler only runs for a stream that is in one of the lists. *)
Lemma dispatch_lines_unlisted `{PythonEval} p s lines :
  s ∉ tracked_streams p → dispatch_lines p s lines = (p, Returns tt).
Proof.
  intros Hs. unfold tracked_streams in Hs. rewrite !elem_of_app in Hs.
  induction lines as [|line lines IH]; [done|].
  rewrite dispatch_lines_cons. simpl.
  rewrite !bool_decide_eq_false_2 by tauto. done.
Qed.

(** Closure takes the stream out of the map and out of every list. *)
Lemma closed_stream_removed `{PythonEval} p s ev :
  tracked_once p → closes_in s p ev →
  untracked (process_ready p ev).1 s
  ∧ s ∉ tracked_streams (process_ready p ev).1.
Proof.
  intros Hinv Hclose. destruct ev as [?|s' recvs]; [done|].
  destruct Hclose as (-> & ss & c & lines & Hss & Hread).
  unfold process_ready. rewrite Hss, Hread.
  set (p1 := set_registry p _ _ _ _).
  assert (Hinv1 : tracked_once p1).
  { apply (tracked_once_perm p); [done| |done].
    simpl. by apply dom_insert_tracked. }
  pose proof (remove_stream_tracked p1 s Hinv1) as [Hdom _].
  assert (Hout : untracked (remove_stream p1 s) s).
  { unfold untracked. simpl. rewrite dom_delete_L.
    apply not_elem_of_difference. right. by apply elem_of_singleton. }
  assert (Hout' : s ∉ tracked_streams (remove_stream p1 s)).
  { by rewrite <- Hdom. }
  by rewrite dispatch_lines_unlisted.
Qed.

(** *** Without a debug command the interpreter is never reached *)

Lemma new_proxy_debug_disabled verify prototypes client_filters :
  debug_disabled (new_proxy false verify prototypes client_filters).
Proof.
  assert (Hoff : map_Forall (λ _ cmd, cmd ≠ do_client_debug)
                   (initial_commands false))
    by (apply (bool_decide_unpack _); by vm_compute).
  intros cmdname Hc. by apply (Hoff cmdname do_client_debug).
Qed.

Lemma debug_disabled_commands p p' :
  client_commands p' = client_commands p →
  debug_disabled p → debug_disabled p'.
Proof. intros Heq Hd cmdname. rewrite Heq. apply Hd. Qed.

(** A command that is called is bound to some name. *)
Lemma client_dispatch_bound filters client_commands line c args :
  client_dispatch filters client_commands line = Returns (CallCommand c args) →
  ∃ cmdname, client_commands !! cmdname = Some c.
Proof.
  unfold client_dispatch.
  destruct (client_filter_loop filters line) as [[ln|]|e]; [|done|done].
  destruct (String.eqb _ _); [|done].
  destruct (match String.index 0 " " (trimmed line) with
            | Some t => _
            | None => _
            end) as [cmd a].
  destruct (client_commands !! cmd) as [c'|] eqn:Hcmd; [|done].
  intros [= <- _]. by exists cmd.
Qed.

Lemma handle_line_client_agrees `{PythonEval} p s line :
  debug_disabled p →
  handle_line_client p s line = @handle_line_client no_side_effects p s line.
Proof.
  intros Hd. unfold handle_line_client.
  destruct (negb _); [done|].
  destruct (socket_wrappers p !! s) as [c|]; [|done].
  destruct (client_dispatch _ _ _) as [[|cmd args| |]|e] eqn:Hc; try done.
  destruct cmd; try done.
  apply client_dispatch_bound in Hc as [cmdname Hc]. by destruct (Hd cmdname).
Qed.

Lemma handler_agrees `{PythonEval} st p s line :
  debug_disabled p →
  handler st p s line = @handler no_side_effects st p s line.
Proof. destruct st; [done|done|apply handle_line_client_agrees]. Qed.

Lemma dispatch_line_agrees `{PythonEval} sts p s line :
  debug_disabled p →
  dispatch_line sts p s line = @dispatch_line no_side_effects sts p s line.
Proof.
  revert p. induction sts as [|st sts IH]; intros p Hd; simpl; [done|].
  case_bool_decide; [|by apply IH].
  rewrite (handler_agrees st p s line Hd).
  pose proof (handler_commands st p s line) as Hc.
  destruct (@handler no_side_effects st p s line) as [p' [[]|e]]; [done| |done].
  apply IH. by apply (debug_disabled_commands p).
Qed.

Lemma dispatch_lines_agrees `{PythonEval} p s lines :
  debug_disabled p →
  dispatch_lines p s lines = @dispatch_lines no_side_effects p s lines.
Proof.
  revert p. induction lines as [|line lines IH]; intros p Hd; [done|].
  rewrite !dispatch_lines_cons, (dispatch_line_agrees states p s line Hd).
  pose proof (dispatch_line_commands states p s line) as Hc.
  destruct (@dispatch_line no_side_effects states p s line) as [p' [u|e]];
    [|done].
  apply IH. by apply (debug_disabled_commands p).
Qed.

Lemma process_ready_agrees `{PythonEval} p ev :
  debug_disabled p →
  process_ready p ev = @process_ready no_side_effects p ev.
Proof.
  intros Hd. destruct ev as [connection|s recvs]; [done|].
  unfold process_ready.
  destruct (socket_wrappers p !! s) as [ss|]; [|done].
  destruct (read (container_of ss) recvs) as [c [[lines eof]|e]]; [|done].
  apply dispatch_lines_agrees. by destruct eof.
Qed.

Lemma process_batch_agrees `{PythonEval} p events :
  debug_disabled p →
  process_batch p events = @process_batch no_side_effects p events.
Proof.
  revert p. induction events as [|ev events IH]; intros p Hd; [done|].
  cbn [process_batch]. rewrite (process_ready_agrees p ev Hd).
  pose proof (process_ready_commands p ev) as Hc.
  destruct (@process_ready no_side_effects p ev) as [p1 [u|e]]; [|done].
  apply IH. by apply (debug_disabled_commands p).
Qed.

Lemma accepts_new_agrees `{PythonEval} p events :
  debug_disabled p →
  accepts_new p events ↔ @accepts_new no_side_effects p events.
Proof.
  revert p. induction events as [|ev events IH]; intros p Hd; [done|].
  cbn [accepts_new]. rewrite (process_ready_agrees p ev Hd).
  rewrite IH; [done|].
  apply (debug_disabled_commands p); [|done]. apply process_ready_commands.
Qed.

Lemma batch_closes_agrees `{PythonEval} s p events :
  debug_disabled p →
  batch_closes s p events ↔ @batch_closes no_side_effects s p events.
Proof.
  revert p. induction events as [|ev events IH]; intros p Hd; [done|].
  cbn [batch_closes]. rewrite (process_ready_agrees p ev Hd).
  pose proof (process_ready_commands p ev) as Hc.
  destruct (@process_ready no_side_effects p ev) as [p1 [u|e]]; [|done].
  rewrite IH; [done|]. by apply (debug_disabled_commands p).
Qed.

Lemma apply_event_agrees `{PythonEval} p ev :
  debug_disabled p → apply_event p ev = @apply_event no_side_effects p ev.
Proof.
  intros Hd. destruct ev as [events|server C]; [|done].
  simpl. by rewrite process_batch_agrees.
Qed.

Lemma closed_along_agrees `{PythonEval} s p evs :
  debug_disabled p →
  closed_along s p evs ↔ @closed_along no_side_effects s p evs.
Proof.
  revert p. induction evs as [|ev evs IH]; intros p Hd; [done|].
  cbn [closed_along]. rewrite (apply_event_agrees p ev Hd).
  rewrite IH by (apply (debug_disabled_commands p);
                 [apply apply_event_commands|done]).
  destruct ev as [events|server C]; [|done].
  by rewrite batch_closes_agrees.
Qed.

(** With no debug command a run of the proxy is a run of the proxy whose
    interpreter does nothing, and no debug command appears. *)
Lemma steps_agree `{PythonEval} p evs p' :
  debug_disabled p → steps p evs p' →
  @steps no_side_effects p evs p' ∧ debug_disabled p'.
Proof.
  intros Hd Hsteps. induction Hsteps as [p|p ev evs p' Hadm Hsteps IH].
  - split; [apply steps_nil|done].
  - rewrite (apply_event_agrees p ev Hd) in IH.
    destruct IH as [Hq Hd'].
    { apply (debug_disabled_commands p); [apply apply_event_commands|done]. }
    split; [|done]. apply steps_cons; [|done].
    destruct ev as [events|server C]; [|done].
    by apply (proj1 (accepts_new_agrees p events Hd)).
Qed.

Lemma steps_tracked_without_debug `{PythonEval} p evs p' :
  debug_disabled p → tracked_once p → steps p evs p' →
  debug_disabled p' ∧ tracked_once p'.
Proof.
  intros Hd Hinv Hsteps. destruct (steps_agree p evs p' Hd Hsteps) as [Hq Hd'].
  split; [done|]. by apply (steps_tracked p evs p').
Qed.

(** C4.  The registry starts with nothing tracked and, with the [debug]
    setting off, with no command name bound to [do_client_debug].  As long
    as none is, every batch of the run loop and every attachment by a
    connector thread keeps the registry in this shape: the keys of the
    stream-to-endpoint map are the streams of the three lists, no stream
    is listed twice, and so every tracked stream is in exactly one list. *)
Theorem tracked_stream_in_exactly_one_state `{PythonEval} (debug : bool)
    (verify : string → bool) (prototypes : gmap string filter_class)
    (client_filters : json) (p p' : Proxy) (evs : list event) :
  tracked_once (new_proxy debug verify prototypes client_filters)
  ∧ debug_disabled (new_proxy false verify prototypes client_filters)
  ∧ (debug_disabled p → tracked_once p → steps p evs p' →
     debug_disabled p'
     ∧ tracked_once p'
     ∧ ∀ s, s ∈ dom (socket_wrappers p') → in_exactly_one p' s).
Proof.
  split; [apply new_proxy_tracked|].
  split; [apply new_proxy_debug_disabled|].
  intros Hd Hinv Hsteps.
  destruct (steps_tracked_without_debug p evs p' Hd Hinv Hsteps)
    as [Hd' Hinv'].
  split; [done|]. split; [done|].
  intros s. by apply tracked_once_exactly_one.
Qed.

Ltac untracked_by_evaluation :=
  apply not_elem_of_dom; vm_compute; reflexivity.

Ltac admissible_by_evaluation :=
  cbn [admissible accepts_new];
  repeat match goal with
         | |- _ ∧ _ => split
         | |- True => exact I
         | |- untracked _ _ => untracked_by_evaluation
         end.

Lemma tracked_stream_in_exactly_one_state_witness :
  let python := appends_to_unauthenticated in
  let p0 := new_proxy false (String.eqb "secret") ∅ (JList []) in
  let evs :=
    [Batch [AcceptReady (Some 1%nat)];
     Attach (new_server "mud.example.org" 4000 "mud") 2%nat;
     Batch [StreamReady 1%nat [RecvReturns (encode_str "secret" ++ [10])];
            AcceptReady (Some 3%nat)];
     Batch [StreamReady 3%nat [RecvReturns []]]] in
  let p' := foldl apply_event p0 evs in
  debug_disabled p0
  ∧ tracked_once p0
  ∧ steps p0 evs p'
  ∧ server_sockets p' = [2%nat]
  ∧ unauthenticated_sockets p' = []
  ∧ client_sockets p' = [1%nat]
  ∧ debug_disabled p'
  ∧ tracked_once p'
  ∧ ∀ s, s ∈ dom (socket_wrappers p') → in_exactly_one p' s.
Proof.
  cbv zeta.
  set (python := appends_to_unauthenticated).
  set (p0 := new_proxy false (String.eqb "secret") ∅ (JList [])).
  set (evs := [Batch [AcceptReady (Some 1%nat)];
     Attach (new_server "mud.example.org" 4000 "mud") 2%nat;
     Batch [StreamReady 1%nat [RecvReturns (encode_str "secret" ++ [10])];
            AcceptReady (Some 3%nat)];
     Batch [StreamReady 3%nat [RecvReturns []]]]).
  assert (Hd : debug_disabled p0)
    by exact (proj1 (proj2 (tracked_stream_in_exactly_one_state false
                              (String.eqb "secret") ∅ (JList []) p0 p0 []))).
  assert (H0 : tracked_once p0)
    by exact (proj1 (tracked_stream_in_exactly_one_state false
                       (String.eqb "secret") ∅ (JList []) p0 p0 [])).
  assert (Hsteps : steps p0 evs (foldl apply_event p0 evs)).
  { subst evs. cbn [foldl].
    repeat (apply steps_cons; [admissible_by_evaluation|]).
    apply steps_nil. }
  refine (conj Hd (conj H0 (conj Hsteps _))).
  split; [by vm_compute|]. split; [by vm_compute|]. split; [by vm_compute|].
  exact (proj2 (proj2 (tracked_stream_in_exactly_one_state false
                  (String.eqb "secret") ∅ (JList []) p0 _ evs)) Hd H0 Hsteps).
Defined.

(** With the [debug] setting on the shape is not kept: a client that has
    logged in types [,e self.unauthenticated_sockets.append(client.socket)]
    and its stream is in two lists. *)
Lemma debug_eval_lists_stream_twice :
  let python := appends_to_unauthenticated in
  let p0 := new_proxy true (String.eqb "secret") ∅ (JList []) in
  let evs :=
    [Batch [AcceptReady (Some 1%nat)];
     Batch [StreamReady 1%nat [RecvReturns (encode_str "secret" ++ [10])]];
     Batch [StreamReady 1%nat
              [RecvReturns
                 (encode_str
                    ",e self.unauthenticated_sockets.append(client.socket)"
                  ++ [10])]]] in
  let p' := foldl apply_event p0 evs in
  tracked_once p0
  ∧ steps p0 evs p'
  ∧ (1%nat ∈ dom (socket_wrappers p'))
  ∧ unauthenticated_sockets p' = [1%nat]
  ∧ client_sockets p' = [1%nat]
  ∧ ¬ in_exactly_one p' 1%nat.
Proof.
  cbv zeta.
  set (python := appends_to_unauthenticated).
  set (p0 := new_proxy true (String.eqb "secret") ∅ (JList [])).
  assert (Hun : unauthenticated_sockets
                  (foldl apply_event p0
                     [Batch [AcceptReady (Some 1%nat)];
                      Batch [StreamReady 1%nat
                               [RecvReturns (encode_str "secret" ++ [10])]];
                      Batch [StreamReady 1%nat
                               [RecvReturns
                                  (encode_str
                                     ",e self.unauthenticated_sockets.append(client.socket)"
                                   ++ [10])]]]) = [1%nat])
    by (by vm_compute).
  assert (Hcl : client_sockets
                  (foldl apply_event p0
                     [Batch [AcceptReady (Some 1%nat)];
                      Batch [StreamReady 1%nat
                               [RecvReturns (encode_str "secret" ++ [10])]];
                      Batch [StreamReady 1%nat
                               [RecvReturns
                                  (encode_str
                                     ",e self.unauthenticated_sockets.append(client.socket)"
                                   ++ [10])]]]) = [1%nat])
    by (by vm_compute).
  split; [apply new_proxy_tracked|].
  split.
  { cbn [foldl].
    repeat (apply steps_cons; [admissible_by_evaluation|]).
    apply steps_nil. }
  split; [apply elem_of_dom, (bool_decide_unpack _); by vm_compute|].
  split; [done|]. split; [done|].
  unfold in_exactly_one. rewrite Hun, Hcl.
  intros [(_ & Hout & _)|[(_ & _ & Hout)|(_ & Hout & _)]];
    apply Hout, list_elem_of_here.
Qed.

(** C5.  As long as no command name is bound to [do_client_debug], a
    stream in the client list stays there, and stays out of the other two
    lists, through every sequence of batches and attachments, unless one
    of the batches reads end of stream on it; that closure removes it from
    the map and from every list. *)
Theorem authentication_is_monotonic `{PythonEval} (p p' : Proxy)
    (evs : list event) (s : socket_id) :
  debug_disabled p → tracked_once p → s ∈ client_sockets p →
  steps p evs p' →
  ((s ∈ client_sockets p') ∧ (s ∉ unauthenticated_sockets p')
   ∧ (s ∉ server_sockets p'))
  ∨ closed_along s p evs.
Proof.
  intros Hd Hinv Hs Hsteps.
  destruct (steps_agree p evs p' Hd Hsteps) as [Hq _].
  rewrite (closed_along_agrees s p evs Hd). by apply clients_stay.
Qed.

Lemma authentication_is_monotonic_witness :
  let python := appends_to_unauthenticated in
  let p0 := new_proxy false (String.eqb "secret") ∅ (JList []) in
  let login :=
    [Batch [AcceptReady (Some 1%nat)];
     Batch [StreamReady 1%nat [RecvReturns (encode_str "secret" ++ [10])]]] in
  let p := foldl apply_event p0 login in
  let evs :=
    [Batch [StreamReady 1%nat [RecvReturns (encode_str "wrong" ++ [10])];
            AcceptReady (Some 2%nat)];
     Attach (new_server "mud.example.org" 4000 "mud") 3%nat;
     Batch [StreamReady 2%nat [RecvReturns (encode_str "wrong" ++ [10])];
            StreamReady 1%nat [RecvReturns (encode_str ",help" ++ [10])]]] in
  let p' := foldl apply_event p evs in
  debug_disabled p
  ∧ tracked_once p
  ∧ (1%nat ∈ client_sockets p)
  ∧ steps p evs p'
  ∧ client_sockets p' = [1%nat]
  ∧ unauthenticated_sockets p' = [2%nat]
  ∧ (((1%nat ∈ client_sockets p') ∧ (1%nat ∉ unauthenticated_sockets p')
      ∧ (1%nat ∉ server_sockets p'))
     ∨ closed_along 1%nat p evs).
Proof.
  cbv zeta.
  set (python := appends_to_unauthenticated).
  set (p0 := new_proxy false (String.eqb "secret") ∅ (JList [])).
  set (login := [Batch [AcceptReady (Some 1%nat)];
     Batch [StreamReady 1%nat [RecvReturns (encode_str "secret" ++ [10])]]]).
  set (p := foldl apply_event p0 login).
  set (evs := [Batch [StreamReady 1%nat
                        [RecvReturns (encode_str "wrong" ++ [10])];
            AcceptReady (Some 2%nat)];
     Attach (new_server "mud.example.org" 4000 "mud") 3%nat;
     Batch [StreamReady 2%nat [RecvReturns (encode_str "wrong" ++ [10])];
            StreamReady 1%nat [RecvReturns (encode_str ",help" ++ [10])]]]).
  assert (Hlogin : steps p0 login p).
  { subst p login. cbn [foldl].
    repeat (apply steps_cons; [admissible_by_evaluation|]).
    apply steps_nil. }
  destruct (steps_tracked_without_debug p0 login p
              (new_proxy_debug_disabled _ _ _) (new_proxy_tracked _ _ _ _)
              Hlogin) as [Hd Hinv].
  assert (Hs : 1%nat ∈ client_sockets p)
    by (vm_compute; apply list_elem_of_here).
  assert (Hsteps : steps p evs (foldl apply_event p evs)).
  { subst evs. cbn [foldl].
    repeat (apply steps_cons; [admissible_by_evaluation|]).
    apply steps_nil. }
  refine (conj Hd (conj Hinv (conj Hs (conj Hsteps _)))).
  split; [by vm_compute|]. split; [by vm_compute|].
  exact (authentication_is_monotonic p _ evs 1%nat Hd Hinv Hs Hsteps).
Defined.

(** With the [debug] setting on an authenticated stream can come back
    into the unauthenticated list without being closed: the client types
    [,e self.unauthenticated_sockets.append(client.socket)], and its next
    line is read as a password. *)
Lemma debug_eval_unauthenticates :
  let python := appends_to_unauthenticated in
  let p0 := new_proxy true (String.eqb "secret") ∅ (JList []) in
  let login :=
    [Batch [AcceptReady (Some 1%nat)];
     Batch [StreamReady 1%nat [RecvReturns (encode_str "secret" ++ [10])]]] in
  let p := foldl apply_event p0 login in
  let evs :=
    [Batch [StreamReady 1%nat
              [RecvReturns
                 (encode_str
                    ",e self.unauthenticated_sockets.append(client.socket)"
                  ++ [10])]]] in
  let p' := foldl apply_event p evs in
  tracked_once p
  ∧ (1%nat ∈ client_sockets p)
  ∧ steps p evs p'
  ∧ ¬ (((1%nat ∈ client_sockets p') ∧ (1%nat ∉ unauthenticated_sockets p')
        ∧ (1%nat ∉ server_sockets p'))
       ∨ closed_along 1%nat p evs)
  ∧ dispatch_line states p 1%nat (encode_str ",die" ++ [10])
    = (p, Raises KeyboardInterrupt)
  ∧ dispatch_line states p' 1%nat (encode_str ",die" ++ [10])
    = (p', Returns tt).
Proof.
  cbv zeta.
  set (python := appends_to_unauthenticated).
  set (p0 := new_proxy true (String.eqb "secret") ∅ (JList [])).
  set (login := [Batch [AcceptReady (Some 1%nat)];
     Batch [StreamReady 1%nat [RecvReturns (encode_str "secret" ++ [10])]]]).
  set (p := foldl apply_event p0 login).
  set (evs := [Batch [StreamReady 1%nat
              [RecvReturns
                 (encode_str
                    ",e self.unauthenticated_sockets.append(client.socket)"
                  ++ [10])]]]).
  assert (Hp : p = set_registry p0
                     {[1%nat := ClientWrapper (new_client 1%nat)]}
                     [] [] [1%nat])
    by (by vm_compute).
  assert (Hun : unauthenticated_sockets (foldl apply_event p evs) = [1%nat])
    by (by vm_compute).
  split.
  { rewrite Hp. split; [|apply NoDup_singleton].
    intros s. simpl. rewrite dom_singleton_L. unfold tracked_streams. simpl.
    by rewrite elem_of_singleton, list_elem_of_singleton. }
  split; [vm_compute; apply list_elem_of_here|].
  split.
  { subst evs. cbn [foldl].
    repeat (apply steps_cons; [admissible_by_evaluation|]).
    apply steps_nil. }
  split; [|split; by vm_compute].
  intros [(_ & Hout & _)|Hclosed].
  - apply Hout. rewrite Hun. apply list_elem_of_here.
  - destruct Hclosed as [[Hclosed|Hclosed]|Hclosed]; [|done|done].
    destruct Hclosed as (_ & ss & c & lines & Hss & Hread).
    vm_compute in Hss. injection Hss as <-.
    vm_compute in Hread. discriminate Hread.
Qed.

(** * Further properties *)

(** ** The telnet stripper, continued *)

(** A byte sequence with no [IAC] in it is returned as it is, and the
    stripper ends outside command mode. *)
Theorem telnet_strip_plain (buf : bytes) :
  Forall (λ b, b ≠ IAC) buf → telnet_strip buf = (buf, false).
Proof. intros H. unfold telnet_strip. by rewrite strip_loop_plain. Qed.

Lemma telnet_strip_plain_witness :
  Forall (λ b, b ≠ IAC) [104; 105; 13; 10]
  ∧ telnet_strip [104; 105; 13; 10] = ([104; 105; 13; 10], false).
Proof.
  assert (H : Forall (λ b, b ≠ IAC) [104; 105; 13; 10])
    by (repeat constructor; unfold IAC; lia).
  exact (conj H (telnet_strip_plain _ H)).
Defined.

(** A two-byte command [IAC, X], with [X] neither [IAC] nor one of
    WILL, WONT, DO, DONT, is removed; [IAC, IAC] leaves one literal 255.
    Both hold between any bytes, as long as the command starts outside
    command mode. *)
Theorem two_byte_command_stripped (pre post : bytes) (X : Z) :
  (telnet_strip pre).2 = false →
  (X ≠ IAC → ¬ (WILL <= X <= DONT) →
   telnet_strip (pre ++ [IAC; X] ++ post) =
   ((telnet_strip pre).1 ++ (telnet_strip post).1, (telnet_strip post).2))
  ∧ telnet_strip (pre ++ [IAC; IAC] ++ post) =
    ((telnet_strip pre).1 ++ [IAC] ++ (telnet_strip post).1,
     (telnet_strip post).2).
Proof.
  unfold telnet_strip. intros Hpre. split.
  - intros HX HW. rewrite strip_loop_app, Hpre. simpl.
    destruct (Z.eqb_spec X IAC) as [?|_]; [done|].
    replace ((X <=? DONT) && (X >=? WILL)) with false
      by (symmetry; apply andb_false_iff; lia).
    apply strip_loop_acc.
  - rewrite strip_loop_app, Hpre. simpl.
    rewrite strip_loop_acc, <- app_assoc. done.
Qed.

Lemma two_byte_command_stripped_witness :
  (telnet_strip [104]).2 = false ∧ 241 ≠ IAC ∧ ¬ (WILL <= 241 <= DONT)
  ∧ telnet_strip ([104] ++ [IAC; 241] ++ [105; 10]) = ([104; 105; 10], false)
  ∧ telnet_strip ([104] ++ [IAC; IAC] ++ [105; 10])
    = ([104; 255; 105; 10], false).
Proof.
  assert (H1 : (telnet_strip [104]).2 = false) by reflexivity.
  assert (H2 : 241 ≠ IAC) by (unfold IAC; lia).
  assert (H3 : ¬ (WILL <= 241 <= DONT)) by (unfold WILL, DONT; lia).
  destruct (two_byte_command_stripped [104] [105; 10] 241 H1) as [Ha Hb].
  exact (conj H1 (conj H2 (conj H3 (conj (Ha H2 H3) Hb)))).
Defined.

Lemma strip_loop_sublist buf in_command :
  (strip_loop buf in_command []).1 `sublist_of` buf.
Proof.
  revert in_command. induction buf as [|b rest IH]; intros in_command; simpl.
  - constructor.
  - destruct in_command.
    + destruct (Z.eqb_spec b IAC) as [->|_].
      * rewrite strip_loop_acc. simpl. by apply sublist_skip.
      * destruct ((b <=? DONT) && (b >=? WILL)); by apply sublist_cons.
    + destruct (Z.eqb_spec b IAC) as [->|_]; [by apply sublist_cons|].
      rewrite strip_loop_acc. simpl. by apply sublist_skip.
Qed.

(** The stripper only deletes: its output is the input with some bytes
    left out, in the same order, so it is never longer than the input and
    holds no byte the input does not hold. *)
Theorem telnet_strip_only_deletes (buf : bytes) :
  (telnet_strip buf).1 `sublist_of` buf
  ∧ (length (telnet_strip buf).1 ≤ length buf)%nat
  ∧ ∀ b, b ∈ (telnet_strip buf).1 → b ∈ buf.
Proof.
  pose proof (strip_loop_sublist buf false) as Hsub.
  split; [done|]. split; [by apply sublist_length|].
  intros b Hb. by eapply elem_of_sublist.
Qed.

(** ** Line splitting, continued *)

Lemma index_app_l sep x y t :
  index sep x = Some t → index sep (x ++ y) = Some t.
Proof.
  revert t. induction x as [|b x IH]; intros t; simpl; [done|].
  destruct (b =? sep); [done|].
  destruct (index sep x) as [t'|]; [|done].
  intros [= <-]. by rewrite (IH t' eq_refl).
Qed.

Lemma index_first sep buf t :
  index sep buf = Some t → contains sep (take t buf) = false.
Proof.
  revert t. induction buf as [|b rest IH]; intros t; simpl; [done|].
  destruct (Z.eqb_spec b sep) as [->|Hne]; [by intros [= <-]|].
  destruct (index sep rest) as [t'|]; [|done].
  intros [= <-]. simpl. rewrite (IH t' eq_refl), orb_false_r.
  apply Z.eqb_neq. congruence.
Qed.

Lemma take_index sep buf t :
  index sep buf = Some t → take (t + 1) buf = take t buf ++ [sep].
Proof.
  intros Hi. destruct (index_Some _ _ _ Hi) as [Hl _].
  replace (t + 1)%nat with (S t) by lia. by apply take_S_r.
Qed.

Lemma split_loop_acc turns sep stripped q :
  split_loop turns sep stripped q =
  (q ++ (split_loop turns sep stripped []).1,
   (split_loop turns sep stripped []).2).
Proof.
  revert stripped q. induction turns as [|turns IH]; intros stripped q; simpl.
  - by rewrite app_nil_r.
  - destruct (contains sep stripped); [|by rewrite app_nil_r].
    destruct (index sep stripped) as [t|]; [|by rewrite app_nil_r].
    rewrite (IH _ (q ++ _)), (IH _ [take (t + 1) stripped]).
    simpl. by rewrite <- app_assoc.
Qed.

(** Any number of turns that covers the length gives the same result. *)
Lemma split_loop_turns n m sep stripped q :
  (length stripped ≤ n)%nat → (length stripped ≤ m)%nat →
  split_loop n sep stripped q = split_loop m sep stripped q.
Proof.
  revert m stripped q. induction n as [|n IH]; intros m stripped q Hn Hm.
  - destruct stripped; [|simpl in Hn; lia]. by destruct m.
  - destruct m as [|m].
    { destruct stripped; [done|simpl in Hm; lia]. }
    simpl. destruct (contains sep stripped); [|done].
    destruct (index sep stripped) as [t|] eqn:Hi; [|done].
    destruct (index_Some _ _ _ Hi) as [_ Hlt].
    apply IH; rewrite length_drop; lia.
Qed.

Lemma split_lines_no_separator sep stripped :
  contains sep stripped = false → split_lines sep stripped = ([], stripped).
Proof.
  unfold split_lines. intros Hc. destruct stripped; [done|].
  cbn [length split_loop]. by rewrite Hc.
Qed.

Lemma split_lines_step sep stripped t :
  index sep stripped = Some t →
  split_lines sep stripped =
  (take (t + 1) stripped :: (split_lines sep (drop (t + 1) stripped)).1,
   (split_lines sep (drop (t + 1) stripped)).2).
Proof.
  intros Hi. unfold split_lines.
  destruct (index_Some _ _ _ Hi) as [_ Hlt].
  destruct stripped as [|b rest]; [done|].
  cbn [length split_loop]. rewrite (index_contains _ _ _ Hi), Hi.
  rewrite split_loop_acc. simpl.
  rewrite (split_loop_turns (length rest)
             (length (drop (t + 1) (b :: rest)))); [done| |done].
  rewrite length_drop. simpl. lia.
Qed.

(** Every line ends with the separator and holds no other one. *)
Lemma split_lines_terminated sep stripped :
  Forall (λ line, ∃ body, line = body ++ [sep] ∧ contains sep body = false)
         (split_lines sep stripped).1.
Proof.
  induction stripped as [stripped IH] using (induction_ltof1 _ length).
  unfold ltof in IH.
  destruct (contains sep stripped) eqn:Hc.
  - destruct (contains_index _ _ Hc) as [t Hi].
    destruct (index_Some _ _ _ Hi) as [_ Hlt].
    rewrite (split_lines_step _ _ _ Hi). simpl. constructor.
    + exists (take t stripped). split; [by apply take_index|].
      by apply index_first.
    + apply IH. rewrite length_drop. lia.
  - rewrite split_lines_no_separator by done. constructor.
Qed.

(** The lines returned by the splitting loop of [read], followed by the
    remainder it keeps, are the bytes it was given; the remainder holds no
    separator; every line ends with the separator and holds no other. *)
Theorem split_lines_frames_the_input (sep : Z) (stripped : bytes) :
  concat (split_lines sep stripped).1 ++ (split_lines sep stripped).2
  = stripped
  ∧ contains sep (split_lines sep stripped).2 = false
  ∧ Forall (λ line, ∃ body, line = body ++ [sep] ∧ contains sep body = false)
           (split_lines sep stripped).1.
Proof.
  destruct (split_lines_complete sep stripped) as [Hnone Hcat].
  split; [done|]. split; [done|]. apply split_lines_terminated.
Qed.

(** Splitting [x ++ y] is splitting [x] and then the remainder of [x]
    followed by [y]. *)
Lemma split_lines_app sep x y :
  split_lines sep (x ++ y) =
  ((split_lines sep x).1 ++ (split_lines sep ((split_lines sep x).2 ++ y)).1,
   (split_lines sep ((split_lines sep x).2 ++ y)).2).
Proof.
  induction x as [x IH] using (induction_ltof1 _ length). unfold ltof in IH.
  destruct (contains sep x) eqn:Hc.
  - destruct (contains_index _ _ Hc) as [t Hi].
    destruct (index_Some _ _ _ Hi) as [_ Hlt].
    rewrite (split_lines_step _ _ _ (index_app_l _ _ y _ Hi)).
    rewrite (split_lines_step _ _ _ Hi). simpl.
    rewrite take_app_le, drop_app_le by lia.
    rewrite IH by (rewrite length_drop; lia). done.
  - rewrite (split_lines_no_separator _ x Hc). simpl.
    by destruct (split_lines sep (x ++ y)).
Qed.

(** ** Reading, continued *)

Lemma oserror_caught_by_read e :
  issubclass e OSError = true → ∃ h, first_handler read_handlers e = Some h.
Proof. destruct e; vm_compute; intros; try discriminate; eauto. Qed.

Lemma recv_loop_raises recvs buf buf' e :
  recv_loop recvs buf = (buf', Raises e) →
  e = BlockingIOError ∨ RecvRaises e ∈ recvs.
Proof.
  revert buf. induction recvs as [|o recvs IH]; intros buf; simpl.
  - intros [= _ <-]. by left.
  - destruct o as [data|e'].
    + destruct (_ <? _).
      * by destruct (_ =? _).
      * intros H. destruct (IH _ H) as [?|?]; [by left|right; by right].
    + intros [= _ <-]. right. by left.
Qed.

(** On an attached connection [read] returns whatever the transport
    does, as long as the exceptions [recv] raises are [OSError]s: they are
    all caught inside [read]. *)
Theorem read_survives_transport_errors (c : LineBufferingSocketContainer)
    (s : socket_id) (recvs : list recv_outcome) :
  connected c = true → socket c = Some s → recv_raises_oserror recvs →
  ∃ c' lines eof, read c recvs = (c', Returns (lines, eof)).
Proof.
  intros Hc Hs Hrecvs. unfold read. rewrite Hc, Hs.
  rewrite bool_decide_eq_true_2 by done. cbn [negb].
  destruct (recv_loop recvs (b_recv_buffer c)) as [buf [has_eof|e]] eqn:Hloop.
  - simpl. destruct (telnet_strip buf) as [stripped in_command].
    destruct (split_lines _ _) as [q rest]. eauto.
  - assert (He : issubclass e OSError = true).
    { destruct (recv_loop_raises _ _ _ _ Hloop) as [->|Hin]; [done|].
      unfold recv_raises_oserror in Hrecvs.
      rewrite Forall_forall in Hrecvs. apply (Hrecvs _ Hin). }
    destruct (oserror_caught_by_read e He) as [h ->]. simpl.
    destruct (telnet_strip buf) as [stripped in_command].
    destruct (split_lines _ _) as [q rest]. eauto.
Qed.

Lemma read_survives_transport_errors_witness :
  let c := attach_socket new_container 1%nat in
  let recvs := [RecvRaises SSLWantReadError] in
  connected c = true ∧ socket c = Some 1%nat ∧ recv_raises_oserror recvs
  ∧ ∃ c' lines eof, read c recvs = (c', Returns (lines, eof)).
Proof.
  cbv zeta.
  assert (H : recv_raises_oserror [RecvRaises SSLWantReadError])
    by (repeat constructor).
  exact (conj eq_refl (conj eq_refl (conj H
    (read_survives_transport_errors (attach_socket new_container 1%nat)
       1%nat _ eq_refl eq_refl H)))).
Defined.

(** One [read] that receives [data] on a connection holding no [IAC]. *)
Lemma read_plain c s data :
  connected c = true → socket c = Some s →
  Forall (λ b, b ≠ IAC) (b_recv_buffer c ++ data) →
  ∃ eof,
    read c [RecvReturns data] =
    (set_recv_buffer c
       (split_lines (linesep c) (b_recv_buffer c ++ data)).2,
     Returns ((split_lines (linesep c) (b_recv_buffer c ++ data)).1, eof)).
Proof.
  intros Hc Hs Hplain. unfold read. rewrite Hc, Hs. simpl.
  assert (Hstrip : telnet_strip (b_recv_buffer c ++ data)
                   = (b_recv_buffer c ++ data, false))
    by (unfold telnet_strip; by rewrite strip_loop_plain).
  destruct (_ <? _).
  - destruct (_ =? _); simpl; rewrite Hstrip;
      destruct (split_lines _ _) as [q rest]; eauto.
  - simpl. rewrite Hstrip. destruct (split_lines _ _) as [q rest]. eauto.
Qed.

Lemma read_chunks_plain c s chunks :
  connected c = true → socket c = Some s →
  Forall (λ b, b ≠ IAC) (b_recv_buffer c ++ concat chunks) →
  contains (linesep c) (b_recv_buffer c) = false →
  read_chunks c chunks =
  (set_recv_buffer c
     (split_lines (linesep c) (b_recv_buffer c ++ concat chunks)).2,
   (split_lines (linesep c) (b_recv_buffer c ++ concat chunks)).1).
Proof.
  revert c. induction chunks as [|data chunks IH]; intros c Hc Hs Hplain Hrem.
  - simpl. rewrite app_nil_r, split_lines_no_separator by done.
    by destruct c.
  - cbn [read_chunks concat]. cbn [concat] in Hplain.
    rewrite app_assoc in Hplain.
    apply Forall_app in Hplain as [Hfirst Hrest].
    destruct (read_plain c s data Hc Hs Hfirst) as [eof ->].
    destruct (split_lines_complete (linesep c) (b_recv_buffer c ++ data))
      as [Hnone Hcat].
    set (c1 := set_recv_buffer c _).
    rewrite (IH c1); [| done | done | | done].
    + rewrite app_assoc, (split_lines_app _ (b_recv_buffer c ++ data)).
      done.
    + simpl. apply Forall_app. split; [|done].
      rewrite <- Hcat in Hfirst. by apply Forall_app in Hfirst as [_ ?].
Qed.

(** On an attached connection whose kept remainder has no [IAC] and no
    complete line in it, a stream with no [IAC] in it gives the same lines,
    and leaves the same remainder, whether it arrives in one [read] or
    spread over several: no line is lost, doubled or changed by where the
    chunks end.  (A remainder that ends in a literal 255, as [IAC IAC]
    leaves it, is stripped again with the next chunk and is left out.) *)
Theorem read_plain_chunks_as_one (c : LineBufferingSocketContainer)
    (s : socket_id) (chunks : list bytes) :
  connected c = true → socket c = Some s →
  Forall (λ b, b ≠ IAC) (b_recv_buffer c ++ concat chunks) →
  contains (linesep c) (b_recv_buffer c) = false →
  ∃ eof,
    read c [RecvReturns (concat chunks)]
    = ((read_chunks c chunks).1, Returns ((read_chunks c chunks).2, eof)).
Proof.
  intros Hc Hs Hplain Hrem.
  destruct (read_plain c s (concat chunks) Hc Hs Hplain) as [eof ->].
  exists eof. by rewrite (read_chunks_plain c s chunks).
Qed.

Lemma read_plain_chunks_as_one_witness :
  let c := attach_socket new_container 1%nat in
  let chunks := [[104; 105]; [10; 111]; []; [107; 10; 10; 33]] in
  connected c = true ∧ socket c = Some 1%nat
  ∧ Forall (λ b, b ≠ IAC) (b_recv_buffer c ++ concat chunks)
  ∧ contains (linesep c) (b_recv_buffer c) = false
  ∧ (read_chunks c chunks).2 = [[104; 105; 10]; [111; 107; 10]; [10]]
  ∧ ∃ eof,
      read c [RecvReturns (concat chunks)]
      = ((read_chunks c chunks).1, Returns ((read_chunks c chunks).2, eof)).
Proof.
  cbv zeta.
  assert (H : Forall (λ b, b ≠ IAC)
                (b_recv_buffer (attach_socket new_container 1%nat) ++
                 concat [[104; 105]; [10; 111]; []; [107; 10; 10; 33]]))
    by (repeat constructor; unfold IAC; lia).
  exact (conj eq_refl (conj eq_refl (conj H (conj eq_refl (conj eq_refl
    (read_plain_chunks_as_one (attach_socket new_container 1%nat) 1%nat
       [[104; 105]; [10; 111]; []; [107; 10; 10; 33]]
       eq_refl eq_refl H eq_refl)))))).
Defined.

(** ** Flushing, continued *)

Lemma oserror_caught_by_flush e :
  issubclass e OSError = true → first_handler flush_handlers e = Some tt.
Proof. destruct e; vm_compute; intros; try discriminate; done. Qed.

Lemma flush_loop_survives sep sends buf wire :
  send_raises_oserror sends →
  (flush_loop sep sends buf wire).2 = Returns tt.
Proof.
  revert buf wire. induction sends as [|o sends IH]; intros buf wire Hs;
    rewrite flush_loop_unfold.
  - destruct (_ || _); [done|]. by destruct (index sep buf).
  - destruct (_ || _); [done|]. destruct (index sep buf) as [t|]; [|done].
    inversion Hs as [|? ? Ho Hrest]; subst.
    destruct o as [room|e].
    + by apply IH.
    + by rewrite (oserror_caught_by_flush e Ho).
Qed.

(** On an attached connection [flush], and so every write, returns
    normally whatever the transport does, as long as the exceptions [send]
    raises are [OSError]s; what was not sent stays in the buffer. *)
Theorem flush_survives_transport_errors (c : LineBufferingSocketContainer)
    (s : socket_id) (data : bytes) (sends : list send_outcome) :
  connected c = true → socket c = Some s → send_raises_oserror sends →
  (write c data sends).2 = Returns tt
  ∧ (write c data sends).1.2 ++ b_send_buffer (write c data sends).1.1
    = b_send_buffer c ++ data.
Proof.
  intros Hc Hs Hsends.
  destruct (run_call_spec c (WriteCall data sends)) as (_ & Hcons & _).
  split; [|done].
  unfold write, flush. simpl. rewrite Hc, Hs.
  rewrite bool_decide_eq_true_2 by done. cbn [negb].
  pose proof (flush_loop_survives (linesep c) sends (b_send_buffer c ++ data)
                [] Hsends) as Hr.
  by destruct (flush_loop _ _ _ _) as [[buf wire] r].
Qed.

Lemma flush_survives_transport_errors_witness :
  let c := attach_socket new_container 1%nat in
  let sends := [SendAccepts 2; SendRaises ConnectionResetError] in
  connected c = true ∧ socket c = Some 1%nat ∧ send_raises_oserror sends
  ∧ (write c [104; 105; 10] sends).2 = Returns tt
  ∧ (write c [104; 105; 10] sends).1.2
    ++ b_send_buffer (write c [104; 105; 10] sends).1.1
    = b_send_buffer c ++ [104; 105; 10].
Proof.
  cbv zeta.
  assert (H : send_raises_oserror
                [SendAccepts 2; SendRaises ConnectionResetError])
    by (repeat constructor).
  exact (conj eq_refl (conj eq_refl (conj H
    (flush_survives_transport_errors (attach_socket new_container 1%nat)
       1%nat [104; 105; 10] _ eq_refl eq_refl H)))).
Defined.

Lemma separators_drop sep buf t :
  index sep buf = Some t →
  separators sep buf = S (separators sep (drop (t + 1) buf)).
Proof.
  revert t. induction buf as [|b rest IH]; intros t; simpl; [done|].
  destruct (b =? sep); [by intros [= <-]|].
  destruct (index sep rest) as [t'|] eqn:Hi; [|done].
  intros [= <-]. by apply IH.
Qed.

Lemma flush_loop_drains sep sends buf wire :
  always_accepts sends → takes_whole (length buf) sends →
  (separators sep buf ≤ length sends)%nat →
  (flush_loop sep sends buf wire).1.1 = unterminated_tail sep buf.
Proof.
  revert buf wire. induction sends as [|o sends IH];
    intros buf wire Hacc Hwhole Hn; rewrite flush_loop_unfold.
  - destruct (contains sep buf) eqn:Hc.
    + destruct (contains_index _ _ Hc) as [t Hi].
      rewrite (separators_drop _ _ _ Hi) in Hn. simpl in Hn. lia.
    + rewrite orb_true_r. simpl. by rewrite tail_no_separator.
  - destruct (contains sep buf) eqn:Hc.
    2: { rewrite orb_true_r. simpl. by rewrite tail_no_separator. }
    destruct (contains_index _ _ Hc) as [t Hi].
    destruct (index_Some _ _ _ Hi) as [_ Hlt].
    replace (negb (0 <? Z.of_nat (length buf))) with false
      by (symmetry; apply negb_false_iff, Z.ltb_lt; lia).
    simpl. rewrite Hi.
    inversion Hacc as [|? ? Ho Hacc']; subst.
    apply takes_whole_cons in Hwhole as [Hroom Hwhole].
    destruct o as [room|e]; [|done]. cbv zeta.
    replace (room `min` length (take (t + 1) buf))%nat with (t + 1)%nat
      by (rewrite length_take; lia).
    rewrite IH; [by apply (tail_drop _ _ t)|done| |].
    + unfold takes_whole in *. eapply Forall_impl; [exact Hwhole|].
      intros [room'|e'] Hr; [|done]. rewrite length_drop. lia.
    + rewrite (separators_drop _ _ _ Hi) in Hn. simpl in Hn. lia.
Qed.

(** With a transport that accepts every segment whole, and one [send] per
    buffered line, [flush] sends every complete line: what stays in the
    buffer is exactly the bytes after the last separator, and the wire got
    the rest. *)
Theorem flush_drains_complete_lines (c : LineBufferingSocketContainer)
    (s : socket_id) (sends : list send_outcome) :
  connected c = true → socket c = Some s →
  always_accepts sends → takes_whole (length (b_send_buffer c)) sends →
  (separators (linesep c) (b_send_buffer c) ≤ length sends)%nat →
  b_send_buffer (flush c sends).1.1
  = unterminated_tail (linesep c) (b_send_buffer c)
  ∧ (flush c sends).1.2 ++ unterminated_tail (linesep c) (b_send_buffer c)
    = b_send_buffer c.
Proof.
  intros Hc Hs Hacc Hwhole Hn.
  destruct (run_call_spec c (FlushCall sends)) as (_ & Hcons & _).
  simpl in Hcons. rewrite app_nil_r in Hcons.
  assert (Hbuf : b_send_buffer (flush c sends).1.1
                 = unterminated_tail (linesep c) (b_send_buffer c)).
  { unfold flush. rewrite Hc, Hs.
    rewrite bool_decide_eq_true_2 by done. cbn [negb].
    pose proof (flush_loop_drains (linesep c) sends (b_send_buffer c) []
                  Hacc Hwhole Hn) as Hd.
    by destruct (flush_loop _ _ _ _) as [[buf wire] r]. }
  split; [done|]. by rewrite <- Hbuf.
Qed.

Lemma flush_drains_complete_lines_witness :
  let c := set_send_buffer (attach_socket new_container 1%nat)
             [104; 10; 105; 10; 106] in
  let sends := [SendAccepts 5; SendAccepts 7] in
  connected c = true ∧ socket c = Some 1%nat
  ∧ always_accepts sends ∧ takes_whole (length (b_send_buffer c)) sends
  ∧ le (separators (linesep c) (b_send_buffer c)) (length sends)
  ∧ b_send_buffer (flush c sends).1.1 = [106]
  ∧ (flush c sends).1.2 = [104; 10; 105; 10].
Proof.
  cbv zeta.
  set (c := set_send_buffer (attach_socket new_container 1%nat)
              [104; 10; 105; 10; 106]).
  set (sends := [SendAccepts 5; SendAccepts 7]).
  assert (H1 : always_accepts sends) by (repeat constructor).
  assert (H2 : takes_whole (length (b_send_buffer c)) sends)
    by (repeat constructor; simpl; lia).
  assert (H3 : le (separators (linesep c) (b_send_buffer c)) (length sends))
    by (vm_compute; lia).
  destruct (flush_drains_complete_lines c 1%nat sends eq_refl eq_refl H1 H2 H3)
    as [Ha Hb].
  refine (conj eq_refl (conj eq_refl (conj H1 (conj H2 (conj H3
            (conj Ha _)))))).
  apply (app_inv_tail (unterminated_tail (linesep c) (b_send_buffer c))).
  by rewrite Hb.
Defined.

(** ** Filter chains *)

Lemma server_filter_loop_app fs1 fs2 ln :
  server_filter_loop (fs1 ++ fs2) ln =
  match server_filter_loop fs1 ln with
  | Returns (Some ln') => server_filter_loop fs2 ln'
  | r => r
  end.
Proof.
  revert ln. induction fs1 as [|f fs1 IH]; intros ln; [done|].
  cbn [app server_filter_loop].
  destruct (from_server f ln) as [[ln'|]|e]; [apply IH|done|].
  destruct (catches _ e); [apply IH|done].
Qed.

Lemma client_filter_loop_app fs1 fs2 ln :
  client_filter_loop (fs1 ++ fs2) ln =
  match client_filter_loop fs1 ln with
  | Returns (Some ln') => client_filter_loop fs2 ln'
  | r => r
  end.
Proof.
  revert ln. induction fs1 as [|f fs1 IH]; intros ln; [done|].
  cbn [app client_filter_loop].
  destruct (from_client f ln) as [[ln'|]|e]; [apply IH|done|].
  destruct (catches _ e); [apply IH|done].
Qed.


(** A filter that raises an [Exception] on the line that reaches it is
    passed over: the chain gives what it gives without that filter.  A
    filter that returns [None] ends the chain with [None], whatever
    filters come after it. *)
Theorem failing_filter_is_passed_over (fs1 fs2 : list LineFilter)
    (f : LineFilter) (ln l : TextLine) (e : exn) :
  (server_filter_loop fs1 ln = Returns (Some l) →
   (from_server f l = Raises e → issubclass e PyException = true →
    server_filter_loop (fs1 ++ f :: fs2) ln = server_filter_loop (fs1 ++ fs2) ln)
   ∧ (from_server f l = Returns None →
      server_filter_loop (fs1 ++ f :: fs2) ln = Returns None))
  ∧ (client_filter_loop fs1 ln = Returns (Some l) →
     (from_client f l = Raises e → issubclass e PyException = true →
      client_filter_loop (fs1 ++ f :: fs2) ln
      = client_filter_loop (fs1 ++ fs2) ln)
     ∧ (from_client f l = Returns None →
        client_filter_loop (fs1 ++ f :: fs2) ln = Returns None)).
Proof.
  split; intros Hfs1.
  - rewrite !server_filter_loop_app, Hfs1. simpl. split.
    + intros -> He. unfold catches. simpl. by rewrite He.
    + by intros ->.
  - rewrite !client_filter_loop_app, Hfs1. simpl. split.
    + intros -> He. unfold catches. simpl. by rewrite He.
    + by intros ->.
Qed.

Lemma failing_filter_is_passed_over_witness :
  let upper := mkLineFilter (λ l, Returns (Some (l ++ [33])))
                            (λ l, Returns (Some (l ++ [63]))) in
  let broken := mkLineFilter (λ _, Raises KeyError) (λ _, Raises ValueError) in
  let mute := mkLineFilter (λ _, Returns None) (λ _, Returns None) in
  server_filter_loop [upper] [104] = Returns (Some [104; 33])
  ∧ from_server broken [104; 33] = Raises KeyError
  ∧ issubclass KeyError PyException = true
  ∧ server_filter_loop ([upper] ++ broken :: [upper]) [104]
    = server_filter_loop ([upper] ++ [upper]) [104]
  ∧ client_filter_loop [upper] [104] = Returns (Some [104; 63])
  ∧ from_client mute [104; 63] = Returns None
  ∧ client_filter_loop ([upper] ++ mute :: [broken]) [104] = Returns None.
Proof.
  cbv zeta.
  set (upper := mkLineFilter (λ l, Returns (Some (l ++ [33])))
                             (λ l, Returns (Some (l ++ [63])))).
  set (broken := mkLineFilter (λ _, Raises KeyError) (λ _, Raises ValueError)).
  set (mute := mkLineFilter (λ _, Returns None) (λ _, Returns None)).
  destruct (failing_filter_is_passed_over [upper] [upper] broken [104]
              [104; 33] KeyError) as [Hs _].
  destruct (failing_filter_is_passed_over [upper] [broken] mute [104]
              [104; 63] KeyError) as [_ Hc].
  exact (conj eq_refl (conj eq_refl (conj eq_refl
           (conj (proj1 (Hs eq_refl) eq_refl eq_refl)
              (conj eq_refl (conj eq_refl (proj2 (Hc eq_refl) eq_refl))))))).
Defined.

(** ** Filter attachment, continued *)

Lemma add_filters_loop_builds self_filters items prototypes built :
  Forall2 (λ f flt, build_entry prototypes f = Returns flt) items built →
  add_filters_loop self_filters items prototypes
  = (self_filters ++ built, Returns tt).
Proof.
  intros Hall. revert self_filters.
  induction Hall as [|f flt items built Hf _ IH]; intros self_filters.
  - by rewrite app_nil_r.
  - rewrite add_filters_loop_cons, Hf, IH, <- app_assoc. done.
Qed.

(** [add_filters] returns exactly when the specification is a list whose
    every entry is a well-formed pair naming a known filter whose
    constructor returns; the connection then has one more filter per
    entry, in the order of the list, after those it had. *)
Theorem add_filters_returns_iff_all_built (self_filters fs : list LineFilter)
    (filters : json) (prototypes : gmap string filter_class) :
  add_filters self_filters filters prototypes = (fs, Returns tt)
  ↔ ∃ items built,
      filters = JList items
      ∧ Forall2 (λ f flt, build_entry prototypes f = Returns flt) items built
      ∧ fs = self_filters ++ built.
Proof.
  split.
  - destruct filters as [| | | |items|]; simpl; try done.
    intros Hloop.
    destruct (add_filters_loop_returns _ _ _ _ _ Hloop) as (built & -> & Hall).
    by exists items, built.
  - intros (items & built & -> & Hall & ->). simpl.
    by apply add_filters_loop_builds.
Qed.

(** ** Registration *)

(** Registering a command or a filter under a name that is taken changes
    nothing: the first registration stays.  Under a free name the new
    entry is added; the other names are untouched either way. *)
Theorem first_registration_wins (cmdname : string) (cmd1 cmd2 : command)
    (client_commands : gmap string command)
    (impl1 impl2 : filter_class) (filter_prototypes : gmap string filter_class) :
  register_command cmdname cmd2 (register_command cmdname cmd1 client_commands)
  = register_command cmdname cmd1 client_commands
  ∧ register_command cmdname cmd1 client_commands !! cmdname
    = Some (default cmd1 (client_commands !! cmdname))
  ∧ (∀ other, other ≠ cmdname →
       register_command cmdname cmd1 client_commands !! other
       = client_commands !! other)
  ∧ register_filter cmdname impl2
      (register_filter cmdname impl1 filter_prototypes)
    = register_filter cmdname impl1 filter_prototypes
  ∧ register_filter cmdname impl1 filter_prototypes !! cmdname
    = Some (default impl1 (filter_prototypes !! cmdname))
  ∧ (∀ other, other ≠ cmdname →
       register_filter cmdname impl1 filter_prototypes !! other
       = filter_prototypes !! other).
Proof.
  unfold register_command, register_filter.
  repeat split.
  - destruct (client_commands !! cmdname) as [c|] eqn:Hc.
    + by rewrite Hc.
    + by rewrite lookup_insert_eq.
  - destruct (client_commands !! cmdname) as [c|] eqn:Hc; [done|].
    by rewrite lookup_insert_eq.
  - intros other Hne. destruct (client_commands !! cmdname); [done|].
    by rewrite lookup_insert_ne.
  - destruct (filter_prototypes !! cmdname) as [c|] eqn:Hc.
    + by rewrite Hc.
    + by rewrite lookup_insert_eq.
  - destruct (filter_prototypes !! cmdname) as [c|] eqn:Hc; [done|].
    by rewrite lookup_insert_eq.
  - intros other Hne. destruct (filter_prototypes !! cmdname); [done|].
    by rewrite lookup_insert_ne.
Qed.

(** With the [debug] setting off no command name reaches the handler that
    evaluates Python expressions.  Turning it on binds exactly [e], [eval]
    and [debug] to that handler: the three names are free with the setting
    off, and every other name means what it means with the setting off. *)
Theorem debug_command_only_with_debug_setting :
  (∀ cmdname, initial_commands false !! cmdname ≠ Some do_client_debug)
  ∧ (∀ cmdname, cmdname ∈ ["e"; "eval"; "debug"]%string →
       initial_commands false !! cmdname = None)
  ∧ ∀ cmdname,
      initial_commands true !! cmdname
      = if bool_decide (cmdname ∈ ["e"; "eval"; "debug"]%string)
        then Some do_client_debug
        else initial_commands false !! cmdname.
Proof.
  assert (Hoff : map_Forall (λ _ cmd, cmd ≠ do_client_debug)
                            (initial_commands false))
    by (apply (bool_decide_unpack _); by vm_compute).
  assert (Hon : initial_commands true
                = <["debug"%string := do_client_debug]>
                    (<["eval"%string := do_client_debug]>
                       (<["e"%string := do_client_debug]>
                          (initial_commands false))))
    by (apply (bool_decide_unpack _); by vm_compute).
  split; [|split].
  - intros cmdname Hc. by apply (Hoff cmdname do_client_debug).
  - intros cmdname Hin. rewrite !elem_of_cons, elem_of_nil in Hin.
    destruct Hin as [->|[->|[->|[]]]]; by vm_compute.
  - intros cmdname. case_bool_decide as Hin.
    + rewrite !elem_of_cons, elem_of_nil in Hin.
      destruct Hin as [->|[->|[->|[]]]]; by vm_compute.
    + rewrite !not_elem_of_cons in Hin. destruct Hin as (He & Heval & Hd & _).
      rewrite Hon, !lookup_insert_ne; done.
Qed.

(** ** Text lines *)

(** A line built from text reads back as that text, and its raw form is
    made of bytes.  Text is held as its bytes, so this is how [as_str] and
    [encode_str] are meant to fit together rather than a property of the
    codec. *)
Lemma as_str_of_encoded_text (text : string) :
  as_str (encode_str text) = text ∧ Forall is_byte (encode_str text).
Proof.
  unfold as_str, encode_str. split.
  - rewrite <- (String.string_of_list_ascii_of_string text) at 2. f_equal.
    induction (String.list_ascii_of_string text) as [|a l IH]; simpl; [done|].
    by rewrite N2Z.id, Ascii.ascii_N_embedding, IH.
  - induction (String.list_ascii_of_string text) as [|a l IH]; simpl;
      constructor; [|done].
    pose proof (Ascii.N_ascii_bounded a). unfold is_byte. lia.
Qed.

Lemma replace_from_absent old new a rest s :
  old = String a rest → has_char a s = false →
  replace_from old new O s = s.
Proof.
  intros -> Ha. induction s as [|b s IH]; simpl; [done|].
  cbn [has_char] in Ha. apply orb_false_iff in Ha as [Hb Hs].
  apply Ascii.eqb_neq in Hb.
  destruct (Ascii.ascii_dec a b); [done|]. by rewrite IH.
Qed.

Lemma replace_crlf_end body :
  has_char CR_char body = false →
  replace CRLF "" (body +:+ CRLF) = body.
Proof.
  unfold replace. intros Hcr. induction body as [|b body IH]; [done|].
  cbn [has_char] in Hcr. apply orb_false_iff in Hcr as [Hb Hbody].
  change (String b body +:+ CRLF) with (String b (body +:+ CRLF)).
  cbn [replace_from]. unfold CRLF at 1. cbn [String.prefix].
  apply Ascii.eqb_neq in Hb. fold CR_char.
  destruct (Ascii.ascii_dec CR_char b); [done|]. by rewrite IH.
Qed.

Lemma trimmed_encoded body :
  has_char CR_char body = false → has_char LF_char body = false →
  trimmed (encode_str (body +:+ CRLF)) = body.
Proof.
  intros Hcr Hlf. unfold trimmed.
  rewrite (proj1 (as_str_of_encoded_text _)), replace_crlf_end by done.
  by apply (replace_from_absent LF "" LF_char "").
Qed.

Lemma append_cons x (a b : string) : String x a +:+ b = String x (a +:+ b).
Proof. done. Qed.

Lemma append_assoc (a b c : string) : (a +:+ b) +:+ c = a +:+ (b +:+ c).
Proof.
  induction a as [|x a IH]; [done|]. by rewrite !append_cons, IH.
Qed.

Lemma append_empty_r (a : string) : a +:+ "" = a.
Proof. induction a as [|x a IH]; [done|]. by rewrite append_cons, IH. Qed.

Lemma has_char_append a x y :
  has_char a (x +:+ y) = has_char a x || has_char a y.
Proof.
  induction x as [|b x IH]; [done|].
  rewrite append_cons. cbn [has_char]. by rewrite IH, orb_assoc.
Qed.

Lemma substring_prefix (a b : string) :
  String.substring 0 (String.length a) (a +:+ b) = a.
Proof.
  induction a as [|x a IH]; [by destruct b|].
  rewrite append_cons. cbn [String.length String.substring]. by rewrite IH.
Qed.

Lemma substring_skip (a b : string) n m :
  String.substring (String.length a + n) m (a +:+ b) = String.substring n m b.
Proof.
  induction a as [|x a IH]; [done|].
  rewrite append_cons. cbn [String.length Nat.add String.substring]. apply IH.
Qed.

Lemma length_append (a b : string) :
  String.length (a +:+ b) = (String.length a + String.length b)%nat.
Proof.
  induction a as [|x a IH]; [done|].
  rewrite append_cons. cbn [String.length]. by rewrite IH.
Qed.

Lemma index_space_none s :
  has_char SPACE_char s = false → String.index 0 " " s = None.
Proof.
  induction s as [|b s IH]; [done|].
  cbn [has_char]. intros [Hb Hs]%orb_false_iff. apply Ascii.eqb_neq in Hb.
  cbn [String.index String.prefix].
  destruct (Ascii.ascii_dec _ b) as [Heq|]; [by destruct Hb|]. by rewrite IH.
Qed.

Lemma index_space_first name rest :
  has_char SPACE_char name = false →
  String.index 0 " " (name +:+ String SPACE_char rest)
  = Some (String.length name).
Proof.
  induction name as [|b name IH].
  - intros _. change ("" +:+ String SPACE_char rest)
      with (String SPACE_char rest).
    cbn [String.index String.prefix String.length].
    destruct (Ascii.ascii_dec _ SPACE_char) as [_|Hne]; [|by destruct Hne].
    by destruct rest.
  - cbn [has_char]. intros [Hb Hs]%orb_false_iff. apply Ascii.eqb_neq in Hb.
    rewrite append_cons. cbn [String.index String.prefix String.length].
    destruct (Ascii.ascii_dec _ b) as [Heq|]; [by destruct Hb|].
    by rewrite IH.
Qed.

Lemma prefix_test (x : string) :
  String.eqb (slice 0 (String.length COMMAND_PREFIX) (COMMAND_PREFIX +:+ x))
             COMMAND_PREFIX = true.
Proof. by destruct x. Qed.

Lemma slice_from_skip (a b : string) :
  slice_from (String.length a) (a +:+ b) = b.
Proof.
  unfold slice_from. rewrite length_append.
  replace (String.length a + String.length b - String.length a)%nat
    with (String.length b) by lia.
  rewrite <- (Nat.add_0_r (String.length a)) at 1.
  rewrite substring_skip. rewrite <- (append_empty_r b) at 2.
  apply substring_prefix.
Qed.

Lemma slice_middle (a b c : string) :
  slice (String.length a) (String.length (a +:+ b)) ((a +:+ b) +:+ c) = b.
Proof.
  unfold slice. rewrite length_append, append_assoc.
  replace (String.length a + String.length b - String.length a)%nat
    with (String.length b) by lia.
  rewrite <- (Nat.add_0_r (String.length a)) at 1.
  rewrite substring_skip. apply substring_prefix.
Qed.

(** A command line written as prefix, name, one space and arguments is
    taken apart again by [handle_line_client]: the handler registered
    under the name is called with exactly the arguments, and a name that
    is not registered is reported by that name.  Without a space the whole
    rest of the line is the name and the arguments are empty. *)
Theorem command_line_parses (client_commands : gmap string command)
    (cmdname args : string) :
  has_char SPACE_char cmdname = false →
  has_char CR_char (cmdname +:+ args) = false →
  has_char LF_char (cmdname +:+ args) = false →
  let answer (a : string) :=
    match client_commands !! cmdname with
    | Some cmd => Returns (CallCommand cmd a)
    | None => Returns (CommandNotFound cmdname)
    end in
  client_dispatch [] client_commands
    (encode_str (COMMAND_PREFIX +:+ cmdname +:+ " " +:+ args +:+ CRLF))
  = answer args
  ∧ client_dispatch [] client_commands
      (encode_str (COMMAND_PREFIX +:+ cmdname +:+ CRLF))
    = answer ""%string.
Proof.
  intros Hsp Hcr Hlf. cbv zeta.
  rewrite has_char_append in Hcr, Hlf.
  apply orb_false_iff in Hcr as [Hcr1 Hcr2].
  apply orb_false_iff in Hlf as [Hlf1 Hlf2].
  assert (Hpsp : has_char SPACE_char (COMMAND_PREFIX +:+ cmdname) = false)
    by (by rewrite has_char_append, Hsp).
  unfold client_dispatch. cbn [client_filter_loop]. split.
  - replace (COMMAND_PREFIX +:+ cmdname +:+ " " +:+ args +:+ CRLF)
      with ((COMMAND_PREFIX +:+ cmdname +:+ " " +:+ args) +:+ CRLF)
      by (by rewrite !append_assoc).
    rewrite trimmed_encoded.
    2: { rewrite !has_char_append, Hcr1, Hcr2. done. }
    2: { rewrite !has_char_append, Hlf1, Hlf2. done. }
    rewrite prefix_test.
    replace (COMMAND_PREFIX +:+ cmdname +:+ " " +:+ args)
      with ((COMMAND_PREFIX +:+ cmdname) +:+ String SPACE_char args)
      by (by rewrite append_assoc).
    rewrite index_space_first by done.
    rewrite slice_middle.
    replace (String.length (COMMAND_PREFIX +:+ cmdname) + 1)%nat
      with (String.length ((COMMAND_PREFIX +:+ cmdname) +:+ " "))
      by (by rewrite (length_append _ " ")).
    replace ((COMMAND_PREFIX +:+ cmdname) +:+ String SPACE_char args)
      with (((COMMAND_PREFIX +:+ cmdname) +:+ " ") +:+ args)
      by (by rewrite (append_assoc _ " " args)).
    by rewrite slice_from_skip.
  - replace (COMMAND_PREFIX +:+ cmdname +:+ CRLF)
      with ((COMMAND_PREFIX +:+ cmdname) +:+ CRLF)
      by (by rewrite !append_assoc).
    rewrite trimmed_encoded.
    2: { by rewrite !has_char_append, Hcr1. }
    2: { by rewrite !has_char_append, Hlf1. }
    rewrite prefix_test, index_space_none by done.
    by rewrite slice_from_skip.
Qed.

Lemma command_line_parses_witness :
  has_char SPACE_char "connect" = false
  ∧ has_char CR_char ("connect" +:+ "my mud") = false
  ∧ has_char LF_char ("connect" +:+ "my mud") = false
  ∧ client_dispatch [] (initial_commands false)
      (encode_str (COMMAND_PREFIX +:+ "connect" +:+ " " +:+ "my mud" +:+ CRLF))
    = Returns (CallCommand do_client_connect "my mud")
  ∧ client_dispatch [] (initial_commands false)
      (encode_str (COMMAND_PREFIX +:+ "connect" +:+ CRLF))
    = Returns (CallCommand do_client_connect "").
Proof.
  destruct (command_line_parses (initial_commands false) "connect" "my mud"
              eq_refl eq_refl eq_refl) as [Ha Hb].
  exact (conj eq_refl (conj eq_refl (conj eq_refl (conj Ha Hb)))).
Defined.

(** ** The session registry, continued *)

(** A line from a stream in the unauthenticated list goes to
    [handle_line_auth] and to no other handler: with the wrong password
    the registry is unchanged, with the right one the stream moves to the
    end of the client list.  The line is never looked at as a command,
    whatever it says. *)
Theorem unauthenticated_line_only_authenticates `{PythonEval} (p : Proxy)
    (s : socket_id) (line : TextLine) :
  tracked_once p → s ∈ unauthenticated_sockets p →
  dispatch_line states p s line =
  if password_verify p (trimmed line)
  then (set_registry p (socket_wrappers p) (server_sockets p)
          (remove_first s (unauthenticated_sockets p))
          (client_sockets p ++ [s]),
        Returns tt)
  else (p, Returns tt).
Proof.
  intros Hinv Hs.
  assert (Hsrv : s ∉ server_sockets p).
  { intros Hin. by destruct (proj1 (tracked_once_disjoint p s Hinv) Hin). }
  assert (Hnd : NoDup (unauthenticated_sockets p)).
  { destruct Hinv as [_ Hnd]. unfold tracked_streams in Hnd.
    apply NoDup_app in Hnd as (_ & _ & Hnd).
    by apply NoDup_app in Hnd as (Hnd & _ & _). }
  assert (Hkey : is_Some (socket_wrappers p !! s)).
  { apply elem_of_dom, (proj1 Hinv). unfold tracked_streams.
    rewrite !elem_of_app. auto. }
  unfold states. cbn [dispatch_line members handler].
  rewrite (bool_decide_eq_false_2 _ Hsrv), (bool_decide_eq_true_2 _ Hs).
  unfold handle_line_auth. rewrite (bool_decide_eq_true_2 _ Hs). cbn [negb].
  destruct (password_verify p (trimmed line)).
  - by rewrite remove_while_NoDup.
  - by destruct Hkey as [w ->].
Qed.

Lemma unauthenticated_line_only_authenticates_witness :
  let python := appends_to_unauthenticated in
  let p0 := new_proxy false (String.eqb "secret") ∅ (JList []) in
  let p := (do_accept p0 1%nat).1 in
  tracked_once p ∧ 1%nat ∈ unauthenticated_sockets p
  ∧ dispatch_line states p 1%nat (encode_str ",die" ++ [10]) = (p, Returns tt)
  ∧ client_sockets
      (dispatch_line states p 1%nat (encode_str "secret" ++ [10])).1
    = [1%nat].
Proof.
  cbv zeta.
  set (p := (do_accept (new_proxy false (String.eqb "secret") ∅ (JList []))
               1%nat).1).
  assert (Hinv : tracked_once p).
  { apply do_accept_tracked; [apply new_proxy_tracked|].
    apply not_elem_of_dom. vm_compute. reflexivity. }
  assert (Hs : 1%nat ∈ unauthenticated_sockets p)
    by (vm_compute; apply list_elem_of_here).
  refine (conj Hinv (conj Hs (conj _ _))).
  - exact (unauthenticated_line_only_authenticates p 1%nat
             (encode_str ",die" ++ [10]) Hinv Hs).
  - by vm_compute.
Defined.

(** When [read] reports end of stream, the lines that same [read]
    returned are not dispatched: the stream has left every list before the
    dispatch loop looks for it, so the registry ends as it is right after
    the removal, whatever the lines are. *)
Theorem lines_read_with_eof_are_dropped `{PythonEval} (p : Proxy)
    (s : socket_id) (ss : wrapper) (recvs : list recv_outcome)
    (c : LineBufferingSocketContainer) (lines : list TextLine) :
  tracked_once p →
  socket_wrappers p !! s = Some ss →
  read (container_of ss) recvs = (c, Returns (lines, true)) →
  process_ready p (StreamReady s recvs)
  = (remove_stream
       (set_registry p (<[s := with_container ss c]> (socket_wrappers p))
          (server_sockets p) (unauthenticated_sockets p) (client_sockets p))
       s,
     Returns tt)
  ∧ untracked (process_ready p (StreamReady s recvs)).1 s
  ∧ s ∉ tracked_streams (process_ready p (StreamReady s recvs)).1.
Proof.
  intros Hinv Hss Hread.
  assert (Hclose : closes_in s p (StreamReady s recvs)).
  { split; [done|]. by exists ss, c, lines. }
  destruct (closed_stream_removed p s _ Hinv Hclose) as [Hout Hunlisted].
  split; [|done].
  unfold process_ready. rewrite Hss, Hread.
  apply dispatch_lines_unlisted.
  set (p1 := set_registry p _ _ _ _).
  assert (Hinv1 : tracked_once p1).
  { apply (tracked_once_perm p); [done| |done].
    simpl. by apply dom_insert_tracked. }
  pose proof (remove_stream_tracked p1 s Hinv1) as [Hdom _].
  rewrite <- Hdom. simpl. rewrite dom_delete_L.
  apply not_elem_of_difference. right. by apply elem_of_singleton.
Qed.

Lemma lines_read_with_eof_are_dropped_witness :
  let python := appends_to_unauthenticated in
  let p0 := new_proxy false (String.eqb "secret") ∅ (JList []) in
  let p := (do_accept p0 1%nat).1 in
  let ss := ClientWrapper (new_client 1%nat) in
  let recvs := [RecvReturns (replicate (Z.to_nat RECV_MAX) LINE_SEPARATOR);
                RecvReturns []] in
  let lines := replicate (Z.to_nat RECV_MAX) [LINE_SEPARATOR] in
  tracked_once p
  ∧ socket_wrappers p !! 1%nat = Some ss
  ∧ read (container_of ss) recvs
    = ((read (container_of ss) recvs).1, Returns (lines, true))
  ∧ tracked_streams (process_ready p (StreamReady 1%nat recvs)).1 = [].
Proof.
  cbv zeta.
  set (p := (do_accept (new_proxy false (String.eqb "secret") ∅ (JList []))
               1%nat).1).
  set (ss := ClientWrapper (new_client 1%nat)).
  set (recvs := [RecvReturns (replicate (Z.to_nat RECV_MAX) LINE_SEPARATOR);
                 RecvReturns []]).
  assert (Hinv : tracked_once p).
  { apply do_accept_tracked; [apply new_proxy_tracked|].
    apply not_elem_of_dom. vm_compute. reflexivity. }
  assert (Hss : socket_wrappers p !! 1%nat = Some ss)
    by (vm_compute; reflexivity).
  assert (Hread : read (container_of ss) recvs
                  = ((read (container_of ss) recvs).1,
                     Returns (replicate (Z.to_nat RECV_MAX) [LINE_SEPARATOR],
                              true)))
    by (vm_compute; reflexivity).
  refine (conj Hinv (conj Hss (conj Hread _))).
  destruct (@lines_read_with_eof_are_dropped appends_to_unauthenticated
              p 1%nat ss recvs _ _ Hinv Hss Hread) as [-> _].
  by vm_compute.
Defined.

(** *** What a batch cannot change *)

Section ListsPreserved.
(** A property of the three lists that the handlers and the removal of
    another stream keep is kept by a whole batch, unless the batch
    closes the stream it speaks of. *)
#[local] Existing Instance no_side_effects.
Variable s : socket_id.
Variable Q : list socket_id → list socket_id → list socket_id → Prop.

Local Abbreviation holds p :=
  (Q (server_sockets p) (unauthenticated_sockets p) (client_sockets p)).

Hypothesis Q_auth : ∀ servers unauthenticated clients s',
  Q servers unauthenticated clients →
  Q servers (remove_while (length unauthenticated) s' unauthenticated)
    (clients ++ [s']).
Hypothesis Q_remove : ∀ servers unauthenticated clients s',
  s' ≠ s → Q servers unauthenticated clients →
  Q (if bool_decide (s' ∈ servers) then remove_first s' servers else servers)
    (if bool_decide (s' ∈ unauthenticated)
     then remove_first s' unauthenticated else unauthenticated)
    (if bool_decide (s' ∈ clients) then remove_first s' clients else clients).
Hypothesis Q_accept : ∀ servers unauthenticated clients s',
  Q servers unauthenticated clients →
  Q servers (unauthenticated ++ [s']) clients.
Hypothesis Q_attach : ∀ servers unauthenticated clients s',
  Q servers unauthenticated clients →
  Q (servers ++ [s']) unauthenticated clients.

Lemma handler_preserves st p s' line :
  holds p → holds (handler st p s' line).1.
Proof.
  intros Hp. destruct st; simpl.
  - by rewrite handle_line_server_registry.
  - destruct (handle_line_auth_registry p s' line) as [->|[_ ->]]; [done|].
    by apply Q_auth.
  - by rewrite handle_line_client_registry.
Qed.

Lemma dispatch_line_preserves sts p s' line :
  holds p → holds (dispatch_line sts p s' line).1.
Proof.
  revert p. induction sts as [|st sts IH]; intros p Hp; simpl; [done|].
  case_bool_decide; [|by apply IH].
  pose proof (handler_preserves st p s' line Hp) as Hh.
  destruct (handler st p s' line) as [p' [[]|e]]; simpl in *;
    [done|by apply IH|done].
Qed.

Lemma dispatch_lines_preserves p s' lines :
  holds p → holds (dispatch_lines p s' lines).1.
Proof.
  revert p. induction lines as [|line lines IH]; intros p Hp; [done|].
  rewrite dispatch_lines_cons.
  pose proof (dispatch_line_preserves states p s' line Hp) as Hd.
  destruct (dispatch_line states p s' line) as [p' [u|e]];
    [by apply IH|done].
Qed.

Lemma process_ready_preserves p ev :
  holds p → holds (process_ready p ev).1 ∨ closes_in s p ev.
Proof.
  intros Hp. destruct ev as [[connection|]|s' recvs]; unfold process_ready.
  - left. unfold do_accept.
    destruct (add_filters _ _ _) as [filters [u|e]];
      [by apply Q_accept|].
    destruct (catches _ e); by apply Q_accept.
  - by left.
  - destruct (socket_wrappers p !! s') as [ss|] eqn:Hss; [|by left].
    destruct (read (container_of ss) recvs) as [c [[lines eof]|e]] eqn:Hread;
      [|by left].
    destruct eof; [|left; by apply dispatch_lines_preserves].
    destruct (decide (s' = s)) as [->|Hne].
    + right. simpl. split; [done|]. by exists ss, c, lines.
    + left. apply dispatch_lines_preserves. by apply Q_remove.
Qed.

Lemma process_batch_preserves p events :
  holds p → holds (process_batch p events).1 ∨ batch_closes s p events.
Proof.
  revert p. induction events as [|ev events IH]; intros p Hp; [by left|].
  cbn [process_batch batch_closes].
  destruct (process_ready_preserves p ev Hp) as [Hkeep|Hclose];
    [|right; by left].
  destruct (process_ready p ev) as [p1 [u|e]]; simpl in Hkeep; [|by left].
  destruct (IH p1 Hkeep) as [?|?]; [by left|right; by right].
Qed.

Lemma steps_preserve p evs p' :
  steps p evs p' → holds p → holds p' ∨ closed_along s p evs.
Proof.
  intros Hsteps. induction Hsteps as [p|p ev evs p' Hadm Hsteps IH];
    intros Hp; [by left|].
  cbn [closed_along].
  assert (Hstep : holds (apply_event p ev)
                  ∨ match ev with
                    | Batch events => batch_closes s p events
                    | Attach _ _ => False
                    end).
  { destruct ev as [events|server C]; simpl.
    - by apply process_batch_preserves.
    - left. by apply Q_attach. }
  destruct Hstep as [Hkeep|Hclose]; [|right; by left].
  destruct (IH Hkeep) as [?|?]; [by left|right; by right].
Qed.
End ListsPreserved.

(** A stream keeps its kind.  As long as no command name is bound to
    [do_client_debug], through every sequence of batches and attachments a
    stream of the server list stays in the server list, and a stream of
    the two client lists stays in one of them, until a batch reads end of
    stream on it. *)
Theorem stream_kind_is_stable `{PythonEval} (p p' : Proxy) (evs : list event)
    (s : socket_id) :
  debug_disabled p → steps p evs p' →
  (s ∈ server_sockets p → s ∈ server_sockets p' ∨ closed_along s p evs)
  ∧ (s ∈ unauthenticated_sockets p ∨ s ∈ client_sockets p →
     (s ∈ unauthenticated_sockets p' ∨ s ∈ client_sockets p')
     ∨ closed_along s p evs).
Proof.
  intros Hd Hsteps. destruct (steps_agree p evs p' Hd Hsteps) as [Hq _].
  rewrite (closed_along_agrees s p evs Hd). split; intros Hs.
  - apply (steps_preserve s (λ servers _ _, s ∈ servers)) with (p := p);
      try done.
    + intros servers _ _ s' Hne Hin.
      case_bool_decide; [by apply remove_first_other|done].
    + intros servers _ _ s' Hin. apply elem_of_app. by left.
  - apply (steps_preserve s (λ _ unauthenticated clients,
                               s ∈ unauthenticated ∨ s ∈ clients))
      with (p := p); try done.
    + intros _ unauthenticated clients s' [Hin|Hin].
      * destruct (decide (s = s')) as [->|Hne].
        -- right. apply elem_of_app. right. apply list_elem_of_here.
        -- left. by apply remove_while_other.
      * right. apply elem_of_app. by left.
    + intros _ unauthenticated clients s' Hne [Hin|Hin]; [left|right];
        (case_bool_decide; [by apply remove_first_other|done]).
    + intros _ unauthenticated clients s' [Hin|Hin]; [left|by right].
      apply elem_of_app. by left.
Qed.

Lemma stream_kind_is_stable_witness :
  let python := appends_to_unauthenticated in
  let p0 := new_proxy false (String.eqb "secret") ∅ (JList []) in
  let p := foldl apply_event p0
             [Batch [AcceptReady (Some 1%nat)];
              Attach (new_server "mud.example.org" 4000 "mud") 2%nat] in
  let evs :=
    [Batch [StreamReady 1%nat [RecvReturns (encode_str "secret" ++ [10])];
            StreamReady 2%nat [RecvReturns (encode_str "welcome" ++ [10])]];
     Batch [AcceptReady (Some 3%nat)]] in
  let p' := foldl apply_event p evs in
  debug_disabled p
  ∧ steps p evs p'
  ∧ (2%nat ∈ server_sockets p)
  ∧ (1%nat ∈ unauthenticated_sockets p ∨ 1%nat ∈ client_sockets p)
  ∧ server_sockets p' = [2%nat]
  ∧ client_sockets p' = [1%nat]
  ∧ (2%nat ∈ server_sockets p' ∨ closed_along 2%nat p evs)
  ∧ ((1%nat ∈ unauthenticated_sockets p' ∨ 1%nat ∈ client_sockets p')
     ∨ closed_along 1%nat p evs).
Proof.
  cbv zeta.
  set (python := appends_to_unauthenticated).
  set (p0 := new_proxy false (String.eqb "secret") ∅ (JList [])).
  set (start := [Batch [AcceptReady (Some 1%nat)];
                 Attach (new_server "mud.example.org" 4000 "mud") 2%nat]).
  set (p := foldl apply_event p0 start).
  set (evs := [Batch [StreamReady 1%nat
                        [RecvReturns (encode_str "secret" ++ [10])];
                      StreamReady 2%nat
                        [RecvReturns (encode_str "welcome" ++ [10])]];
               Batch [AcceptReady (Some 3%nat)]]).
  assert (Hstart : steps p0 start p).
  { subst p start. cbn [foldl].
    repeat (apply steps_cons; [admissible_by_evaluation|]).
    apply steps_nil. }
  destruct (steps_tracked_without_debug p0 start p
              (new_proxy_debug_disabled _ _ _) (new_proxy_tracked _ _ _ _)
              Hstart) as [Hd _].
  assert (Hsteps : steps p evs (foldl apply_event p evs)).
  { subst evs. cbn [foldl].
    repeat (apply steps_cons; [admissible_by_evaluation|]).
    apply steps_nil. }
  assert (H2 : 2%nat ∈ server_sockets p)
    by (vm_compute; apply list_elem_of_here).
  assert (H1 : 1%nat ∈ unauthenticated_sockets p ∨ 1%nat ∈ client_sockets p)
    by (left; vm_compute; apply list_elem_of_here).
  destruct (stream_kind_is_stable p _ evs 2%nat Hd Hsteps) as [Hsrv _].
  destruct (stream_kind_is_stable p _ evs 1%nat Hd Hsteps) as [_ Hcli].
  exact (conj Hd (conj Hsteps (conj H2 (conj H1 (conj eq_refl (conj eq_refl
           (conj (Hsrv H2) (Hcli H1)))))))).
Defined.

(** *** A stream that closes at once *)

Lemma remove_first_last s l : s ∉ l → remove_first s (l ++ [s]) = l.
Proof.
  induction l as [|x l IH]; simpl.
  - intros _. by rewrite bool_decide_eq_true_2.
  - intros Hs. apply not_elem_of_cons in Hs as [Hne Hs].
    rewrite bool_decide_eq_false_2 by done. by rewrite IH.
Qed.

(** A stream that enters the registry and closes before anything else
    happens leaves the registry exactly as it was before it came: this
    holds for a server stream attached by a connector thread and for a
    client accepted by the run loop alike. *)
Theorem stream_closed_at_once_leaves_no_trace `{PythonEval} (p : Proxy)
    (server : RemoteServer) (C : socket_id) (recvs : list recv_outcome) :
  tracked_once p → untracked p C →
  process_ready (connector_attach p server C)
                (StreamReady C (RecvReturns [] :: recvs))
  = (p, Returns tt)
  ∧ process_ready (do_accept p C).1 (StreamReady C (RecvReturns [] :: recvs))
    = (p, Returns tt).
Proof.
  intros Hinv Hnew.
  assert (Hlist : C ∉ tracked_streams p).
  { unfold untracked in Hnew. by rewrite (proj1 Hinv) in Hnew. }
  assert (Hkey : socket_wrappers p !! C = None)
    by (by apply not_elem_of_dom).
  unfold tracked_streams in Hlist. rewrite !elem_of_app in Hlist.
  assert (Hsrv : C ∉ server_sockets p) by tauto.
  assert (Hun : C ∉ unauthenticated_sockets p) by tauto.
  assert (Hcl : C ∉ client_sockets p) by tauto.
  assert (Hclosed : ∀ p1 ss,
    socket_wrappers p1 !! C = Some ss →
    connected (container_of ss) = true → socket (container_of ss) = Some C →
    (∀ c, remove_stream
            (set_registry p1 (<[C := with_container ss c]> (socket_wrappers p1))
               (server_sockets p1) (unauthenticated_sockets p1)
               (client_sockets p1)) C = p) →
    process_ready p1 (StreamReady C (RecvReturns [] :: recvs))
    = (p, Returns tt)).
  { intros p1 ss Hss Hc Hs Hback. unfold process_ready. rewrite Hss.
    destruct (read_zero_length_is_eof (container_of ss) C recvs Hc Hs)
      as (c & lines & ->).
    rewrite Hback. apply dispatch_lines_unlisted.
    unfold tracked_streams. rewrite !elem_of_app. tauto. }
  split.
  - eapply Hclosed; [apply lookup_insert_eq|done|done|].
    intros c. clear Hclosed. destruct p as [w a b cl cc pv fp fc].
    unfold remove_stream, connector_attach, set_registry. simpl in *.
    rewrite insert_insert_eq, delete_insert_eq, delete_id by done.
    rewrite (bool_decide_eq_true_2 (C ∈ a ++ [C]))
      by (apply elem_of_app; right; apply list_elem_of_here).
    rewrite (bool_decide_eq_false_2 _ Hun), (bool_decide_eq_false_2 _ Hcl).
    by rewrite remove_first_last.
  - assert (Haccept : ∃ filters,
      (do_accept p C).1
      = set_registry p
          (<[C := ClientWrapper
                    {| client_container := client_container (new_client C);
                       client_filters := filters; subscribedTo := None |}]>
             (socket_wrappers p))
          (server_sockets p) (unauthenticated_sockets p ++ [C])
          (client_sockets p)).
    { unfold do_accept.
      destruct (add_filters _ _ _) as [filters [u|e]]; [by eexists|].
      destruct (catches _ e); by eexists. }
    destruct Haccept as [filters ->].
    eapply Hclosed; [apply lookup_insert_eq|done|done|].
    intros c. clear Hclosed. destruct p as [w a b cl cc pv fp fc].
    unfold remove_stream, set_registry. simpl in *.
    rewrite insert_insert_eq, delete_insert_eq, delete_id by done.
    rewrite (bool_decide_eq_true_2 (C ∈ b ++ [C]))
      by (apply elem_of_app; right; apply list_elem_of_here).
    rewrite (bool_decide_eq_false_2 _ Hsrv), (bool_decide_eq_false_2 _ Hcl).
    by rewrite remove_first_last.
Qed.

Lemma stream_closed_at_once_leaves_no_trace_witness :
  let python := appends_to_unauthenticated in
  let p := (do_accept (new_proxy false (String.eqb "secret") ∅ (JList []))
              1%nat).1 in
  let server := new_server "mud.example.org" 4000 "mud" in
  tracked_once p ∧ untracked p 2%nat
  ∧ process_ready (connector_attach p server 2%nat)
                  (StreamReady 2%nat [RecvReturns []])
    = (p, Returns tt)
  ∧ process_ready (do_accept p 2%nat).1 (StreamReady 2%nat [RecvReturns []])
    = (p, Returns tt).
Proof.
  cbv zeta.
  set (p := (do_accept (new_proxy false (String.eqb "secret") ∅ (JList []))
               1%nat).1).
  assert (Hinv : tracked_once p).
  { apply do_accept_tracked; [apply new_proxy_tracked|].
    apply not_elem_of_dom. vm_compute. reflexivity. }
  assert (Hnew : untracked p 2%nat)
    by (apply not_elem_of_dom; vm_compute; reflexivity).
  exact (conj Hinv (conj Hnew
    (stream_closed_at_once_leaves_no_trace p _ 2%nat [] Hinv Hnew))).
Defined.

(** *** Tracked endpoints are attached *)

Lemma read_keeps_attachment c recvs :
  connected (read c recvs).1 = connected c
  ∧ socket (read c recvs).1 = socket c.
Proof.
  unfold read.
  destruct (negb (connected c)); [done|].
  destruct (negb (bool_decide (socket c ≠ None))); [done|].
  destruct (recv_loop recvs (b_recv_buffer c)) as [buf [has_eof|e]].
  - simpl. destruct (telnet_strip buf) as [stripped in_command].
    destruct (split_lines _ _) as [q rest]. by destruct in_command.
  - destruct (first_handler read_handlers e) as [h|]; [|done]. simpl.
    destruct (telnet_strip buf) as [stripped in_command].
    destruct (split_lines _ _) as [q rest]. by destruct in_command.
Qed.

Lemma container_of_with_container w c :
  container_of (with_container w c) = c.
Proof. by destruct w. Qed.

Lemma well_wrapped_lists p p' :
  well_wrapped p →
  socket_wrappers p' = socket_wrappers p →
  (∀ s, s ∈ server_sockets p → s ∈ server_sockets p') →
  (∀ s, s ∈ unauthenticated_sockets p ∨ s ∈ client_sockets p →
        s ∈ unauthenticated_sockets p' ∨ s ∈ client_sockets p') →
  well_wrapped p'.
Proof.
  intros Hw Hmap Hsrv Hcli s w Hs. rewrite Hmap in Hs.
  destruct (Hw s w Hs) as (Hc & Hsock & Hkind).
  split; [done|]. split; [done|]. destruct w; auto.
Qed.

Section WellWrappedWithoutDebug.
#[local] Existing Instance no_side_effects.

Lemma handler_well_wrapped st p s line :
  well_wrapped p → well_wrapped (handler st p s line).1.
Proof.
  intros Hw. destruct st; simpl.
  - by rewrite handle_line_server_registry.
  - destruct (handle_line_auth_registry p s line) as [->|[Hin ->]]; [done|].
    apply (well_wrapped_lists p); [done|done|done|].
    simpl. intros x [Hx|Hx].
    + destruct (decide (x = s)) as [->|Hne].
      * right. apply elem_of_app. right. apply list_elem_of_here.
      * left. by apply remove_while_other.
    + right. apply elem_of_app. by left.
  - by rewrite handle_line_client_registry.
Qed.

Lemma dispatch_line_well_wrapped sts p s line :
  well_wrapped p → well_wrapped (dispatch_line sts p s line).1.
Proof.
  revert p. induction sts as [|st sts IH]; intros p Hp; simpl; [done|].
  case_bool_decide; [|by apply IH].
  pose proof (handler_well_wrapped st p s line Hp) as Hh.
  destruct (handler st p s line) as [p' [[]|e]]; simpl in *;
    [done|by apply IH|done].
Qed.

Lemma dispatch_lines_well_wrapped p s lines :
  well_wrapped p → well_wrapped (dispatch_lines p s lines).1.
Proof.
  revert p. induction lines as [|line lines IH]; intros p Hp; [done|].
  rewrite dispatch_lines_cons.
  pose proof (dispatch_line_well_wrapped states p s line Hp) as Hd.
  destruct (dispatch_line states p s line) as [p' [u|e]];
    [by apply IH|done].
Qed.

Lemma remove_stream_well_wrapped p s :
  well_wrapped p → well_wrapped (remove_stream p s).
Proof.
  intros Hw x w Hx. unfold remove_stream in *. simpl in *.
  apply lookup_delete_Some in Hx as [Hne Hx].
  destruct (Hw x w Hx) as (Hc & Hsock & Hkind).
  split; [done|]. split; [done|].
  assert (Hkeep : ∀ l, x ∈ l →
            x ∈ (if bool_decide (s ∈ l) then remove_first s l else l)).
  { intros l Hl. case_bool_decide; [apply remove_first_other|]; done. }
  destruct w; [by apply Hkeep|]. destruct Hkind; [left|right]; by apply Hkeep.
Qed.

Lemma insert_read_well_wrapped p s ss recvs :
  well_wrapped p → socket_wrappers p !! s = Some ss →
  well_wrapped
    (set_registry p
       (<[s := with_container ss (read (container_of ss) recvs).1]>
          (socket_wrappers p))
       (server_sockets p) (unauthenticated_sockets p) (client_sockets p)).
Proof.
  intros Hw Hss x w. simpl. rewrite lookup_insert.
  case_decide as Hx.
  - subst x. intros [= <-]. rewrite container_of_with_container.
    destruct (read_keeps_attachment (container_of ss) recvs) as [-> ->].
    destruct (Hw s ss Hss) as (Hc & Hsock & Hkind).
    split; [done|]. split; [done|]. by destruct ss.
  - apply Hw.
Qed.

Lemma do_accept_well_wrapped p connection :
  well_wrapped p → well_wrapped (do_accept p connection).1.
Proof.
  intros Hw.
  assert (Hp : ∀ filters, well_wrapped
    (set_registry p
       (<[connection := ClientWrapper
            {| client_container := client_container (new_client connection);
               client_filters := filters; subscribedTo := None |}]>
          (socket_wrappers p))
       (server_sockets p) (unauthenticated_sockets p ++ [connection])
       (client_sockets p))).
  { intros filters x w. simpl. rewrite lookup_insert. case_decide as Hx.
    - subst x. intros [= <-]. simpl. repeat split.
      left. apply elem_of_app. right. apply list_elem_of_here.
    - intros Hxw. destruct (Hw x w Hxw) as (Hc & Hsock & Hkind).
      split; [done|]. split; [done|]. destruct w; [done|].
      destruct Hkind; [left; apply elem_of_app; by left|by right]. }
  unfold do_accept.
  destruct (add_filters _ _ _) as [filters [u|e]]; [apply Hp|].
  destruct (catches _ e); apply Hp.
Qed.

Lemma connector_attach_well_wrapped p server C :
  well_wrapped p → well_wrapped (connector_attach p server C).
Proof.
  intros Hw x w. unfold connector_attach. simpl. rewrite lookup_insert.
  case_decide as Hx.
  - subst x. intros [= <-]. simpl. repeat split.
    apply elem_of_app. right. apply list_elem_of_here.
  - intros Hxw. destruct (Hw x w Hxw) as (Hc & Hsock & Hkind).
    split; [done|]. split; [done|]. destruct w; [|done].
    apply elem_of_app. by left.
Qed.

Lemma process_ready_well_wrapped p ev :
  well_wrapped p → well_wrapped (process_ready p ev).1.
Proof.
  intros Hw. destruct ev as [[connection|]|s recvs]; unfold process_ready.
  - by apply do_accept_well_wrapped.
  - done.
  - destruct (socket_wrappers p !! s) as [ss|] eqn:Hss; [|done].
    pose proof (insert_read_well_wrapped p s ss recvs Hw Hss) as Hread.
    destruct (read (container_of ss) recvs) as [c [[lines eof]|e]];
      [|exact Hread].
    apply dispatch_lines_well_wrapped.
    destruct eof; [apply remove_stream_well_wrapped|]; exact Hread.
Qed.

Lemma process_batch_well_wrapped p events :
  well_wrapped p → well_wrapped (process_batch p events).1.
Proof.
  revert p. induction events as [|ev events IH]; intros p Hw; [done|].
  simpl. pose proof (process_ready_well_wrapped p ev Hw) as Hp.
  destruct (process_ready p ev) as [p' [u|e]]; simpl in *; [by apply IH|done].
Qed.

Lemma steps_well_wrapped p evs p' :
  steps p evs p' → well_wrapped p → well_wrapped p'.
Proof.
  intros Hsteps. induction Hsteps as [|p ev evs p' _ _ IH]; [done|].
  intros Hw. apply IH. destruct ev as [events|server C]; simpl.
  - by apply process_batch_well_wrapped.
  - by apply connector_attach_well_wrapped.
Qed.

End WellWrappedWithoutDebug.

Lemma attached_read_returns c s recvs :
  connected c = true → socket c = Some s → recv_raises_oserror recvs →
  ∃ c' lines eof, read c recvs = (c', Returns (lines, eof)).
Proof.
  intros Hc Hs Hrecvs. unfold read. rewrite Hc, Hs.
  rewrite bool_decide_eq_true_2 by done. cbn [negb].
  destruct (recv_loop recvs (b_recv_buffer c)) as [buf [has_eof|e]] eqn:Hloop;
    [|assert (He : issubclass e OSError = true)].
  - simpl. destruct (telnet_strip buf) as [stripped in_command].
    destruct (split_lines _ _) as [q rest]. eauto.
  - destruct (recv_loop_raises _ _ _ _ Hloop) as [->|Hin]; [done|].
    unfold recv_raises_oserror in Hrecvs.
    rewrite Forall_forall in Hrecvs. apply (Hrecvs _ Hin).
  - destruct (oserror_caught_by_read e He) as [h ->]. simpl.
    destruct (telnet_strip buf) as [stripped in_command].
    destruct (split_lines _ _) as [q rest]. eauto.
Qed.

(** In every state the registry reaches from its start with the [debug]
    setting off, each tracked stream is wrapped by an endpoint that is
    connected and attached to that very stream, a server endpoint for a
    stream of the server list and a client endpoint for a stream of the
    client lists.  So the assertions of [read] hold whenever the run loop
    reads a tracked stream, and the read returns as long as [recv] raises
    [OSError]s only. *)
Theorem tracked_endpoints_are_attached `{PythonEval}
    (verify : string → bool) (prototypes : gmap string filter_class)
    (client_filters : json) (evs : list event) (p : Proxy) (s : socket_id)
    (ss : wrapper) (recvs : list recv_outcome) :
  steps (new_proxy false verify prototypes client_filters) evs p →
  socket_wrappers p !! s = Some ss →
  connected (container_of ss) = true
  ∧ socket (container_of ss) = Some s
  ∧ match ss with
    | ServerWrapper _ => s ∈ server_sockets p
    | ClientWrapper _ => s ∈ unauthenticated_sockets p ∨ s ∈ client_sockets p
    end
  ∧ (recv_raises_oserror recvs →
     ∃ c lines eof, read (container_of ss) recvs = (c, Returns (lines, eof))).
Proof.
  intros Hsteps Hss.
  destruct (steps_agree _ evs p (new_proxy_debug_disabled _ _ _) Hsteps)
    as [Hq _].
  assert (Hw : well_wrapped p).
  { apply (steps_well_wrapped _ _ _ Hq). by intros x w Hx. }
  destruct (Hw s ss Hss) as (Hc & Hsock & Hkind).
  split; [done|]. split; [done|]. split; [done|].
  intros Hrecvs. by apply (attached_read_returns _ s).
Qed.

Lemma tracked_endpoints_are_attached_witness :
  let python := appends_to_unauthenticated in
  let p0 := new_proxy false (String.eqb "secret") ∅ (JList []) in
  let evs :=
    [Batch [AcceptReady (Some 1%nat)];
     Attach (new_server "mud.example.org" 4000 "mud") 2%nat;
     Batch [StreamReady 2%nat [RecvReturns (encode_str "welcome" ++ [10])]]] in
  let p := foldl apply_event p0 evs in
  let ss := ServerWrapper
              (mkRemoteServer (attach_socket new_container 2%nat) []
                 "mud.example.org" 4000 "mud" [] false false) in
  steps p0 evs p
  ∧ socket_wrappers p !! 2%nat = Some ss
  ∧ recv_raises_oserror [RecvRaises BlockingIOError]
  ∧ (2%nat ∈ server_sockets p)
  ∧ ∃ c lines eof,
      read (container_of ss) [RecvRaises BlockingIOError]
      = (c, Returns (lines, eof)).
Proof.
  cbv zeta.
  set (python := appends_to_unauthenticated).
  set (p0 := new_proxy false (String.eqb "secret") ∅ (JList [])).
  set (evs := [Batch [AcceptReady (Some 1%nat)];
     Attach (new_server "mud.example.org" 4000 "mud") 2%nat;
     Batch [StreamReady 2%nat [RecvReturns (encode_str "welcome" ++ [10])]]]).
  set (ss := ServerWrapper
               (mkRemoteServer (attach_socket new_container 2%nat) []
                  "mud.example.org" 4000 "mud" [] false false)).
  assert (Hsteps : steps p0 evs (foldl apply_event p0 evs)).
  { subst evs. cbn [foldl].
    repeat (apply steps_cons; [admissible_by_evaluation|]).
    apply steps_nil. }
  assert (Hss : socket_wrappers (foldl apply_event p0 evs) !! 2%nat = Some ss)
    by (vm_compute; reflexivity).
  assert (Hrecvs : recv_raises_oserror [RecvRaises BlockingIOError])
    by (repeat constructor).
  destruct (tracked_endpoints_are_attached (String.eqb "secret") ∅
              (JList []) evs _ 2%nat ss [RecvRaises BlockingIOError]
              Hsteps Hss) as (_ & _ & Hkind & Hread).
  exact (conj Hsteps (conj Hss (conj Hrecvs (conj Hkind (Hread Hrecvs))))).
Defined.

(** ** Subscriptions *)

Lemma remove_first_subset s x l : x ∈ remove_first s l → x ∈ l.
Proof.
  induction l as [|y l IH]; simpl; [done|].
  case_bool_decide.
  - intros Hx. by right.
  - intros [->|Hx]%elem_of_cons; [left|right; auto].
Qed.

Lemma remove_while_subset turns s x l : x ∈ remove_while turns s l → x ∈ l.
Proof.
  revert l. induction turns as [|turns IH]; intros l; simpl; [done|].
  case_bool_decide; [|done].
  intros Hx. by eapply remove_first_subset, IH.
Qed.

Lemma remove_first_NoDup s l : NoDup l → NoDup (remove_first s l).
Proof.
  intros Hnd. destruct (decide (s ∈ l)) as [Hin|Hout].
  - rewrite (remove_first_perm s l Hin) in Hnd.
    by apply NoDup_cons in Hnd as [_ ?].
  - replace (remove_first s l) with l; [done|].
    clear Hnd. induction l as [|y l IH]; simpl; [done|].
    apply not_elem_of_cons in Hout as [Hne Hout].
    rewrite bool_decide_eq_false_2 by done. by rewrite <- IH.
Qed.

Lemma remove_while_keeps_NoDup turns s l :
  NoDup l → NoDup (remove_while turns s l).
Proof.
  revert l. induction turns as [|turns IH]; intros l Hnd; simpl; [done|].
  case_bool_decide; [|done]. by apply IH, remove_first_NoDup.
Qed.

Lemma remove_while_absent turns s l : s ∉ l → remove_while turns s l = l.
Proof.
  intros Hs. destruct turns; simpl; [done|].
  by rewrite bool_decide_eq_false_2.
Qed.

(** [RemoteServer.subscribe] adds a client once and only once, and
    [RemoteServer.unsubscribe] removes it altogether and no one else;
    unsubscribing a client that was just subscribed gives the old list. *)
Theorem subscriber_list_operations (server : RemoteServer)
    (cid other : socket_id) :
  (cid ∈ subscribers (RemoteServer_subscribe server cid))
  ∧ RemoteServer_subscribe (RemoteServer_subscribe server cid) cid
    = RemoteServer_subscribe server cid
  ∧ (NoDup (subscribers server) →
     NoDup (subscribers (RemoteServer_subscribe server cid)))
  ∧ (other ∈ subscribers server →
     other ∈ subscribers (RemoteServer_subscribe server cid))
  ∧ (cid ∉ subscribers (RemoteServer_unsubscribe server cid))
  ∧ (other ≠ cid →
     ((other ∈ subscribers (RemoteServer_unsubscribe server cid))
      ↔ (other ∈ subscribers server)))
  ∧ (cid ∉ subscribers server →
     subscribers (RemoteServer_unsubscribe
                    (RemoteServer_subscribe server cid) cid)
     = subscribers server).
Proof.
  unfold RemoteServer_subscribe, RemoteServer_unsubscribe.
  split; [|split; [|split; [|split; [|split; [|split]]]]].
  - case_bool_decide; [done|]. simpl. apply elem_of_app. right.
    apply list_elem_of_here.
  - destruct (decide (cid ∈ subscribers server)) as [Hin|Hout].
    + rewrite (bool_decide_eq_true_2 _ Hin).
      by rewrite (bool_decide_eq_true_2 _ Hin).
    + rewrite !(bool_decide_eq_false_2 _ Hout). simpl.
      rewrite bool_decide_eq_true_2; [done|].
      apply elem_of_app. right. apply list_elem_of_here.
  - intros Hnd. case_bool_decide as Hin; [done|]. simpl.
    apply NoDup_app. split; [done|]. split; [|apply NoDup_singleton].
    intros x Hx ->%list_elem_of_singleton. done.
  - intros Ho. case_bool_decide; [done|]. simpl. apply elem_of_app. by left.
  - simpl. by apply remove_while_enough.
  - intros Hne. simpl. split; [apply remove_while_subset|].
    by apply remove_while_other.
  - intros Hout. rewrite bool_decide_eq_false_2 by done. simpl.
    rewrite length_app. simpl.
    replace (length (subscribers server) + 1)%nat
      with (S (length (subscribers server))) by lia.
    cbn [remove_while].
    rewrite bool_decide_eq_true_2
      by (apply elem_of_app; right; apply list_elem_of_here).
    rewrite remove_first_last by done. by apply remove_while_absent.
Qed.

Lemma write_keeps_attachment c data sends :
  connected (write c data sends).1.1 = connected c
  ∧ socket (write c data sends).1.1 = socket c.
Proof.
  unfold write, flush. simpl.
  destruct (negb (bool_decide (socket c ≠ None))); [done|].
  destruct (negb (connected c)); [done|].
  by destruct (flush_loop _ _ _ _) as [[buf wire] r].
Qed.

(** Changing the buffers of a client object, and nothing else of it,
    keeps the subscriptions consistent. *)
Lemma put_client_buffers_consistent w cid client c :
  subscriptions_consistent w →
  client_objects w !! cid = Some client →
  connected c = connected (client_container client) →
  socket c = socket (client_container client) →
  subscriptions_consistent (put_client w cid (set_client_container client c)).
Proof.
  intros [H1 H2] Hcid Hc Hs. split.
  - intros n server Hn. destruct (H1 n server Hn) as [Hnd Hsubs].
    split; [done|]. intros cid' Hin.
    destruct (Hsubs cid' Hin) as (client' & Hl & Hsub & Hconn & Hsock).
    simpl. rewrite lookup_insert. case_decide as Heq.
    + subst cid'. rewrite Hcid in Hl. injection Hl as <-.
      eexists. split; [done|]. simpl. by rewrite Hc, Hs.
    + by exists client'.
  - intros cid' client' n. simpl. rewrite lookup_insert.
    case_decide as Heq.
    + subst cid'. intros [= <-]. simpl. rewrite Hc. by apply H2.
    + apply H2.
Qed.

Lemma client_tell_consistent tell w cid msg sends :
  (∀ c m sd, ∃ data, tell c m sd = write c data sd) →
  subscriptions_consistent w →
  subscriptions_consistent (client_tell tell w cid msg sends).1.1.
Proof.
  intros Htell Hw. unfold client_tell.
  destruct (client_objects w !! cid) as [client|] eqn:Hcid; [|done].
  destruct (Htell (client_container client) msg sends) as [data Hdata].
  destruct (write_keeps_attachment (client_container client) data sends)
    as [Hc Hs].
  rewrite <- Hdata in Hc, Hs.
  destruct (tell (client_container client) msg sends) as [[c sent] r].
  by apply put_client_buffers_consistent.
Qed.

Lemma tell_ok_is_write c m sd : ∃ data, tell_ok c m sd = write c data sd.
Proof. by eexists. Qed.

Lemma tell_err_is_write c m sd : ∃ data, tell_err c m sd = write c data sd.
Proof. by eexists. Qed.

Lemma subscribed_is_listed server cid :
  cid ∈ subscribers (RemoteServer_subscribe server cid).
Proof.
  unfold RemoteServer_subscribe. case_bool_decide; [done|]. simpl.
  apply elem_of_app. right. apply list_elem_of_here.
Qed.

(** A client with no subscription is in no subscriber list. *)
Lemma unsubscribed_client_not_listed w cid client n server :
  subscriptions_consistent w →
  client_objects w !! cid = Some client →
  subscribedTo client ≠ Some n →
  servers w !! n = Some server →
  cid ∉ subscribers server.
Proof.
  intros [H1 _] Hcid Hsub Hn Hin.
  destruct (proj2 (H1 n server Hn) cid Hin) as (client' & Hl & Hs & _).
  rewrite Hcid in Hl. injection Hl as <-. done.
Qed.

Lemma LocalClient_unsubscribe_consistent w cid :
  subscriptions_consistent w →
  subscriptions_consistent (LocalClient_unsubscribe w cid).1.
Proof.
  intros Hw. unfold LocalClient_unsubscribe.
  destruct (client_objects w !! cid) as [client|] eqn:Hcid; [|done].
  destruct (subscribedTo client) as [target|] eqn:Hsub; [|done].
  destruct (servers w !! target) as [server|] eqn:Htarget; [|done].
  pose proof Hw as [H1 H2]. simpl. split.
  - intros n srv. simpl. rewrite lookup_insert. case_decide as Hn.
    + subst n. intros [= <-]. simpl.
      destruct (H1 target server Htarget) as [Hnd Hsubs].
      split; [by apply remove_while_keeps_NoDup|].
      intros cid' Hin.
      assert (Hne : cid' ≠ cid).
      { intros ->. by apply (remove_while_enough _ cid (subscribers server))
                        in Hin. }
      apply remove_while_subset in Hin.
      destruct (Hsubs cid' Hin) as (client' & Hl & Hrest).
      exists client'. by rewrite lookup_insert_ne.
    + intros Hsrv. destruct (H1 n srv Hsrv) as [Hnd Hsubs].
      split; [done|]. intros cid' Hin.
      assert (Hne : cid' ≠ cid).
      { intros ->.
        apply (unsubscribed_client_not_listed w cid client n srv Hw Hcid);
          [|done|done].
        rewrite Hsub. congruence. }
      destruct (Hsubs cid' Hin) as (client' & Hl & Hrest).
      exists client'. by rewrite lookup_insert_ne.
  - intros cid' client' n. simpl. rewrite lookup_insert.
    case_decide as Hc; [by intros [= <-]|].
    intros Hl Hs Hconn. destruct (H2 cid' client' n Hl Hs Hconn)
      as (srv & Hsrv & Hin).
    rewrite lookup_insert. case_decide as Hn.
    + subst n. rewrite Htarget in Hsrv. injection Hsrv as <-.
      eexists. split; [done|]. simpl. by apply remove_while_other.
    + by exists srv.
Qed.

Lemma subscribe_pair_consistent w cid client args server :
  subscriptions_consistent w →
  servers w !! args = Some server →
  client_objects w !! cid = Some client →
  subscribedTo client = None →
  connected (client_container client) = true →
  socket (client_container client) ≠ None →
  subscriptions_consistent
    (LocalClient_subscribe
       (put_server w args (RemoteServer_subscribe server cid)) cid args).
Proof.
  intros Hw Hargs Hcid Hsub Hconn Hsock.
  assert (Hout : ∀ n srv, servers w !! n = Some srv → cid ∉ subscribers srv).
  { intros n srv Hn.
    apply (unsubscribed_client_not_listed w cid client n srv Hw Hcid);
      [|done].
    by rewrite Hsub. }
  destruct Hw as [H1 H2].
  unfold LocalClient_subscribe. simpl. rewrite Hcid.
  unfold RemoteServer_subscribe.
  rewrite (bool_decide_eq_false_2 _ (Hout args server Hargs)).
  split.
  - intros n srv. simpl. rewrite lookup_insert. case_decide as Hn.
    + subst n. intros [= <-]. simpl.
      destruct (H1 args server Hargs) as [Hnd Hsubs]. split.
      * apply NoDup_app. split; [done|]. split; [|apply NoDup_singleton].
        intros x Hx ->%list_elem_of_singleton.
        by apply (Hout args server Hargs).
      * intros cid' [Hin| ->%list_elem_of_singleton]%elem_of_app.
        -- assert (Hne : cid' ≠ cid).
           { intros ->. by apply (Hout args server Hargs). }
           destruct (Hsubs cid' Hin) as (client' & Hl & Hrest).
           exists client'. by rewrite lookup_insert_ne.
        -- eexists. rewrite lookup_insert_eq. split; [done|]. by simpl.
    + intros Hsrv. destruct (H1 n srv Hsrv) as [Hnd Hsubs].
      split; [done|]. intros cid' Hin.
      assert (Hne : cid' ≠ cid). { intros ->. by apply (Hout n srv Hsrv). }
      destruct (Hsubs cid' Hin) as (client' & Hl & Hrest).
      exists client'. by rewrite lookup_insert_ne.
  - intros cid' client' n. simpl. rewrite lookup_insert.
    case_decide as Hc.
    + subst cid'. intros [= <-]. simpl. intros [= <-] _.
      eexists. rewrite lookup_insert_eq. split; [done|]. simpl.
      apply elem_of_app. right. apply list_elem_of_here.
    + intros Hl Hs Hcn. destruct (H2 cid' client' n Hl Hs Hcn)
        as (srv & Hsrv & Hin).
      rewrite lookup_insert. case_decide as Hn.
      * subst n. rewrite Hargs in Hsrv. injection Hsrv as <-.
        eexists. split; [done|]. simpl. apply elem_of_app. by left.
      * by exists srv.
Qed.

(** What a reply does to the objects: only the buffers of the client it
    goes to can change. *)
Lemma client_tell_effect tell w cid msg sends :
  servers (client_tell tell w cid msg sends).1.1 = servers w
  ∧ (∀ other, other ≠ cid →
       client_objects (client_tell tell w cid msg sends).1.1 !! other
       = client_objects w !! other)
  ∧ (∀ client, client_objects w !! cid = Some client →
       ∃ c, client_objects (client_tell tell w cid msg sends).1.1 !! cid
            = Some (set_client_container client c)).
Proof.
  unfold client_tell.
  destruct (client_objects w !! cid) as [client|] eqn:Hcid; [|done].
  destruct (tell (client_container client) msg sends) as [[c sent] r].
  simpl. split; [done|]. split.
  - intros other Hne. by rewrite lookup_insert_ne.
  - intros ? [= <-]. exists c. by rewrite lookup_insert_eq.
Qed.

(** The rest of [do_client_join] once the client holds no subscription. *)
Lemma subscribe_and_tell_consistent w cid client args server sends :
  subscriptions_consistent w →
  servers w !! args = Some server →
  client_objects w !! cid = Some client →
  subscribedTo client = None →
  connected (client_container client) = true →
  socket (client_container client) ≠ None →
  let w' :=
    (client_tell tell_ok
       (LocalClient_subscribe
          (put_server w args (RemoteServer_subscribe server cid)) cid args)
       cid ("Subscribed to server `" +:+ args +:+ "'.") sends).1.1 in
  subscriptions_consistent w'
  ∧ ∃ client' server',
      client_objects w' !! cid = Some client'
      ∧ subscribedTo client' = Some args
      ∧ servers w' !! args = Some server'
      ∧ cid ∈ subscribers server'.
Proof.
  intros Hw Hargs Hcid Hsub Hconn Hsock. cbv zeta.
  pose proof (subscribe_pair_consistent w cid client args server
                Hw Hargs Hcid Hsub Hconn Hsock) as Hw2.
  set (w2 := LocalClient_subscribe _ cid args) in *.
  split; [apply client_tell_consistent; [apply tell_ok_is_write|done]|].
  destruct (client_tell_effect tell_ok w2 cid
              ("Subscribed to server `" +:+ args +:+ "'.") sends)
    as (Hservers & _ & Hclient).
  assert (Hcid2 : client_objects w2 !! cid
                  = Some (set_subscribedTo client (Some args))).
  { subst w2. unfold LocalClient_subscribe. simpl. rewrite Hcid. simpl.
    apply lookup_insert_eq. }
  destruct (Hclient _ Hcid2) as [c Hc].
  eexists _, _. split; [exact Hc|]. split; [done|].
  rewrite Hservers. subst w2. unfold LocalClient_subscribe. simpl.
  rewrite Hcid. simpl. rewrite lookup_insert_eq. split; [done|].
  apply subscribed_is_listed.
Qed.

(** [do_client_join] keeps the subscriptions consistent.  When the server
    exists, the client ends subscribed to it and to no other server,
    whatever it was subscribed to before; when it does not, no
    subscription changes. *)
Theorem join_moves_the_subscription (w : World) (args : string)
    (cid : socket_id) (client : LocalClient) (sends : list send_outcome) :
  subscriptions_consistent w →
  client_objects w !! cid = Some client →
  connected (client_container client) = true →
  socket (client_container client) ≠ None →
  let w' := (do_client_join_world w args cid sends).1.1 in
  subscriptions_consistent w'
  ∧ (is_Some (servers w !! args) →
     ∃ client' server',
       client_objects w' !! cid = Some client'
       ∧ subscribedTo client' = Some args
       ∧ servers w' !! args = Some server'
       ∧ cid ∈ subscribers server'
       ∧ ∀ n srv, n ≠ args → servers w' !! n = Some srv →
                  cid ∉ subscribers srv)
  ∧ (servers w !! args = None →
     servers w' = servers w
     ∧ ∃ client', client_objects w' !! cid = Some client'
                  ∧ subscribedTo client' = subscribedTo client).
Proof.
  intros Hw Hcid Hconn Hsock. cbv zeta.
  assert (Hgoal : ∀ w',
    subscriptions_consistent w' →
    (∃ client' server',
       client_objects w' !! cid = Some client'
       ∧ subscribedTo client' = Some args
       ∧ servers w' !! args = Some server'
       ∧ cid ∈ subscribers server') →
    ∃ client' server',
       client_objects w' !! cid = Some client'
       ∧ subscribedTo client' = Some args
       ∧ servers w' !! args = Some server'
       ∧ cid ∈ subscribers server'
       ∧ ∀ n srv, n ≠ args → servers w' !! n = Some srv →
                  cid ∉ subscribers srv).
  { intros w' Hw' (client' & server' & Hc & Hs & Hsrv & Hin).
    exists client', server'. repeat split; try done.
    intros n srv Hne Hn.
    apply (unsubscribed_client_not_listed w' cid client' n srv Hw' Hc);
      [|done].
    rewrite Hs. congruence. }
  unfold do_client_join_world.
  destruct (servers w !! args) as [server|] eqn:Hargs.
  - rewrite Hcid.
    assert (Hstep : ∀ w1 client1 server1,
      subscriptions_consistent w1 →
      servers w1 !! args = Some server1 →
      client_objects w1 !! cid = Some client1 →
      subscribedTo client1 = None →
      connected (client_container client1) = true →
      socket (client_container client1) ≠ None →
      let w' :=
        (match servers w1 !! args with
         | None => (w1, [], Raises KeyError)
         | Some server =>
             let w := put_server w1 args (RemoteServer_subscribe server cid) in
             let w := LocalClient_subscribe w cid args in
             match client_tell tell_ok w cid
                     ("Subscribed to server `" +:+ args +:+ "'.") sends with
             | (w, sent, Raises e) => (w, sent, Raises e)
             | (w, sent, Returns _) => (w, sent, Returns true)
             end
         end).1.1 in
      subscriptions_consistent w'
      ∧ ∃ client' server',
          client_objects w' !! cid = Some client'
          ∧ subscribedTo client' = Some args
          ∧ servers w' !! args = Some server'
          ∧ cid ∈ subscribers server').
    { intros w1 client1 server1 Hw1 Hargs1 Hcid1 Hsub1 Hconn1 Hsock1.
      cbv zeta. rewrite Hargs1.
      pose proof (subscribe_and_tell_consistent w1 cid client1 args server1
                    sends Hw1 Hargs1 Hcid1 Hsub1 Hconn1 Hsock1) as Hres.
      cbv zeta in Hres.
      by destruct (client_tell tell_ok _ cid _ sends) as [[w3 sent] [u|e]]. }
    destruct (subscribedTo client) as [target|] eqn:Hsub.
    + destruct (proj2 Hw cid client target Hcid Hsub Hconn)
        as (tserver & Htarget & Hin).
      pose proof (LocalClient_unsubscribe_consistent w cid Hw) as Hw1.
      unfold LocalClient_unsubscribe in *.
      rewrite Hcid, Hsub, Htarget in *. simpl in Hw1.
      set (w1 := put_client _ cid _) in *.
      assert (Hargs1 : is_Some (servers w1 !! args)).
      { subst w1. simpl. rewrite lookup_insert. case_decide; eauto. }
      destruct Hargs1 as [server1 Hargs1].
      destruct (Hstep w1 (set_subscribedTo client None) server1 Hw1 Hargs1)
        as [Hw' Hpost]; try done.
      { subst w1. simpl. apply lookup_insert_eq. }
      split; [done|]. split; [intros _; by apply Hgoal|done].
    + destruct (Hstep w client server Hw Hargs Hcid Hsub Hconn Hsock)
        as [Hw' Hpost].
      split; [done|]. split; [intros _; by apply Hgoal|done].
  - destruct (client_tell_effect tell_err w cid
                ("No such server `" +:+ args +:+ "'.") sends)
      as (Hservers & _ & Hclient).
    pose proof (client_tell_consistent tell_err w cid
                  ("No such server `" +:+ args +:+ "'.") sends
                  tell_err_is_write Hw) as Hw'.
    destruct (Hclient client Hcid) as [c Hc].
    destruct (client_tell tell_err w cid _ sends) as [[w' sent] [u|e]];
      simpl in *.
    + split; [done|]. split; [by intros [? ?]|]. intros _.
      split; [done|]. by eexists.
    + split; [done|]. split; [by intros [? ?]|]. intros _.
      split; [done|]. by eexists.
Qed.

(** A reply leaves a client that holds no subscription without one. *)
Lemma client_tell_keeps_unsubscribed tell w cid msg sends :
  (∀ c m sd, ∃ data, tell c m sd = write c data sd) →
  (subscriptions_consistent w
   ∧ ∃ client, client_objects w !! cid = Some client
               ∧ subscribedTo client = None) →
  subscriptions_consistent (client_tell tell w cid msg sends).1.1
  ∧ ∃ client, client_objects (client_tell tell w cid msg sends).1.1 !! cid
              = Some client
              ∧ subscribedTo client = None.
Proof.
  intros Htell [Hw (client & Hcid & Hsub)].
  split; [by apply client_tell_consistent|].
  destruct (client_tell_effect tell w cid msg sends) as (_ & _ & Hclient).
  destruct (Hclient client Hcid) as [c Hc]. by eexists.
Qed.

(** [do_client_drop] keeps the subscriptions consistent and leaves an
    attached client without a subscription and in no server's list of
    subscribers, whether or not it had one. *)
Theorem drop_ends_the_subscription (w : World) (cid : socket_id)
    (client : LocalClient) (sends sends_handler : list send_outcome) :
  subscriptions_consistent w →
  client_objects w !! cid = Some client →
  connected (client_container client) = true →
  let w' := (do_client_drop_world w cid sends sends_handler).1.1 in
  subscriptions_consistent w'
  ∧ (∃ client', client_objects w' !! cid = Some client'
                ∧ subscribedTo client' = None)
  ∧ ∀ n server, servers w' !! n = Some server → cid ∉ subscribers server.
Proof.
  intros Hw Hcid Hconn. cbv zeta.
  assert (Hgoal : ∀ w',
    (subscriptions_consistent w'
     ∧ ∃ client', client_objects w' !! cid = Some client'
                  ∧ subscribedTo client' = None) →
    subscriptions_consistent w'
    ∧ (∃ client', client_objects w' !! cid = Some client'
                  ∧ subscribedTo client' = None)
    ∧ ∀ n server, servers w' !! n = Some server → cid ∉ subscribers server).
  { intros w' [Hw' (client' & Hc & Hs)]. split; [done|].
    split; [by eexists|]. intros n server Hn.
    apply (unsubscribed_client_not_listed w' cid client' n server Hw' Hc);
      [|done].
    by rewrite Hs. }
  apply Hgoal. unfold do_client_drop_world.
  assert (Hhandler : ∀ w1 sent,
    (subscriptions_consistent w1
     ∧ ∃ client', client_objects w1 !! cid = Some client'
                  ∧ subscribedTo client' = None) →
    subscriptions_consistent
      (let '(w2, sent_handler, r) :=
         client_tell tell_err w1 cid
           "Couldn't stop listening to this; it may be silent already."
           sends_handler in
       (w2, sent ++ sent_handler, r)).1.1
    ∧ ∃ client',
        client_objects
          (let '(w2, sent_handler, r) :=
             client_tell tell_err w1 cid
               "Couldn't stop listening to this; it may be silent already."
               sends_handler in
           (w2, sent ++ sent_handler, r)).1.1 !! cid = Some client'
        ∧ subscribedTo client' = None).
  { intros w1 sent H1.
    pose proof (client_tell_keeps_unsubscribed tell_err w1 cid
      "Couldn't stop listening to this; it may be silent already."
      sends_handler tell_err_is_write H1) as H2.
    by destruct (client_tell tell_err w1 cid _ sends_handler) as [[w2 sh] r]. }
  destruct (subscribedTo client) as [target|] eqn:Hsub.
  - destruct (proj2 Hw cid client target Hcid Hsub Hconn)
      as (tserver & Htarget & Hin).
    pose proof (LocalClient_unsubscribe_consistent w cid Hw) as Hw1.
    unfold LocalClient_unsubscribe in *.
    rewrite Hcid, Hsub, Htarget in *. simpl in Hw1.
    set (w1 := put_client _ cid _) in *.
    assert (H1 : subscriptions_consistent w1
                 ∧ ∃ client', client_objects w1 !! cid = Some client'
                              ∧ subscribedTo client' = None).
    { split; [done|]. eexists. subst w1. simpl.
      split; [apply lookup_insert_eq|done]. }
    pose proof (client_tell_keeps_unsubscribed tell_ok w1 cid
      "Stopped listening." sends tell_ok_is_write H1) as H2.
    destruct (client_tell tell_ok w1 cid _ sends) as [[w2 sent] [u|e]];
      [done|].
    destruct (catches [ValueError] e); [|done].
    apply (Hhandler w2 sent H2).
  - unfold LocalClient_unsubscribe. rewrite Hcid, Hsub.
    replace (catches [ValueError] ValueError) with true by done.
    apply (Hhandler w []). split; [done|]. by eexists.
Qed.

(** [LocalClient.handle_disconnect] keeps the subscriptions consistent: the
    client is detached and taken out of the list of the server it was
    subscribed to, so no server broadcasts to it any more, and the other
    subscribers of every server stay.  The client's own [subscribedTo]
    still names the server. *)
Theorem disconnected_client_unlisted (w : World) (cid : socket_id)
    (client : LocalClient) (hooks : outcome unit) :
  subscriptions_consistent w →
  client_objects w !! cid = Some client →
  connected (client_container client) = true →
  let w' := (LocalClient_handle_disconnect w cid hooks).1 in
  subscriptions_consistent w'
  ∧ (LocalClient_handle_disconnect w cid hooks).2 = hooks
  ∧ (∃ client', client_objects w' !! cid = Some client'
                ∧ connected (client_container client') = false
                ∧ socket (client_container client') = None
                ∧ subscribedTo client' = subscribedTo client)
  ∧ (∀ n server, servers w' !! n = Some server → cid ∉ subscribers server)
  ∧ ∀ n server, servers w !! n = Some server →
      ∃ server', servers w' !! n = Some server'
                 ∧ ∀ other, other ≠ cid →
                     ((other ∈ subscribers server')
                      ↔ (other ∈ subscribers server)).
Proof.
  intros Hw Hcid Hconn. cbv zeta.
  pose proof Hw as [H1 H2].
  unfold LocalClient_handle_disconnect. rewrite Hcid. simpl.
  destruct (subscribedTo client) as [target|] eqn:Hsub.
  - destruct (H2 cid client target Hcid Hsub Hconn)
      as (tserver & Htarget & Hin).
    rewrite Htarget. simpl.
    assert (Hothers : ∀ n srv, n ≠ target → servers w !! n = Some srv →
                               cid ∉ subscribers srv).
    { intros n srv Hne Hn.
      apply (unsubscribed_client_not_listed w cid client n srv Hw Hcid);
        [|done].
      rewrite Hsub. congruence. }
    split; [|split; [done|split; [|split]]].
    + split.
      * intros n srv. simpl. rewrite lookup_insert. case_decide as Hn.
        -- subst n. intros [= <-]. simpl.
           destruct (H1 target tserver Htarget) as [Hnd Hsubs].
           split; [by apply remove_while_keeps_NoDup|].
           intros cid' Hin'.
           assert (Hne : cid' ≠ cid).
           { intros ->.
             by apply (remove_while_enough _ cid (subscribers tserver))
               in Hin'. }
           apply remove_while_subset in Hin'.
           destruct (Hsubs cid' Hin') as (client' & Hl & Hrest).
           exists client'. by rewrite lookup_insert_ne.
        -- intros Hsrv. destruct (H1 n srv Hsrv) as [Hnd Hsubs].
           split; [done|]. intros cid' Hin'.
           assert (Hne : cid' ≠ cid).
           { intros ->. by apply (Hothers n srv). }
           destruct (Hsubs cid' Hin') as (client' & Hl & Hrest).
           exists client'. by rewrite lookup_insert_ne.
      * intros cid' client' n. simpl. rewrite lookup_insert.
        case_decide as Hc; [by intros [= <-]|].
        intros Hl Hs Hconn'.
        destruct (H2 cid' client' n Hl Hs Hconn') as (srv & Hsrv & Hin').
        rewrite lookup_insert. case_decide as Hn.
        -- subst n. rewrite Htarget in Hsrv. injection Hsrv as <-.
           eexists. split; [done|]. simpl. by apply remove_while_other.
        -- by exists srv.
    + eexists. simpl. split; [apply lookup_insert_eq|done].
    + intros n srv. simpl. rewrite lookup_insert. case_decide as Hn.
      * intros [= <-]. simpl. by apply remove_while_enough.
      * intros Hsrv. by apply (Hothers n srv).
    + intros n srv Hn. simpl. rewrite lookup_insert. case_decide as Heq.
      * subst n. rewrite Htarget in Hn. injection Hn as <-.
        eexists. split; [done|]. intros other Hne. simpl. split.
        -- apply remove_while_subset.
        -- by apply remove_while_other.
      * by exists srv.
  - assert (Hout : ∀ n srv, servers w !! n = Some srv → cid ∉ subscribers srv).
    { intros n srv Hn.
      apply (unsubscribed_client_not_listed w cid client n srv Hw Hcid);
        [|done].
      by rewrite Hsub. }
    split; [|split; [done|split; [|split]]].
    + split.
      * intros n srv Hsrv. simpl in Hsrv.
        destruct (H1 n srv Hsrv) as [Hnd Hsubs].
        split; [done|]. intros cid' Hin'.
        assert (Hne : cid' ≠ cid).
        { intros ->. by apply (Hout n srv). }
        destruct (Hsubs cid' Hin') as (client' & Hl & Hrest).
        exists client'. simpl. by rewrite lookup_insert_ne.
      * intros cid' client' n. simpl. rewrite lookup_insert.
        case_decide as Hc; [by intros [= <-]|].
        apply H2.
    + eexists. simpl. split; [apply lookup_insert_eq|done].
    + done.
    + intros n srv Hn. by exists srv.
Qed.

Lemma write_attached_returns c data sends :
  connected c = true → socket c ≠ None → send_raises_oserror sends →
  (write c data sends).2 = Returns tt.
Proof.
  intros Hc Hs Hsends. unfold write, flush. simpl. rewrite Hc.
  rewrite bool_decide_eq_true_2 by done. cbn [negb].
  pose proof (flush_loop_survives (linesep c) sends (b_send_buffer c ++ data)
                [] Hsends) as Hr.
  by destruct (flush_loop _ _ _ _) as [[buf wire] r].
Qed.

Lemma write_conserves c data sends :
  (write c data sends).1.2 ++ b_send_buffer (write c data sends).1.1
  = b_send_buffer c ++ data.
Proof.
  by destruct (run_call_spec c (WriteCall data sends)) as (_ & Hcons & _).
Qed.

Lemma write_to_subscribers_consistent w subs data sends_for :
  subscriptions_consistent w →
  subscriptions_consistent (write_to_subscribers w subs data sends_for).1.1.
Proof.
  revert w. induction subs as [|sub rest IH]; intros w Hw; simpl; [done|].
  destruct (client_objects w !! sub) as [client|] eqn:Hsub; [|done].
  unfold write_line.
  destruct (write_keeps_attachment (client_container client) data
              (sends_for sub)) as [Hc Hs].
  destruct (write (client_container client) data (sends_for sub))
    as [[c sent] r].
  simpl in Hc, Hs.
  pose proof (put_client_buffers_consistent w sub client c Hw Hsub Hc Hs)
    as Hw1.
  destruct r as [u|e]; [|done].
  specialize (IH _ Hw1).
  by destruct (write_to_subscribers _ rest data sends_for) as [[w2 wires] r].
Qed.

(** The loop of [handle_data] over distinct attached clients writes the
    line once to each of them, in order, and touches nothing else. *)
Lemma write_to_subscribers_spec w subs data sends_for :
  NoDup subs →
  (∀ cid, cid ∈ subs →
     ∃ client, client_objects w !! cid = Some client
               ∧ connected (client_container client) = true
               ∧ socket (client_container client) ≠ None) →
  (∀ cid, cid ∈ subs → send_raises_oserror (sends_for cid)) →
  (write_to_subscribers w subs data sends_for).2 = Returns tt
  ∧ map fst (write_to_subscribers w subs data sends_for).1.2 = subs
  ∧ servers (write_to_subscribers w subs data sends_for).1.1 = servers w
  ∧ (∀ cid, cid ∉ subs →
       client_objects (write_to_subscribers w subs data sends_for).1.1 !! cid
       = client_objects w !! cid)
  ∧ (∀ cid client, cid ∈ subs → client_objects w !! cid = Some client →
       (cid, (write_line (client_container client) data (sends_for cid)).1.2)
         ∈ (write_to_subscribers w subs data sends_for).1.2
       ∧ client_objects (write_to_subscribers w subs data sends_for).1.1
           !! cid
         = Some (set_client_container client
                   (write_line (client_container client) data
                      (sends_for cid)).1.1)).
Proof.
  revert w. induction subs as [|sub rest IH]; intros w Hnd Hatt Hsends.
  - simpl. split; [done|]. split; [done|]. split; [done|]. split; [done|].
    intros cid client Hin. by apply elem_of_nil in Hin.
  - apply NoDup_cons in Hnd as [Hsub Hnd].
    destruct (Hatt sub) as (client & Hl & Hconn & Hsock); [by left|].
    pose proof (write_attached_returns (client_container client) data
                  (sends_for sub) Hconn Hsock
                  (Hsends sub ltac:(by left))) as Hret.
    cbn [write_to_subscribers]. rewrite Hl. unfold write_line in *.
    destruct (write (client_container client) data (sends_for sub))
      as [[c sent] r] eqn:Hwrite.
    simpl in Hret. subst r.
    set (w1 := put_client w sub (set_client_container client c)).
    assert (Hsame : ∀ cid, cid ≠ sub →
              client_objects w1 !! cid = client_objects w !! cid).
    { intros cid Hne. subst w1. simpl. by rewrite lookup_insert_ne. }
    destruct (IH w1 Hnd) as (Hr & Hwires & Hservers & Hrest & Hsubs).
    { intros cid Hin. rewrite Hsame; [|by intros ->].
      apply Hatt. by right. }
    { intros cid Hin. apply Hsends. by right. }
    destruct (write_to_subscribers w1 rest data sends_for)
      as [[w2 wires] r2].
    simpl in *. subst r2.
    split; [done|]. split; [by rewrite Hwires|]. split; [done|]. split.
    + intros cid [Hne Hout]%not_elem_of_cons.
      rewrite Hrest by done. by apply Hsame.
    + intros cid client0 [->|Hin]%elem_of_cons Hl0.
      * rewrite Hl in Hl0. injection Hl0 as <-. rewrite Hwrite. simpl.
        split; [by left|].
        rewrite Hrest by done. subst w1. simpl. apply lookup_insert_eq.
      * assert (Hne : cid ≠ sub) by (by intros ->).
        destruct (Hsubs cid client0 Hin) as [Hw Hc];
          [by rewrite Hsame|].
        split; [by right|done].
Qed.

(** A line from a server goes to every subscriber of that server, once and
    in the order they subscribed, and to no other client: under consistent
    subscriptions and transports that only raise [OSError]s,
    [RemoteServer.handle_data] returns, each subscriber's outbound buffer
    and wire together gain exactly the line, and every other client and
    every server is left as it was. *)
Theorem broadcast_reaches_every_subscriber (w : World) (n : string)
    (server : RemoteServer) (data : TextLine)
    (sends_for : socket_id → list send_outcome) :
  subscriptions_consistent w →
  servers w !! n = Some server →
  (∀ cid, cid ∈ subscribers server → send_raises_oserror (sends_for cid)) →
  let res := RemoteServer_handle_data w n data sends_for in
  res.2 = Returns tt
  ∧ map fst res.1.2 = subscribers server
  ∧ subscriptions_consistent res.1.1
  ∧ servers res.1.1 = servers w
  ∧ (∀ cid, cid ∉ subscribers server →
       client_objects res.1.1 !! cid = client_objects w !! cid)
  ∧ (∀ cid, cid ∈ subscribers server →
       ∃ client client' sent,
         client_objects w !! cid = Some client
         ∧ client_objects res.1.1 !! cid = Some client'
         ∧ (cid, sent) ∈ res.1.2
         ∧ subscribedTo client' = subscribedTo client
         ∧ sent ++ b_send_buffer (client_container client')
           = b_send_buffer (client_container client) ++ data).
Proof.
  intros Hw Hn Hsends. cbv zeta. unfold RemoteServer_handle_data.
  rewrite Hn. destruct (proj1 Hw n server Hn) as [Hnd Hsubs].
  destruct (write_to_subscribers_spec w (subscribers server) data sends_for
              Hnd) as (Hr & Hwires & Hservers & Hrest & Hall); [|done|].
  { intros cid Hin.
    destruct (Hsubs cid Hin) as (client & Hl & _ & Hc & Hs). by exists client. }
  split; [done|]. split; [done|].
  split; [by apply write_to_subscribers_consistent|].
  split; [done|]. split; [done|].
  intros cid Hin. destruct (Hsubs cid Hin) as (client & Hl & _).
  destruct (Hall cid client Hin Hl) as [Hwire Hc].
  eexists client, _, _. split; [done|]. split; [exact Hc|].
  split; [exact Hwire|]. split; [done|]. simpl. apply write_conserves.
Qed.

(** Before anyone has joined a server the subscriptions are consistent. *)
Lemma unsubscribed_world_consistent w :
  (∀ n server, servers w !! n = Some server → subscribers server = []) →
  (∀ cid client, client_objects w !! cid = Some client →
                 subscribedTo client = None) →
  subscriptions_consistent w.
Proof.
  intros Hservers Hclients. split.
  - intros n server Hn. rewrite (Hservers n server Hn).
    split; [apply NoDup_nil_2|]. by intros cid ?%elem_of_nil.
  - intros cid client n Hcid Hsub. by rewrite (Hclients cid client Hcid) in Hsub.
Qed.

Lemma one_server_one_client_consistent n server cid client :
  subscribers server = [] → subscribedTo client = None →
  subscriptions_consistent
    {| servers := {[n := server]}; client_objects := {[cid := client]} |}.
Proof.
  intros Hs Hc. apply unsubscribed_world_consistent; simpl.
  - by intros ? ? [_ <-]%lookup_singleton_Some.
  - by intros ? ? [_ <-]%lookup_singleton_Some.
Qed.

Lemma join_moves_the_subscription_witness :
  let w := {| servers := {["mud" := new_server "example.org" 4000 "mud"]};
              client_objects := {[1%nat := new_client 1%nat]} |} in
  let args := "mud" in
  let cid := 1%nat in
  let client := new_client 1%nat in
  let sends := [SendAccepts 100] in
  subscriptions_consistent w
  ∧ client_objects w !! cid = Some client
  ∧ connected (client_container client) = true
  ∧ socket (client_container client) ≠ None
  ∧ let w' := (do_client_join_world w args cid sends).1.1 in
    subscriptions_consistent w'
    ∧ (is_Some (servers w !! args) →
       ∃ client' server',
         client_objects w' !! cid = Some client'
         ∧ subscribedTo client' = Some args
         ∧ servers w' !! args = Some server'
         ∧ cid ∈ subscribers server'
         ∧ ∀ n srv, n ≠ args → servers w' !! n = Some srv →
                    cid ∉ subscribers srv)
    ∧ (servers w !! args = None →
       servers w' = servers w
       ∧ ∃ client', client_objects w' !! cid = Some client'
                    ∧ subscribedTo client' = subscribedTo client).
Proof.
  cbv zeta.
  pose proof (one_server_one_client_consistent "mud"
                (new_server "example.org" 4000 "mud") 1%nat (new_client 1%nat)
                eq_refl eq_refl) as H1.
  assert (H2 : client_objects
                 {| servers := {["mud" := new_server "example.org" 4000 "mud"]};
                    client_objects := {[1%nat := new_client 1%nat]} |} !! 1%nat
               = Some (new_client 1%nat)) by apply lookup_singleton_eq.
  assert (H4 : socket (client_container (new_client 1%nat)) ≠ None) by done.
  exact (conj H1 (conj H2 (conj eq_refl (conj H4
    (join_moves_the_subscription _ "mud" 1%nat (new_client 1%nat)
       [SendAccepts 100] H1 H2 eq_refl H4))))).
Defined.

(** One client subscribed to one server. *)
Lemma one_subscription_consistent n server cid client :
  subscribers server = [] → subscribedTo client = None →
  connected (client_container client) = true →
  socket (client_container client) ≠ None →
  subscriptions_consistent
    (LocalClient_subscribe
       (put_server
          {| servers := {[n := server]}; client_objects := {[cid := client]} |}
          n (RemoteServer_subscribe server cid))
       cid n).
Proof.
  intros Hs Hc Hconn Hsock.
  apply (subscribe_pair_consistent _ cid client n server); try done.
  - by apply one_server_one_client_consistent.
  - apply lookup_singleton_eq.
  - apply lookup_singleton_eq.
Qed.

Lemma drop_ends_the_subscription_witness :
  let server := new_server "example.org" 4000 "mud" in
  let w := LocalClient_subscribe
             (put_server
                {| servers := {["mud" := server]};
                   client_objects := {[1%nat := new_client 1%nat]} |}
                "mud" (RemoteServer_subscribe server 1%nat))
             1%nat "mud" in
  let cid := 1%nat in
  let client := set_subscribedTo (new_client 1%nat) (Some "mud") in
  let sends := [SendAccepts 100] in
  let sends_handler := [] in
  subscriptions_consistent w
  ∧ client_objects w !! cid = Some client
  ∧ connected (client_container client) = true
  ∧ let w' := (do_client_drop_world w cid sends sends_handler).1.1 in
    subscriptions_consistent w'
    ∧ (∃ client', client_objects w' !! cid = Some client'
                  ∧ subscribedTo client' = None)
    ∧ ∀ n server, servers w' !! n = Some server → cid ∉ subscribers server.
Proof.
  cbv zeta.
  assert (H4 : socket (client_container (new_client 1%nat)) ≠ None) by done.
  pose proof (one_subscription_consistent "mud"
                (new_server "example.org" 4000 "mud") 1%nat (new_client 1%nat)
                eq_refl eq_refl eq_refl H4) as H1.
  assert (H2 : client_objects
                 (LocalClient_subscribe
                    (put_server
                       {| servers :=
                            {["mud" := new_server "example.org" 4000 "mud"]};
                          client_objects := {[1%nat := new_client 1%nat]} |}
                       "mud"
                       (RemoteServer_subscribe
                          (new_server "example.org" 4000 "mud") 1%nat))
                    1%nat "mud") !! 1%nat
               = Some (set_subscribedTo (new_client 1%nat) (Some "mud")))
    by (vm_compute; reflexivity).
  exact (conj H1 (conj H2 (conj eq_refl
    (drop_ends_the_subscription _ 1%nat _ [SendAccepts 100] [] H1 H2
       eq_refl)))).
Defined.

Lemma disconnected_client_unlisted_witness :
  let server := new_server "example.org" 4000 "mud" in
  let w := LocalClient_subscribe
             (put_server
                {| servers := {["mud" := server]};
                   client_objects := {[1%nat := new_client 1%nat]} |}
                "mud" (RemoteServer_subscribe server 1%nat))
             1%nat "mud" in
  let cid := 1%nat in
  let client := set_subscribedTo (new_client 1%nat) (Some "mud") in
  let hooks := Returns tt in
  subscriptions_consistent w
  ∧ client_objects w !! cid = Some client
  ∧ connected (client_container client) = true
  ∧ let w' := (LocalClient_handle_disconnect w cid hooks).1 in
    subscriptions_consistent w'
    ∧ (LocalClient_handle_disconnect w cid hooks).2 = hooks
    ∧ (∃ client', client_objects w' !! cid = Some client'
                  ∧ connected (client_container client') = false
                  ∧ socket (client_container client') = None
                  ∧ subscribedTo client' = subscribedTo client)
    ∧ (∀ n server, servers w' !! n = Some server → cid ∉ subscribers server)
    ∧ ∀ n server, servers w !! n = Some server →
        ∃ server', servers w' !! n = Some server'
                   ∧ ∀ other, other ≠ cid →
                       ((other ∈ subscribers server')
                        ↔ (other ∈ subscribers server)).
Proof.
  cbv zeta.
  assert (H4 : socket (client_container (new_client 1%nat)) ≠ None) by done.
  pose proof (one_subscription_consistent "mud"
                (new_server "example.org" 4000 "mud") 1%nat (new_client 1%nat)
                eq_refl eq_refl eq_refl H4) as H1.
  assert (H2 : client_objects
                 (LocalClient_subscribe
                    (put_server
                       {| servers :=
                            {["mud" := new_server "example.org" 4000 "mud"]};
                          client_objects := {[1%nat := new_client 1%nat]} |}
                       "mud"
                       (RemoteServer_subscribe
                          (new_server "example.org" 4000 "mud") 1%nat))
                    1%nat "mud") !! 1%nat
               = Some (set_subscribedTo (new_client 1%nat) (Some "mud")))
    by (vm_compute; reflexivity).
  exact (conj H1 (conj H2 (conj eq_refl
    (disconnected_client_unlisted _ 1%nat _ (Returns tt) H1 H2 eq_refl)))).
Defined.

Lemma broadcast_reaches_every_subscriber_witness :
  let server0 := new_server "example.org" 4000 "mud" in
  let w := LocalClient_subscribe
             (put_server
                {| servers := {["mud" := server0]};
                   client_objects := {[1%nat := new_client 1%nat]} |}
                "mud" (RemoteServer_subscribe server0 1%nat))
             1%nat "mud" in
  let n := "mud" in
  let server := RemoteServer_subscribe server0 1%nat in
  let data := [104; 105; 10] in
  let sends_for := λ _ : socket_id, [SendAccepts 100] in
  subscriptions_consistent w
  ∧ servers w !! n = Some server
  ∧ (∀ cid, cid ∈ subscribers server → send_raises_oserror (sends_for cid))
  ∧ let res := RemoteServer_handle_data w n data sends_for in
    res.2 = Returns tt
    ∧ map fst res.1.2 = subscribers server
    ∧ subscriptions_consistent res.1.1
    ∧ servers res.1.1 = servers w
    ∧ (∀ cid, cid ∉ subscribers server →
         client_objects res.1.1 !! cid = client_objects w !! cid)
    ∧ (∀ cid, cid ∈ subscribers server →
         ∃ client client' sent,
           client_objects w !! cid = Some client
           ∧ client_objects res.1.1 !! cid = Some client'
           ∧ (cid, sent) ∈ res.1.2
           ∧ subscribedTo client' = subscribedTo client
           ∧ sent ++ b_send_buffer (client_container client')
             = b_send_buffer (client_container client) ++ data).
Proof.
  cbv zeta.
  assert (H4 : socket (client_container (new_client 1%nat)) ≠ None) by done.
  pose proof (one_subscription_consistent "mud"
                (new_server "example.org" 4000 "mud") 1%nat (new_client 1%nat)
                eq_refl eq_refl eq_refl H4) as H1.
  assert (H2 : servers
                 (LocalClient_subscribe
                    (put_server
                       {| servers :=
                            {["mud" := new_server "example.org" 4000 "mud"]};
                          client_objects := {[1%nat := new_client 1%nat]} |}
                       "mud"
                       (RemoteServer_subscribe
                          (new_server "example.org" 4000 "mud") 1%nat))
                    1%nat "mud") !! "mud"
               = Some (RemoteServer_subscribe
                         (new_server "example.org" 4000 "mud") 1%nat))
    by (vm_compute; reflexivity).
  assert (H3 : ∀ cid : socket_id,
             cid ∈ subscribers
                     (RemoteServer_subscribe
                        (new_server "example.org" 4000 "mud") 1%nat) →
             send_raises_oserror [SendAccepts 100])
    by (intros; repeat constructor).
  exact (conj H1 (conj H2 (conj H3
    (broadcast_reaches_every_subscriber _ "mud" _ [104; 105; 10]
       (λ _, [SendAccepts 100]) H1 H2 H3)))).
Defined.

(** Changing the connection of a server object, and nothing else of it,
    keeps the subscriptions consistent. *)
Lemma put_server_container_consistent w n server c :
  subscriptions_consistent w →
  servers w !! n = Some server →
  subscriptions_consistent (put_server w n (set_server_container server c)).
Proof.
  intros [H1 H2] Hn. split.
  - intros n' srv. simpl. rewrite lookup_insert. case_decide as Heq.
    + subst n'. intros [= <-]. simpl. by apply H1.
    + apply H1.
  - intros cid client n' Hcid Hsub Hconn. simpl in Hcid.
    destruct (H2 cid client n' Hcid Hsub Hconn) as (srv & Hsrv & Hin).
    simpl. rewrite lookup_insert. case_decide as Heq.
    + subst n'. rewrite Hn in Hsrv. injection Hsrv as <-. by eexists.
    + by exists srv.
Qed.

(** A line from a client reaches the server the client is subscribed to
    and nothing else: [LocalClient.handle_data] leaves every other client,
    every other server and all subscriptions as they were.  When that
    server is connected, its outbound buffer and wire together gain exactly
    the line and the client itself gets no reply; when it is not, no server
    changes. *)
Theorem client_line_reaches_only_its_server (w : World) (cid : socket_id)
    (client : LocalClient) (data : TextLine) (sends : list send_outcome) :
  subscriptions_consistent w →
  client_objects w !! cid = Some client →
  let res := LocalClient_handle_data w cid data sends in
  subscriptions_consistent res.1.1
  ∧ (∀ other, other ≠ cid →
       client_objects res.1.1 !! other = client_objects w !! other)
  ∧ (∀ n, subscribedTo client ≠ Some n →
       servers res.1.1 !! n = servers w !! n)
  ∧ (∀ target server,
       subscribedTo client = Some target →
       servers w !! target = Some server →
       if connected (server_container server) then
         client_objects res.1.1 = client_objects w
         ∧ ∃ server', servers res.1.1 !! target = Some server'
                      ∧ subscribers server' = subscribers server
                      ∧ res.1.2 ++ b_send_buffer (server_container server')
                        = b_send_buffer (server_container server) ++ data
       else servers res.1.1 = servers w).
Proof.
  intros Hw Hcid. cbv zeta. unfold LocalClient_handle_data. rewrite Hcid.
  assert (Htell : ∀ msg,
    subscriptions_consistent (client_tell tell_err w cid msg sends).1.1
    ∧ (∀ other, other ≠ cid →
         client_objects (client_tell tell_err w cid msg sends).1.1 !! other
         = client_objects w !! other)
    ∧ servers (client_tell tell_err w cid msg sends).1.1 = servers w).
  { intros msg.
    destruct (client_tell_effect tell_err w cid msg sends) as (Hs & Ho & _).
    split; [|done].
    by apply client_tell_consistent; [apply tell_err_is_write|]. }
  destruct (subscribedTo client) as [target|] eqn:Hsub.
  - destruct (servers w !! target) as [server|] eqn:Htarget.
    + destruct (connected (server_container server)) eqn:Hconn.
      * unfold write_line.
        pose proof (write_conserves (server_container server) data sends)
          as Hcons.
        destruct (write (server_container server) data sends)
          as [[c sent] r].
        simpl in *.
        split; [by apply put_server_container_consistent|].
        split; [done|]. split.
        -- intros n Hne. rewrite lookup_insert_ne; [done|congruence].
        -- intros ? ? [= <-]. rewrite Htarget. intros [= <-].
           rewrite Hconn. split; [done|].
           eexists. split; [apply lookup_insert_eq|]. done.
      * destruct (Htell "Remote server not connected.") as (H1 & H2 & H3).
        split; [done|]. split; [done|]. split; [intros; by rewrite H3|].
        intros ? ? [= <-]. rewrite Htarget. intros [= <-]. by rewrite Hconn.
    + simpl. split; [done|]. split; [done|]. split; [done|].
      intros ? ? [= <-]. by rewrite Htarget.
  - destruct (Htell "Not subscribedTo anything.") as (H1 & H2 & H3).
    split; [done|]. split; [done|]. split; [intros; by rewrite H3|].
    by intros.
Qed.

Lemma client_line_reaches_only_its_server_witness :
  let server0 := set_server_container (new_server "example.org" 4000 "mud")
                   (attach_socket new_container 2%nat) in
  let w := LocalClient_subscribe
             (put_server
                {| servers := {["mud" := server0]};
                   client_objects := {[1%nat := new_client 1%nat]} |}
                "mud" (RemoteServer_subscribe server0 1%nat))
             1%nat "mud" in
  let cid := 1%nat in
  let client := set_subscribedTo (new_client 1%nat) (Some "mud") in
  let data := [104; 105; 10] in
  let sends := [SendAccepts 100] in
  subscriptions_consistent w
  ∧ client_objects w !! cid = Some client
  ∧ (∃ server, servers w !! "mud" = Some server
               ∧ connected (server_container server) = true)
  ∧ (LocalClient_handle_data w cid data sends).1.2 = data
  ∧ (LocalClient_handle_data w cid data sends).2 = Returns tt
  ∧ let res := LocalClient_handle_data w cid data sends in
    subscriptions_consistent res.1.1
    ∧ (∀ other, other ≠ cid →
         client_objects res.1.1 !! other = client_objects w !! other)
    ∧ (∀ n, subscribedTo client ≠ Some n →
         servers res.1.1 !! n = servers w !! n)
    ∧ (∀ target server,
         subscribedTo client = Some target →
         servers w !! target = Some server →
         if connected (server_container server) then
           client_objects res.1.1 = client_objects w
           ∧ ∃ server', servers res.1.1 !! target = Some server'
                        ∧ subscribers server' = subscribers server
                        ∧ res.1.2 ++ b_send_buffer (server_container server')
                          = b_send_buffer (server_container server) ++ data
         else servers res.1.1 = servers w).
Proof.
  cbv zeta.
  set (server0 := set_server_container (new_server "example.org" 4000 "mud")
                    (attach_socket new_container 2%nat)).
  assert (H4 : socket (client_container (new_client 1%nat)) ≠ None) by done.
  pose proof (one_subscription_consistent "mud" server0 1%nat
                (new_client 1%nat) eq_refl eq_refl eq_refl H4) as H1.
  assert (H2 : client_objects
                 (LocalClient_subscribe
                    (put_server
                       {| servers := {["mud" := server0]};
                          client_objects := {[1%nat := new_client 1%nat]} |}
                       "mud" (RemoteServer_subscribe server0 1%nat))
                    1%nat "mud") !! 1%nat
               = Some (set_subscribedTo (new_client 1%nat) (Some "mud")))
    by (vm_compute; reflexivity).
  assert (H3 : ∃ server,
             servers
               (LocalClient_subscribe
                  (put_server
                     {| servers := {["mud" := server0]};
                        client_objects := {[1%nat := new_client 1%nat]} |}
                     "mud" (RemoteServer_subscribe server0 1%nat))
                  1%nat "mud") !! "mud" = Some server
             ∧ connected (server_container server) = true)
    by (eexists; split; [vm_compute; reflexivity|reflexivity]).
  refine (conj H1 (conj H2 (conj H3 (conj _ (conj _
    (client_line_reaches_only_its_server _ 1%nat _ [104; 105; 10]
       [SendAccepts 100] H1 H2)))))); by vm_compute.
Defined.
